(* ===== verification/_CoqProject ===== *)
-Q . S2P
Prelude.v
Blog.v
BlogList.v
BlogForm.v
Server.v
BlogManager.v
App.v
Drain.v
Render.v
FormStore.v
Lifecycle.v
SharedHeap.v
HeapApp.v
