(* ===== verification/Prelude.v ===== *)
(** * A verification development for the DholeraNagri blog content manager

    ** The program (src/src)

    A React front end for a blog platform.  [App.js] mounts one
    [BlogManager]; [component/BlogManager.js] owns the post collection
    [blogs] and the selection [selectedBlog] and issues every HTTP request
    (axios GET, POST, PUT, DELETE against an external server),
    re-fetching the whole collection after each successful mutation;
    [component/BlogForm.js] is the creation form (fields [title],
    [author], [content], "Add Section", a submit that emits the draft and
    resets); [component/BlogList.js] renders the collection with an
    inline editor (state [activeBlogId], [editMode], one shared buffer
    [editedBlog]).  The components interact by callbacks: the form calls
    [handleCreateOrUpdateBlog], the list [handleUpdateBlog] and
    [handleDeleteBlog]; the manager passes [blogs] down.  Every handler
    of the manager is [async]: it runs up to its [await] and resumes when
    the response arrives, so responses are handled in completion order.

    ** Files, in dependency order

    - [Prelude]: this header; the [blog_scope] notation scope, the [blog]
      hint database and the [blog_rw] rewrite database; tactics
      ([inv_some]); generic list lemmas: the JS idiom
      [arr.filter((_, i) => i !== index)] is stdpp's positional [delete]
      ([filter_ne_index_delete]), and the lookup/insert/delete lemmas of
      the element appended last, used for the request queue.
    - [Blog]: the data: [Section], [Field], [set_field] (the JS
      [{ ...s, [field]: value }]), [BlogData] (request body), [Blog] (a
      post as the server returns it), with decidable equality instances.
    - [BlogList]: one definition per handler of [BlogList.js], and
      [list_step], the DOM-level dispatch of an event on a rendered row:
      an event is enabled only when its element is rendered (Edit when
      [!editMode], the edit form on the active row in edit mode, Delete in
      the content branch), [stopPropagation] is written out, and the
      Delete click runs [onDelete] then bubbles to the row's toggle.
      [ViewSpec] is the spec's machine [Idle | Expanded id | Editing id
      buffer]; [view_of] is the abstraction function.
    - [BlogForm] ([Module Form]): the form's state, initialised once
      from [initialData] at mount, its handlers, the browser's
      validation of the [required] inputs (title, author, every section's
      paragraph) and [form_step].
    - [Server]: the external API, the one part modelled from the spec
      (it is not code of this repository): the [Backend] typeclass, its
      [BackendLaws] (ids assigned fresh and never reused, PUT replaces the
      fields of one id, DELETE removes one id) against which every client
      theorem is proved, and [MemServer], an in-memory instance that
      discharges the laws and runs the concrete witnesses.
    - [BlogManager] ([Module Manager]): each async handler split at its
      [await] into the [Call]s it issues and [resume], its continuation on
      a [Response] ([RFail] is the error its [catch] logs).
    - [App]: the mounted program.  [AppState] holds the manager, form and
      list states, the requests in flight ([Pending]) and the server;
      [app_exec] runs one labelled event, executable: a user event on
      the form or the list, the service of request [i] with an
      [Outcome] (delivered; lost before the server; applied with the
      response lost), or the delivery of response [i], in any order.
      [app_reach] is reachability from the mount, whose [useEffect] has
      issued the first GET.
    - [Drain]: the network alone.  [net_step] serves or delivers one
      request; [weight] measures what is left to do for a request (a
      mutation will be served, delivered, and its refresh served and
      delivered); [drain] is the fuel-indexed run that serves and
      delivers the oldest request first.  Also the count of requests a
      step issues.
    - [Render]: what each component's [return (...)] shows, as data:
      [render_app] ([App.js]: the heading and [<BlogManager />]),
      [render_manager], [render_form] (heading "Create Blog" or "Update
      Blog" from [initialData._id], input values), [render_list] and
      [render_row] (key, title, author, date, Edit button when
      [!editMode], then the edit form or the content with class
      [active], its sections and Delete).
    - [FormStore]: the section objects on a heap ([Heap], a [gmap] from
      locations with a bump allocator) and a state-and-error monad [M]
      with its notation [x ←ₕ m; k]; [Module HForm] runs the form's
      handlers on it (the in-place [updatedContent[index][field] =
      value] is a [store]), [Module HList] the list editor's (a fresh
      object per edit) and the list's row dispatch [HList.list_step] over
      posts held by reference; [HForm.form_run] is the mounted form among
      allocations by the other components.
    - [Lifecycle]: the life of a post's id: every listed id was
      assigned by the server ([listed_assigned], an invariant by rule
      induction over [app_reach]); the Delete of a listed post is final;
      an edit session that is cancelled leaves no trace.
    - [SharedHeap]: the form, the list's editor and the manager's posts
      (parsed from each response into new objects, [parse_posts]) on the
      one heap of the page; [world_step] runs a form event, an Edit
      click, an edit-form event or a refresh.
    - [HeapApp]: the whole page on the heap.  [happ_exec] is [app_exec]
      with [HForm], [HList.list_step] and a manager ([Module HManager])
      whose posts and selection are objects ([HPost]) and whose
      successful GET installs the objects [parse_posts] allocates; the
      request queue and the server are those of [App].  [happ_rel]
      relates a heap state to a by-value state: everything reads back
      through the heap, and the form's objects are held by nobody else;
      [happ_run_reach] carries the invariants of [App] to the heap page.

    ** What is proved

    - Refinement: [list_step_refines]: on every event, under the list
      invariant, [list_step] is enabled iff the [ViewSpec] step is, fires
      the same callbacks and abstracts to its result; so at most one post
      is edited and its buffer is the only buffer.  [list_reach_inv]
      gives the invariant on every reachable list state.
    - Behaviour of the list: clicking the edited post's body is a no-op;
      Edit seeds the buffer; Save sends the buffer under the active id;
      Delete also toggles the row ([delete_click_drops_edit],
      [delete_click_collapses]); an edited post that leaves the
      collection leaves edit mode on with no control to leave it but a
      row click ([orphaned_edit_mode]).
    - The form: a valid submit emits exactly the entered draft and
      resets at once; "Add Section" then submit is blocked by the new
      section's required paragraph; a section edit changes one field.
    - The whole program: [selected_never_set] (the list never calls
      [onEdit], so the selection stays [null]); [submit_posts_and_resets]
      (every submission is a POST of the entered fields, the update path
      is dead, the form resets before any response);
      [form_only_by_form_events] (the form is never re-initialised from
      [initialData]); [cache_is_snapshot] (the list's collection is
      always the server's whole collection after some earlier prefix of
      the run: refreshes replace, nothing patches);
      [lost_request_no_effect] (a failed request is never retried and
      changes nothing); [delete_then_refresh], [create_then_fetch],
      [update_then_fetch] (each mutation followed by its refresh is
      always possible and shows its effect in the list);
      [refresh_after_delete] (once a deleted post is gone from the server
      and from every answered GET, every later successful refresh leaves
      it out, whatever interleaves); [stale_refresh_resurrects] (a
      concrete run where the deleted post reappears after its own refresh
      because an earlier GET answers last); [lost_refresh_after_update]
      (from any state with nothing in flight, a saved edit whose PUT
      succeeds and whose refresh is lost leaves the server updated, the
      list exactly as before and nothing in flight: stale until the user
      acts, as no failure is retried).
    - The network ([Drain]): [net_terminates] (no infinite sequence of
      services and deliveries: [Acc] through [weight]);
      [quiescence_reachable] (draining reaches an empty queue with
      network steps only); [drain_consistent] (with a reliable network,
      draining from a reachable state whose newest request is in flight
      ends with the list equal to the server's collection);
      [pending_bounded] (requests in flight
      grow by at most one per user event).
    - The view ([Render]): [rendered_keys_unique] (the rows' React keys are distinct in every
      reachable state, from the server law [wf_unique] and the fact that
      the cache only ever takes a GET's body); [at_most_one_open].
    - Object identity ([FormStore]): [form_mounted_refines] (the mounted
      form on the heap shows and submits exactly what the by-value
      [Form] does), [form_mounted_isolated] (it never writes an object
      it does not own); [form_edit_writes_post] (given a post's objects,
      a section edit writes into the post held by the manager);
      [list_edit_refines] and [list_edits_keep_post] (the list's editor
      copies on write: the by-value model is exact for any objects and
      the edited post's objects never change).
    - Composition on one heap ([SharedHeap]): [posts_show_last_response]
      (under any interleaving of the form, the list's editor and
      refreshes, the manager's posts show exactly the last response);
      [happ_refines_app] ([HeapApp]: on any server, every run of the
      whole page on the heap, read back, is the run of [app_run] on the
      same labels, and the heap page is stuck exactly when [app_run] is;
      a forward simulation through [happ_rel], one lemma per kind of
      label.  Every theorem proved of [App] therefore holds of the page
      with shared objects).
    - Lifecycle: [deleted_post_never_returns] (once the server has
      handled the DELETE of a listed post, no later refresh lists it,
      unless a GET answered before the click carries it);
      [cancel_discards_edits] (Edit, any unsaved edits, Cancel, Edit:
      no request and the buffer reseeded from the stored post);
      [switch_edit_discards_buffer] (spec property 2 as the code meets
      it: no Edit button during an edit, a body click drops the buffer);
      [form_heading_create] (the "Update Blog" heading is never shown).

    ** Bounds and fuel

    No handler needs fuel: every handler is a non-recursive function,
    the only recursion is structural on lists, and a run is a finite
    list of labels ([app_run]).  Enabledness of a step is part of its
    result ([option]), so theorems such as [create_then_fetch] state that
    the steps happen, not only what holds if they do.  The one fuelled
    definition is [drain]; its fuel [pending_weight st] (2 per refresh,
    4 per mutation in flight, one less once answered) is enough because
    every network step lowers the weight by at least one
    ([net_step_weight]), and [quiescence_reachable] proves that it
    empties the queue, not only what holds if it does.  The heap's
    locations are unbounded naturals ([nat]); the allocator never
    reuses one.

    ** Not modelled

    Of the rendering, the CSS classes other than [active], the labels
    and the locale formatting of the date ([toLocaleDateString], kept
    as the raw [createdAt]).  axios is abstracted by the [Outcome] of a
    request.  [Form] and [BlogList] model sections by value; the heap
    model of [FormStore] and [HeapApp] justifies this for the whole
    program ([happ_refines_app]).  React's render scheduling is abstracted: each event
    runs its handler to its first [await] atomically, which is what a
    single JavaScript thread does.  [SharedHeap] lets an edit-form event
    act on the active post whether or not its row is still listed, so
    it has more runs than the page, and its safety theorem covers the
    page's runs.  The lines of the sources left out of the map are
    imports, exports and closing braces.

    ** Further work planned

    Liveness under an unreliable network (a fairness assumption on
    [Outcome]s); the locale formatting of dates, which depends on the
    browser. *)

From stdpp Require Export base list strings sets list_numbers.

Declare Scope blog_scope.
Delimit Scope blog_scope with blog.

Create HintDb blog discriminated.
Create Rewrite HintDb blog_rw.

(** ** Generic list lemmas shared by the components *)

Section filter_index.
Context {A : Type}.

(** [arr.filter((_, i) => i !== index)]: keep every element whose
    position differs from [index]; [n] is the position of the head. *)
Fixpoint filter_ne_index_from (index n : nat) (l : list A) : list A :=
  match l with
  | [] => []
  | x :: l' =>
      if Nat.eqb n index then filter_ne_index_from index (S n) l'
      else x :: filter_ne_index_from index (S n) l'
  end.

Definition filter_ne_index (index : nat) (l : list A) : list A :=
  filter_ne_index_from index 0 l.

(** Past [index], the filter keeps everything. *)
Lemma filter_ne_index_from_past (l : list A) (index n : nat) :
  index < n → filter_ne_index_from index n l = l.
Proof.
  revert n. induction l as [|x l IH]; intros n Hn; [done|]. simpl.
  rewrite (proj2 (Nat.eqb_neq n index)) by lia. by rewrite IH by lia.
Qed.

Lemma filter_ne_index_from_delete (l : list A) (index n : nat) :
  n ≤ index →
  filter_ne_index_from index n l = delete (index - n) l.
Proof.
  revert n. induction l as [|x l IH]; intros n Hn; [by destruct (index - n)|].
  simpl. destruct (Nat.eqb_spec n index) as [->|Hne].
  - rewrite Nat.sub_diag. apply filter_ne_index_from_past. lia.
  - rewrite IH by lia. destruct (index - n) as [|k] eqn:E; [lia|].
    simpl. do 2 f_equal. lia.
Qed.

(** The JS filter by index is stdpp's positional [delete], out of range
    included (both leave the list unchanged there). *)
Lemma filter_ne_index_delete (l : list A) (index : nat) :
  filter_ne_index index l = delete index l.
Proof.
  unfold filter_ne_index. rewrite filter_ne_index_from_delete by lia.
  by rewrite Nat.sub_0_r.
Qed.
End filter_index.

#[export] Hint Rewrite @filter_ne_index_delete : blog_rw.

(** A boolean test that an option holds a given value; the model's
    rendering of JS [x === v] where [x] may be [null]. *)
Definition opt_eqb {A} `{EqDecision A} (o : option A) (v : A) : bool :=
  bool_decide (o = Some v).

Lemma opt_eqb_true {A} `{EqDecision A} (o : option A) v :
  opt_eqb o v = true ↔ o = Some v.
Proof. unfold opt_eqb. by rewrite bool_decide_eq_true. Qed.

(** The development's tactics. *)

(** Invert an [option] equation produced by a step function. *)
Ltac inv_some :=
  repeat match goal with
  | H : Some _ = Some _ |- _ => injection H as H; subst
  | H : None = Some _ |- _ => discriminate H
  | H : (_, _) = (_, _) |- _ => injection H as H; subst
  end.

(** ** Lists used as queues of requests: the element appended last *)

Section snoc.
Context {A : Type}.

Lemma lookup_snoc_length (l : list A) x : (l ++ [x]) !! length l = Some x.
Proof. by rewrite lookup_app_r, Nat.sub_diag by lia. Qed.

Lemma insert_snoc_length (l : list A) x y : <[length l := y]> (l ++ [x]) = l ++ [y].
Proof. by rewrite insert_app_r_alt, Nat.sub_diag by lia. Qed.

Lemma delete_snoc_length (l : list A) x : delete (length l) (l ++ [x]) = l.
Proof. induction l as [|y l IH]; simpl; [done|by rewrite IH]. Qed.
(** Overwriting an entry and then deleting it is deleting it. *)
Lemma delete_insert_same (l : list A) i x : delete i (<[i:=x]> l) = delete i l.
Proof.
  revert i. induction l as [|y l IH]; intros [|i]; simpl; try done.
  by rewrite IH.
Qed.

(** An element of a list updated at one position is the new element or
    was already there. *)
Lemma elem_of_insert_inv (l : list A) i x y : y ∈ <[i:=x]> l → y = x ∨ y ∈ l.
Proof.
  rewrite !list_elem_of_lookup. intros [j Hj].
  apply list_lookup_insert_Some in Hj as [(_ & -> & _)|(_ & Hj)]; eauto.
Qed.
End snoc.

(** Weighted sums after a positional update or delete. *)
Lemma sum_list_with_insert {A} (f : A → nat) (l : list A) i x y :
  l !! i = Some x →
  sum_list_with f (<[i:=y]> l) + f x = sum_list_with f l + f y.
Proof.
  revert i. induction l as [|z l IH]; intros [|i] Hi; simpl in *; simplify_eq; [lia|].
  specialize (IH i Hi). lia.
Qed.

Lemma sum_list_with_delete {A} (f : A → nat) (l : list A) i x :
  l !! i = Some x → sum_list_with f (delete i l) + f x = sum_list_with f l.
Proof.
  revert i. induction l as [|z l IH]; intros [|i] Hi; simpl in *; simplify_eq; [lia|].
  specialize (IH i Hi). lia.
Qed.

#[export] Hint Rewrite @lookup_snoc_length @insert_snoc_length @delete_snoc_length
  @delete_insert_same : blog_rw.
