(* ===== verification/Blog.v ===== *)
(** * Blog: the data model shared by every component

    A post as the server returns it ([Blog]: [_id], [title], [author],
    [content], [createdAt]), the draft the components send
    ([BlogData]: [{ title, author, content }]), a content section
    ([Section]: [{ heading, paragraph, imageUrl }]) and the updates the
    components write with JS object spread. *)

From S2P Require Import Prelude.

(** A content section, [{ heading: "", paragraph: "", imageUrl: "" }]. *)
Record Section := mkSection {
  heading : string;
  paragraph : string;
  imageUrl : string
}.

(** The section literal both components append on "Add Section". *)
Definition empty_section : Section := mkSection "" "" "".

(** The field names the section inputs pass to [handleContentChange]. *)
Inductive Field := FHeading | FParagraph | FImageUrl.

(** [{ ...section, [field]: value }] *)
Definition set_field (s : Section) (field : Field) (value : string) : Section :=
  match field with
  | FHeading => mkSection value (paragraph s) (imageUrl s)
  | FParagraph => mkSection (heading s) value (imageUrl s)
  | FImageUrl => mkSection (heading s) (paragraph s) value
  end.

(** The request body [{ title, author, content }]. *)
Record BlogData := mkBlogData {
  d_title : string;
  d_author : string;
  d_content : list Section
}.

(** A post of the collection, as [GET /blogs] returns it. *)
Record Blog := mkBlog {
  _id : string;
  title : string;
  author : string;
  content : list Section;
  createdAt : string
}.

#[export] Instance Section_eq_dec : EqDecision Section.
Proof. solve_decision. Defined.
#[export] Instance Field_eq_dec : EqDecision Field.
Proof. solve_decision. Defined.
#[export] Instance BlogData_eq_dec : EqDecision BlogData.
Proof. solve_decision. Defined.
#[export] Instance Blog_eq_dec : EqDecision Blog.
Proof. solve_decision. Defined.

(** The ids of a collection, in display order. *)
Definition ids (bs : list Blog) : list string := _id <$> bs.

Notation "i ∈ids bs" := (i ∈ ids bs) (at level 70) : blog_scope.
Open Scope blog_scope.

(** The fields of a post a component copies into its draft. *)
Definition blog_data (b : Blog) : BlogData :=
  mkBlogData (title b) (author b) (content b).
