(* ===== verification/BlogList.v ===== *)
(** * BlogList: the post list with its inline editor

    [component/BlogList.js].  The component's state is [activeBlogId],
    [editMode] and the single shared edit buffer [editedBlog]; its props
    are the collection [blogs] and the callbacks [onDelete], [onUpdate]
    (the [onEdit] prop the manager passes is not destructured and never
    called).  Each handler of the component is one definition below;
    [list_step] dispatches a DOM event on a rendered row, with the
    [stopPropagation] calls and the bubbling of the Delete click to the
    row's [onClick] written out, and returns the callbacks it fires as
    [ListEffect]s, in the order the code fires them.

    [ViewSpec] is the abstract machine of the spec
    ([ViewState = Idle | Expanded id | Editing id buffer]) and
    [list_step_refines] shows that the three state variables implement
    it, on every event, enabledness included. *)

From S2P Require Import Prelude Blog.

(** The component state. *)
Record ListState := mkListState {
  activeBlogId : option string;
  editMode : bool;
  editedBlog : BlogData
}.

(** [useState(null)], [useState(false)],
    [useState({ title: '', author: '', content: [] })] *)
Definition initial_list_state : ListState :=
  mkListState None false (mkBlogData "" "" []).

(** The callbacks the list fires into the manager. *)
Inductive ListEffect :=
  | OnUpdate (id : string) (data : BlogData)
  | OnDelete (id : string).

(** The [name] attribute of the two text inputs of the edit form. *)
Inductive EditName := NTitle | NAuthor.

(** [{ ...prev, [name]: value }] on the edit buffer. *)
Definition set_name (d : BlogData) (name : EditName) (value : string) : BlogData :=
  match name with
  | NTitle => mkBlogData value (d_author d) (d_content d)
  | NAuthor => mkBlogData (d_title d) value (d_content d)
  end.

Definition set_content (d : BlogData) (c : list Section) : BlogData :=
  mkBlogData (d_title d) (d_author d) c.

(** ** The handlers *)

(** [handleToggleContent]: suppressed on the post being edited, else
    toggles the expansion and leaves edit mode. *)
Definition handleToggleContent (st : ListState) (blogId : string) : ListState :=
  if opt_eqb (activeBlogId st) blogId && editMode st then st
  else mkListState
         (if opt_eqb (activeBlogId st) blogId then None else Some blogId)
         false (editedBlog st).

(** [handleEditClick]: seeds the buffer from the clicked post. *)
Definition handleEditClick (st : ListState) (blog : Blog) : ListState :=
  mkListState (Some (_id blog)) true
    (mkBlogData (title blog) (author blog) (content blog)).

(** [handleEditChange] on the input named [name]. *)
Definition handleEditChange (st : ListState) (name : EditName) (value : string)
  : ListState :=
  mkListState (activeBlogId st) (editMode st) (set_name (editedBlog st) name value).

(** [handleContentChange]: copies the array and replaces the section at
    [index] by a fresh object with [field] set.  The inputs that call it
    are rendered by [editedBlog.content.map], so [index] is in range;
    out of range the JS would grow a sparse array, which is not a value
    of this model: [None]. *)
Definition handleContentChange (st : ListState) (index : nat) (field : Field)
    (value : string) : option ListState :=
  match d_content (editedBlog st) !! index with
  | Some s =>
      Some (mkListState (activeBlogId st) (editMode st)
              (set_content (editedBlog st)
                 (<[index := set_field s field value]> (d_content (editedBlog st)))))
  | None => None
  end.

(** [handleAddContentSection] *)
Definition handleAddContentSection (st : ListState) : ListState :=
  mkListState (activeBlogId st) (editMode st)
    (set_content (editedBlog st) (d_content (editedBlog st) ++ [empty_section])).

(** [handleRemoveContentSection]: [content.filter((_, i) => i !== index)]. *)
Definition handleRemoveContentSection (st : ListState) (index : nat) : ListState :=
  mkListState (activeBlogId st) (editMode st)
    (set_content (editedBlog st) (filter_ne_index index (d_content (editedBlog st)))).

(** [handleUpdateBlog]: [onUpdate(blogId, editedBlog)], then leaves edit
    mode; the buffer is kept. *)
Definition handleUpdateBlog (st : ListState) (blogId : string)
  : ListState * list ListEffect :=
  (mkListState (activeBlogId st) false (editedBlog st),
   [OnUpdate blogId (editedBlog st)]).

(** [handleCancelEdit] *)
Definition handleCancelEdit (st : ListState) : ListState :=
  mkListState (activeBlogId st) false (editedBlog st).

(** ** Rendering and DOM events *)

(** [editMode && activeBlogId === blog._id]: the row shows the edit form
    instead of its content (and its Delete button). *)
Definition edit_form_shown (st : ListState) (b : Blog) : bool :=
  editMode st && opt_eqb (activeBlogId st) (_id b).

(** Events inside the edit form; its [div] stops propagation, so none of
    them reaches the row's [onClick]. *)
Inductive EditFormEvent :=
  | EChange (name : EditName) (value : string)
  | EContentChange (index : nat) (field : Field) (value : string)
  | EAddSection
  | ERemoveSection (index : nat)
  | ESave
  | ECancel.

(** A user event on the rendered row [row] of [blogs.map(...)]. *)
Inductive ListEvent :=
  | LClickBody (row : nat)           (* the row, outside any button *)
  | LClickEdit (row : nat)           (* Edit, shown when [!editMode] *)
  | LClickDelete (row : nat)         (* Delete, in the content branch *)
  | LEditForm (row : nat) (e : EditFormEvent).

Definition edit_form_step (st : ListState) (blogId : string) (e : EditFormEvent)
  : option (ListState * list ListEffect) :=
  match e with
  | EChange name value => Some (handleEditChange st name value, [])
  | EContentChange index field value =>
      st' ← handleContentChange st index field value; Some (st', [])
  | EAddSection => Some (handleAddContentSection st, [])
  | ERemoveSection index =>
      (* the Remove buttons are rendered per section *)
      if decide (index < length (d_content (editedBlog st)))
      then Some (handleRemoveContentSection st index, []) else None
  | ESave => Some (handleUpdateBlog st blogId)
  | ECancel => Some (handleCancelEdit st, [])
  end.

(** One event: [None] when the event's element is not rendered. *)
Definition list_step (blogs : list Blog) (st : ListState) (ev : ListEvent)
  : option (ListState * list ListEffect) :=
  match ev with
  | LClickBody row =>
      b ← blogs !! row; Some (handleToggleContent st (_id b), [])
  | LClickEdit row =>
      b ← blogs !! row;
      (* [e.stopPropagation()]: the row's toggle does not run *)
      if editMode st then None else Some (handleEditClick st b, [])
  | LClickDelete row =>
      b ← blogs !! row;
      if edit_form_shown st b then None
      (* [onDelete(blog._id)], then the click bubbles to the row *)
      else Some (handleToggleContent st (_id b), [OnDelete (_id b)])
  | LEditForm row e =>
      b ← blogs !! row;
      if edit_form_shown st b then edit_form_step st (_id b) e else None
  end.

(** ** The abstract view machine of the spec *)

Module ViewSpec.

(** At most one post is open, and at most one is edited: the buffer
    belongs to the edited post. *)
Inductive ViewState :=
  | Idle
  | Expanded (id : string)
  | Editing (id : string) (buffer : BlogData).

(** Clicking a post's body: the edited post stays open, any other
    click toggles the clicked post and drops an edit in progress. *)
Definition view_toggle (v : ViewState) (id : string) : ViewState :=
  match v with
  | Idle => Expanded id
  | Expanded j => if decide (j = id) then Idle else Expanded id
  | Editing j buf => if decide (j = id) then Editing j buf else Expanded id
  end.

Definition editing_id (v : ViewState) : option string :=
  match v with Editing j _ => Some j | _ => None end.

(** The edit form's operations on the buffer of post [j]. *)
Definition view_edit (j : string) (buf : BlogData) (e : EditFormEvent)
  : option (ViewState * list ListEffect) :=
  match e with
  | EChange name value => Some (Editing j (set_name buf name value), [])
  | EContentChange index field value =>
      s ← d_content buf !! index;
      Some (Editing j (set_content buf
              (<[index := set_field s field value]> (d_content buf))), [])
  | EAddSection =>
      Some (Editing j (set_content buf (d_content buf ++ [empty_section])), [])
  | ERemoveSection index =>
      if decide (index < length (d_content buf))
      then Some (Editing j (set_content buf (delete index (d_content buf))), [])
      else None
  | ESave => Some (Expanded j, [OnUpdate j buf])
  | ECancel => Some (Expanded j, [])
  end.

Definition view_step (blogs : list Blog) (v : ViewState) (ev : ListEvent)
  : option (ViewState * list ListEffect) :=
  match ev with
  | LClickBody row => b ← blogs !! row; Some (view_toggle v (_id b), [])
  | LClickEdit row =>
      b ← blogs !! row;
      match v with
      | Editing _ _ => None
      | _ => Some (Editing (_id b) (blog_data b), [])
      end
  | LClickDelete row =>
      b ← blogs !! row;
      if decide (editing_id v = Some (_id b)) then None
      else Some (view_toggle v (_id b), [OnDelete (_id b)])
  | LEditForm row e =>
      b ← blogs !! row;
      match v with
      | Editing j buf => if decide (j = _id b) then view_edit j buf e else None
      | _ => None
      end
  end.

End ViewSpec.

Import ViewSpec.

(** The abstraction function: [editMode] with an active id is
    [Editing]; otherwise the active id, if any, is [Expanded]; a buffer
    outside edit mode is stale and never read again. *)
Definition view_of (st : ListState) : ViewState :=
  match activeBlogId st, editMode st with
  | Some id, true => Editing id (editedBlog st)
  | Some id, false => Expanded id
  | None, _ => Idle
  end.

(** The component's invariant: edit mode always has an active post. *)
Definition list_inv (st : ListState) : Prop :=
  editMode st = true → is_Some (activeBlogId st).

(** The states the component reaches from its initial state; the
    collection may change between any two events (a re-fetch). *)
Inductive list_reach : ListState → Prop :=
  | list_reach_init : list_reach initial_list_state
  | list_reach_step blogs st ev st' effs :
      list_reach st →
      list_step blogs st ev = Some (st', effs) →
      list_reach st'.

(** ** Lemmas on the handlers *)

Lemma handleToggleContent_view st id :
  list_inv st →
  view_of (handleToggleContent st id) = view_toggle (view_of st) id.
Proof.
  unfold list_inv, handleToggleContent, view_of.
  destruct st as [[j|] [] buf]; simpl; intros Hinv;
    [|..|destruct Hinv; [done|discriminate]|];
    unfold opt_eqb; simpl; repeat case_bool_decide; simplify_eq;
    repeat case_decide; simplify_eq; done.
Qed.

Lemma edit_form_shown_view st b :
  list_inv st →
  edit_form_shown st b = bool_decide (editing_id (view_of st) = Some (_id b)).
Proof.
  unfold list_inv, edit_form_shown, view_of.
  destruct st as [[j|] [] buf]; simpl; intros Hinv;
    [|..|destruct Hinv; [done|discriminate]|];
    unfold opt_eqb; simpl; repeat case_bool_decide; naive_solver.
Qed.

Lemma edit_form_step_view j buf e :
  prod_map view_of id <$> edit_form_step (mkListState (Some j) true buf) j e
  = view_edit j buf e.
Proof.
  destruct e as [name value|index field value| |index| |]; simpl; try done.
  - unfold handleContentChange; simpl. by destruct (d_content buf !! index).
  - case_decide; [|done]. simpl. unfold handleRemoveContentSection; simpl.
    by rewrite filter_ne_index_delete.
Qed.

Lemma handleToggleContent_inv st id : list_inv (handleToggleContent st id).
Proof.
  unfold list_inv, handleToggleContent.
  destruct (opt_eqb (activeBlogId st) id) eqn:E, (editMode st) eqn:Em;
    simpl; try discriminate.
  all: intros _; apply opt_eqb_true in E; by rewrite E.
Qed.

Lemma edit_form_step_inv st j e st' effs :
  activeBlogId st = Some j →
  edit_form_step st j e = Some (st', effs) → list_inv st'.
Proof.
  intros Hj. unfold list_inv.
  destruct e as [| index field value| | index | |]; simpl; intros H.
  all: try (unfold handleContentChange in H; destruct (_ !! index); simpl in H).
  all: try case_decide; inv_some; simpl; rewrite ?Hj; done.
Qed.

(** ** Invariant *)

(** Every event preserves the invariant. *)
Lemma list_step_inv blogs st ev st' effs :
  list_inv st → list_step blogs st ev = Some (st', effs) → list_inv st'.
Proof.
  intros Hinv H.
  destruct ev as [row|row|row|row e]; simpl in H;
    destruct (blogs !! row) as [b|]; simpl in H; try discriminate.
  - inv_some. apply handleToggleContent_inv.
  - destruct (editMode st); inv_some. unfold list_inv; simpl; eauto.
  - destruct (edit_form_shown st b); inv_some. apply handleToggleContent_inv.
  - destruct (edit_form_shown st b) eqn:E; [|discriminate].
    apply andb_true_iff in E as [_ E]. apply opt_eqb_true in E.
    by eapply edit_form_step_inv.
Qed.

(** [C10] Every reachable state of the list is in edit mode only with an
    active post. *)
Theorem list_reach_inv st : list_reach st → list_inv st.
Proof.
  induction 1 as [|blogs st ev st' effs _ IH Hstep].
  - unfold list_inv; simpl; discriminate.
  - by eapply list_step_inv.
Qed.

(** ** Refinement *)

(** [C1] Under the invariant, the list's three state variables implement
    the spec's view machine: on every event, the concrete step is
    enabled exactly when the abstract one is, fires the same callbacks,
    and its result abstracts to the abstract result. *)
Theorem list_step_refines blogs st ev :
  list_inv st →
  prod_map view_of id <$> list_step blogs st ev = view_step blogs (view_of st) ev.
Proof.
  intros Hinv.
  destruct ev as [row|row|row|row e]; simpl;
    destruct (blogs !! row) as [b|]; simpl; try done.
  - by rewrite handleToggleContent_view.
  - destruct st as [[j|] [] buf]; simpl; try done.
    destruct Hinv; [done|discriminate].
  - rewrite edit_form_shown_view by done.
    case_bool_decide; case_decide; try done; simpl.
    by rewrite handleToggleContent_view.
  - rewrite edit_form_shown_view by done.
    destruct st as [[j|] [] buf]; simpl; try done.
    case_bool_decide; case_decide; simplify_eq; [|done].
    apply edit_form_step_view.
Qed.

(** ** Behaviour of the events *)

(** [C11] Clicking the body of the post being edited changes nothing and
    fires nothing: the open editor is not collapsed. *)
Theorem click_edited_body_noop blogs st row b :
  blogs !! row = Some b →
  editMode st = true → activeBlogId st = Some (_id b) →
  list_step blogs st (LClickBody row) = Some (st, []).
Proof.
  intros Hb Hm Ha. simpl. rewrite Hb; simpl. unfold handleToggleContent.
  rewrite Hm, Ha. unfold opt_eqb. by rewrite bool_decide_true.
Qed.

(** [C17] Edit is not offered while a post is edited, and entering edit on
    a post seeds the buffer from that post's fields, whatever the buffer
    held: one buffer, one edited post. *)
Theorem edit_click_spec blogs st row b st' effs :
  blogs !! row = Some b →
  list_step blogs st (LClickEdit row) = Some (st', effs) →
  editMode st = false ∧ effs = [] ∧
  view_of st' = Editing (_id b) (blog_data b).
Proof.
  intros Hb H. simpl in H. rewrite Hb in H; simpl in H.
  destruct (editMode st); inv_some; done.
Qed.

(** [C12] Clicking the Delete button of a post fires [onDelete] and also
    runs the row's toggle, because the button does not stop the click's
    propagation: while another post is edited, its edit is dropped and
    the deleted post becomes the open one. *)
Theorem delete_click_drops_edit blogs st row b :
  blogs !! row = Some b →
  editMode st = true → activeBlogId st ≠ Some (_id b) →
  list_step blogs st (LClickDelete row)
  = Some (mkListState (Some (_id b)) false (editedBlog st), [OnDelete (_id b)]).
Proof.
  intros Hb Hm Ha. simpl. rewrite Hb; simpl.
  unfold edit_form_shown, handleToggleContent, opt_eqb.
  rewrite Hm, bool_decide_false by done. done.
Qed.

(** [C19] Deleting the open post (not in edit mode) also collapses it. *)
Theorem delete_click_collapses blogs st row b :
  blogs !! row = Some b →
  editMode st = false → activeBlogId st = Some (_id b) →
  list_step blogs st (LClickDelete row)
  = Some (mkListState None false (editedBlog st), [OnDelete (_id b)]).
Proof.
  intros Hb Hm Ha. simpl. rewrite Hb; simpl.
  unfold edit_form_shown, handleToggleContent, opt_eqb.
  rewrite Hm, Ha, bool_decide_true by done. done.
Qed.

(** [C18] Save sends the whole buffer under the active post's id, leaves
    edit mode and keeps the post open. *)
Theorem save_spec blogs st row st' effs :
  list_step blogs st (LEditForm row ESave) = Some (st', effs) →
  ∃ j, activeBlogId st = Some j ∧ effs = [OnUpdate j (editedBlog st)] ∧
       st' = mkListState (Some j) false (editedBlog st).
Proof.
  simpl. destruct (blogs !! row) as [b|]; simpl; [|discriminate].
  unfold edit_form_shown. destruct (editMode st && _) eqn:E; [|discriminate].
  apply andb_true_iff in E as [_ E]. apply opt_eqb_true in E.
  intros H; inv_some. eexists; split; [done|]. by rewrite E.
Qed.

(** [C20] When the edited post leaves the collection (a re-fetch after a
    delete that was already in flight), edit mode stays on but no row
    shows the edit form or an Edit button: no edit-form event and no
    Edit click is possible until a row's body is clicked. *)
Theorem orphaned_edit_mode blogs st j :
  editMode st = true → activeBlogId st = Some j → j ∉ ids blogs →
  ∀ row, list_step blogs st (LClickEdit row) = None ∧
         ∀ e, list_step blogs st (LEditForm row e) = None.
Proof.
  intros Hm Ha Hj row. simpl. rewrite Hm.
  destruct (blogs !! row) as [b|] eqn:Hb; simpl; [|done].
  split; [done|]. intros e. unfold edit_form_shown, opt_eqb.
  rewrite Hm, Ha, bool_decide_false; [done|].
  intros [= Heq]. apply Hj. rewrite Heq. unfold ids.
  apply list_elem_of_fmap_2. by eapply list_elem_of_lookup_2.
Qed.

(** [C21] "Remove Section" on the edited post removes exactly the chosen
    section of the buffer: the sections before it keep their positions,
    the ones after it move up by one, and nothing else changes. *)
Theorem remove_section_spec blogs st row index st' effs :
  list_step blogs st (LEditForm row (ERemoveSection index)) = Some (st', effs) →
  effs = [] ∧ activeBlogId st' = activeBlogId st ∧ editMode st' = editMode st ∧
  d_title (editedBlog st') = d_title (editedBlog st) ∧
  d_author (editedBlog st') = d_author (editedBlog st) ∧
  length (d_content (editedBlog st')) = length (d_content (editedBlog st)) - 1 ∧
  (∀ j, j < index → d_content (editedBlog st') !! j = d_content (editedBlog st) !! j) ∧
  (∀ j, index ≤ j → d_content (editedBlog st') !! j = d_content (editedBlog st) !! S j).
Proof.
  simpl. destruct (blogs !! row) as [b|]; simpl; [|discriminate].
  destruct (edit_form_shown st b); [|discriminate]. simpl.
  case_decide as Hi; [|discriminate]. intros H; inv_some. simpl.
  rewrite filter_ne_index_delete. split_and!; try done.
  - apply length_delete. by apply lookup_lt_is_Some_2.
  - intros j Hj. by apply list_lookup_delete_lt.
  - intros j Hj. by apply list_lookup_delete_ge.
Qed.

(** ** Witnesses on a concrete collection *)

Definition blog_a1 : Blog :=
  mkBlog "a1" "First" "Asha" [mkSection "Intro" "Hello" ""] "2024-01-01".
Definition blog_b2 : Blog := mkBlog "b2" "Second" "Ravi" [] "2024-01-02".
Definition sample_blogs : list Blog := [blog_a1; blog_b2].

(** The list after clicking Edit on the first row. *)
Definition editing_a1 : ListState :=
  mkListState (Some "a1") true (mkBlogData "First" "Asha" [mkSection "Intro" "Hello" ""]).

Lemma list_step_refines_witness :
  list_inv editing_a1 ∧
  prod_map view_of id <$> list_step sample_blogs editing_a1 (LEditForm 0 ESave)
  = view_step sample_blogs (view_of editing_a1) (LEditForm 0 ESave).
Proof.
  assert (H : list_inv editing_a1) by (unfold list_inv; simpl; eauto).
  split; [exact H | apply (list_step_refines sample_blogs editing_a1 _ H)].
Defined.

Lemma list_reach_inv_witness : list_inv editing_a1.
Proof.
  apply list_reach_inv.
  eapply (list_reach_step sample_blogs initial_list_state (LClickEdit 0));
    [constructor | reflexivity].
Defined.

Lemma click_edited_body_noop_witness :
  list_step sample_blogs editing_a1 (LClickBody 0) = Some (editing_a1, []).
Proof. by apply (click_edited_body_noop sample_blogs editing_a1 0 (blog_a1)). Defined.

Lemma edit_click_spec_witness :
  editMode initial_list_state = false ∧ ([] : list ListEffect) = [] ∧
  view_of editing_a1 = Editing "a1" (blog_data (blog_a1)).
Proof.
  apply (edit_click_spec sample_blogs initial_list_state 0 (blog_a1)
           editing_a1 []); reflexivity.
Defined.

Lemma delete_click_drops_edit_witness :
  list_step sample_blogs editing_a1 (LClickDelete 1)
  = Some (mkListState (Some "b2") false (editedBlog editing_a1), [OnDelete "b2"]).
Proof.
  apply (delete_click_drops_edit sample_blogs editing_a1 1 (blog_b2));
    [reflexivity | reflexivity | discriminate].
Defined.

Lemma delete_click_collapses_witness :
  list_step sample_blogs (mkListState (Some "b2") false (editedBlog editing_a1))
    (LClickDelete 1)
  = Some (mkListState None false (editedBlog editing_a1), [OnDelete "b2"]).
Proof.
  by apply (delete_click_collapses sample_blogs
             (mkListState (Some "b2") false (editedBlog editing_a1)) 1 blog_b2).
Defined.

Lemma save_spec_witness :
  ∃ j, activeBlogId editing_a1 = Some j ∧
       [OnUpdate "a1" (editedBlog editing_a1)] = [OnUpdate j (editedBlog editing_a1)] ∧
       mkListState (Some "a1") false (editedBlog editing_a1)
       = mkListState (Some j) false (editedBlog editing_a1).
Proof. apply (save_spec sample_blogs editing_a1 0). reflexivity. Defined.

Lemma orphaned_edit_mode_witness :
  list_step [blog_b2] editing_a1 (LClickEdit 0) = None ∧
  ∀ e, list_step [blog_b2] editing_a1 (LEditForm 0 e) = None.
Proof.
  apply (orphaned_edit_mode [blog_b2] editing_a1 "a1");
    [reflexivity | reflexivity | vm_compute; set_solver].
Defined.

Definition editing_two : ListState :=
  mkListState (Some "a1") true
    (mkBlogData "First" "Asha" [mkSection "A" "p1" ""; mkSection "B" "p2" "";
                                mkSection "C" "p3" ""]).

Lemma remove_section_spec_witness :
  list_step sample_blogs editing_two (LEditForm 0 (ERemoveSection 1))
  = Some (mkListState (Some "a1") true
            (mkBlogData "First" "Asha" [mkSection "A" "p1" ""; mkSection "C" "p3" ""]), []) ∧
  length [mkSection "A" "p1" ""; mkSection "C" "p3" ""]
  = length (d_content (editedBlog editing_two)) - 1.
Proof.
  split; [reflexivity|].
  destruct (remove_section_spec sample_blogs editing_two 0 1
              (mkListState (Some "a1") true
                 (mkBlogData "First" "Asha" [mkSection "A" "p1" ""; mkSection "C" "p3" ""]))
              []) as (_ & _ & _ & _ & _ & Hlen & _); [reflexivity|exact Hlen].
Defined.

(** [C38] Spec property 2 as the code meets it.  While post [A] is
    edited no Edit button is rendered, so the only way to edit another
    post [B] is to click [B]'s body first: that click leaves edit mode
    on [A] and opens [B], then [B]'s Edit seeds the buffer from [B].
    [A]'s unsaved buffer is discarded and no callback fires. *)
Theorem switch_edit_discards_buffer bs st rb b ida :
  bs !! rb = Some b → activeBlogId st = Some ida → ida ≠ _id b → editMode st = true →
  list_step bs st (LClickEdit rb) = None ∧
  ∃ st1, list_step bs st (LClickBody rb) = Some (st1, []) ∧
         list_step bs st1 (LClickEdit rb) =
           Some (mkListState (Some (_id b)) true (blog_data b), []).
Proof.
  intros Hb Ha Hne Hm. simpl. rewrite Hb. simpl. rewrite Hm. split; [done|].
  eexists. split; [reflexivity|]. simpl.
  unfold handleToggleContent. rewrite Ha.
  assert (opt_eqb (Some ida) (_id b) = false) as ->.
  { apply not_true_iff_false. rewrite opt_eqb_true. congruence. }
  done.
Qed.

Lemma switch_edit_discards_buffer_witness :
  list_step sample_blogs editing_a1 (LClickEdit 1) = None ∧
  ∃ st1, list_step sample_blogs editing_a1 (LClickBody 1) = Some (st1, []) ∧
         list_step sample_blogs st1 (LClickEdit 1) =
           Some (mkListState (Some "b2") true (blog_data blog_b2), []).
Proof.
  apply (switch_edit_discards_buffer sample_blogs editing_a1 1 blog_b2 "a1");
    [reflexivity|reflexivity|discriminate|reflexivity].
Defined.
