(* ===== verification/BlogForm.v ===== *)
(** * BlogForm: the creation form

    [component/BlogForm.js], in [Module Form].  Its state is the three
    [useState] variables [title], [author], [content], initialised once
    from the [initialData] prop at mount ([selectedBlog || {}] in the
    manager; [None] stands for [{}]).  The handlers are
    [handleAddContent], [handleContentChange], the two inline [onChange]
    setters and [handleSubmit].  [form_step] dispatches a user event:
    a submit first goes through the browser's constraint validation of
    the inputs marked [required] (title, author, and the paragraph of
    every rendered section), and when it passes emits the draft to
    [onSubmit] and resets the fields synchronously. *)

From S2P Require Import Prelude Blog.

Module Form.

Record FormState := mkFormState {
  title : string;
  author : string;
  content : list Section
}.

(** [useState(initialData.title || "")], ... *)
Definition init (initialData : option Blog) : FormState :=
  match initialData with
  | Some b => mkFormState (Blog.title b) (Blog.author b) (Blog.content b)
  | None => mkFormState "" "" []
  end.

(** [handleAddContent] *)
Definition handleAddContent (st : FormState) : FormState :=
  mkFormState (title st) (author st) (content st ++ [empty_section]).

(** [handleContentChange]: [updatedContent[index][field] = value] on a
    shallow copy of the array.  Out of range, [updatedContent[index]]
    is [undefined] and the assignment throws a [TypeError]: [None].
    The section object is mutated in place; in create mode every
    section is a fresh object of [handleAddContent], so the mutation
    is observed only through this form's state. *)
Definition handleContentChange (st : FormState) (index : nat) (field : Field)
    (value : string) : option FormState :=
  match content st !! index with
  | Some s =>
      Some (mkFormState (title st) (author st)
              (<[index := set_field s field value]> (content st)))
  | None => None
  end.

(** The inline [onChange] handlers of the title and author inputs. *)
Definition setTitle (st : FormState) (v : string) : FormState :=
  mkFormState v (author st) (content st).
Definition setAuthor (st : FormState) (v : string) : FormState :=
  mkFormState (title st) v (content st).

(** [handleSubmit]: [onSubmit({ title, author, content })], then the
    three setters reset the fields. *)
Definition handleSubmit (st : FormState) : FormState * BlogData :=
  (mkFormState "" "" [], mkBlogData (title st) (author st) (content st)).

(** The browser's constraint validation: a [required] input or
    textarea is missing its value when the value is the empty string. *)
Definition nonempty (s : string) : bool := negb (String.eqb s "").

Definition form_valid (st : FormState) : bool :=
  nonempty (title st) && nonempty (author st) &&
  forallb (λ s, nonempty (paragraph s)) (content st).

Inductive FormEvent :=
  | FTitle (value : string)
  | FAuthor (value : string)
  | FContentChange (index : nat) (field : Field) (value : string)
  | FAddSection
  | FSubmit.

(** One user event.  [None]: the event's input is not rendered (a
    section index out of range); a blocked submit changes nothing and
    emits nothing. *)
Definition form_step (st : FormState) (ev : FormEvent)
  : option (FormState * option BlogData) :=
  match ev with
  | FTitle v => Some (setTitle st v, None)
  | FAuthor v => Some (setAuthor st v, None)
  | FContentChange index field value =>
      st' ← handleContentChange st index field value; Some (st', None)
  | FAddSection => Some (handleAddContent st, None)
  | FSubmit =>
      if form_valid st
      then let '(st', data) := handleSubmit st in Some (st', Some data)
      else Some (st, None)
  end.

(** ** Lemmas *)

Lemma nonempty_true s : nonempty s = true ↔ s ≠ "".
Proof.
  unfold nonempty. rewrite negb_true_iff.
  destruct (String.eqb_spec s ""); naive_solver.
Qed.

Lemma form_valid_spec st :
  form_valid st = true ↔
  title st ≠ "" ∧ author st ≠ "" ∧ Forall (λ s, paragraph s ≠ "") (content st).
Proof.
  unfold form_valid. rewrite !andb_true_iff, forallb_forall, !nonempty_true.
  rewrite Forall_forall. setoid_rewrite nonempty_true.
  setoid_rewrite list_elem_of_In. naive_solver.
Qed.

(** ** Properties *)

(** [C16] A submit that passes validation emits exactly the entered
    title, author and sections, in order, and leaves the form empty
    at once: the reset does not wait for, or depend on, the request. *)
Theorem submit_emits_and_resets st :
  form_valid st = true →
  form_step st FSubmit
  = Some (init None, Some (mkBlogData (title st) (author st) (content st))).
Proof. intros H. simpl. by rewrite H. Qed.

(** [C13] "Add Section" followed by submit never sends the new empty
    section: its paragraph is [required], so the browser blocks the
    submission and nothing changes. *)
Theorem add_section_blocks_submit st :
  form_step (handleAddContent st) FSubmit = Some (handleAddContent st, None).
Proof.
  simpl. destruct (form_valid (handleAddContent st)) eqn:E; [|done].
  apply form_valid_spec in E as (_ & _ & E). simpl in E.
  apply Forall_app in E as [_ E]. by inversion E.
Qed.

(** [C22] A section edit changes exactly the chosen field of the chosen
    section: the number of sections, the other sections and the
    section's other fields are unchanged. *)
Theorem content_change_spec st index field value st' :
  form_step st (FContentChange index field value) = Some (st', None) →
  length (content st') = length (content st) ∧
  (∃ s, content st !! index = Some s ∧
        content st' !! index = Some (set_field s field value)) ∧
  (∀ j, j ≠ index → content st' !! j = content st !! j) ∧
  title st' = title st ∧ author st' = author st.
Proof.
  simpl. unfold handleContentChange.
  destruct (content st !! index) as [s|] eqn:Hs; simpl; [|discriminate].
  intros H; inv_some; simpl. split_and!.
  - apply length_insert.
  - exists s. split; [done|]. apply list_lookup_insert_eq.
    by eapply lookup_lt_Some.
  - intros j Hj. by apply list_lookup_insert_ne.
  - done.
  - done.
Qed.

End Form.

(** ** Witnesses *)

Definition filled_form : Form.FormState :=
  Form.mkFormState "Dholera" "Asha" [mkSection "Roads" "New ring road" ""].

Lemma submit_emits_and_resets_witness :
  Form.form_step filled_form Form.FSubmit
  = Some (Form.init None,
          Some (mkBlogData "Dholera" "Asha" [mkSection "Roads" "New ring road" ""])).
Proof. apply (Form.submit_emits_and_resets filled_form). reflexivity. Defined.

Lemma content_change_spec_witness :
  length (Form.content (Form.mkFormState "Dholera" "Asha" [mkSection "Roads" "Metro" ""]))
    = length (Form.content filled_form) ∧
  (∃ s, Form.content filled_form !! 0 = Some s ∧
        [mkSection "Roads" "Metro" ""] !! 0 = Some (set_field s FParagraph "Metro")) ∧
  (∀ j, j ≠ 0 → [mkSection "Roads" "Metro" ""] !! j = Form.content filled_form !! j) ∧
  "Dholera" = Form.title filled_form ∧ "Asha" = Form.author filled_form.
Proof.
  apply (Form.content_change_spec filled_form 0 FParagraph "Metro"
           (Form.mkFormState "Dholera" "Asha" [mkSection "Roads" "Metro" ""])).
  reflexivity.
Defined.
