(* ===== verification/Server.v ===== *)
(** * Server: the external HTTP API the manager talks to

    The server is not code of this repository: the spec (section 6)
    names its four endpoints, [GET /blogs], [POST /blogs],
    [PUT /blogs/{id}] and [DELETE /blogs/{id}].  [Backend] is the
    interface the client relies on, [BackendLaws] what it assumes of the
    endpoints (server-assigned ids never reused, full-document replace,
    delete by id), and [MemServer] an in-memory instance that discharges
    the laws, so the client's theorems are not vacuous.  [serve] is one
    request handled by a backend, as the axios calls of
    [component/BlogManager.js] issue them. *)

From stdpp Require Import pretty list_numbers.
From S2P Require Import Prelude Blog.

(** The requests [BlogManager.js] sends. *)
Inductive Request :=
  | RGet                                  (* axios.get(".../blogs") *)
  | RPost (data : BlogData)               (* axios.post(".../blogs", data) *)
  | RPut (id : string) (data : BlogData)  (* axios.put(".../blogs/" + id, data) *)
  | RDelete (id : string).                (* axios.delete(".../blogs/" + id) *)

Class Backend (S : Type) := {
  get_blogs : S → list Blog;
  post_blog : BlogData → S → S;
  put_blog : string → BlogData → S → S;
  delete_blog : string → S → S;
  used_ids : S → list string;   (* every id the server ever assigned *)
  server_wf : S → Prop
}.

Section laws.
Context {S : Type} `{Backend S}.

Class BackendLaws := {
  wf_post d s : server_wf s → server_wf (post_blog d s);
  wf_put i d s : server_wf s → server_wf (put_blog i d s);
  wf_delete i s : server_wf s → server_wf (delete_blog i s);
  wf_used s i : server_wf s → i ∈ ids (get_blogs s) → i ∈ used_ids s;
  (** Ids identify posts: [GET /blogs] never lists an id twice. *)
  wf_unique s : server_wf s → NoDup (ids (get_blogs s));
  used_post d s i : i ∈ used_ids s → i ∈ used_ids (post_blog d s);
  used_put j d s i : i ∈ used_ids s → i ∈ used_ids (put_blog j d s);
  used_delete j s i : i ∈ used_ids s → i ∈ used_ids (delete_blog j s);
  (** POST stores the document under a fresh id. *)
  post_spec d s : server_wf s → ∃ b,
    blog_data b = d ∧ (_id b ∉ used_ids s) ∧
    ∀ x, x ∈ get_blogs (post_blog d s) ↔ (x = b ∨ x ∈ get_blogs s);
  (** PUT replaces the fields of the post with that id, and only those. *)
  put_spec i d s x : x ∈ get_blogs (put_blog i d s) →
    ∃ y, y ∈ get_blogs s ∧ _id x = _id y ∧
         (if decide (_id y = i) then blog_data x = d else x = y);
  put_keeps i d s y : y ∈ get_blogs s →
    ∃ x, x ∈ get_blogs (put_blog i d s) ∧ _id x = _id y ∧
         (if decide (_id y = i) then blog_data x = d else x = y);
  (** DELETE removes the posts with that id, and only those. *)
  delete_spec i s x :
    x ∈ get_blogs (delete_blog i s) ↔ x ∈ get_blogs s ∧ _id x ≠ i
}.
End laws.
Arguments BackendLaws S {_}.

(** One request served: the new server state and the response body
    (the collection for [GET]; the client ignores the other bodies). *)
Definition serve {S} `{Backend S} (req : Request) (s : S) : S * list Blog :=
  match req with
  | RGet => (s, get_blogs s)
  | RPost d => (post_blog d s, [])
  | RPut i d => (put_blog i d s, [])
  | RDelete i => (delete_blog i s, [])
  end.

(** ** A reference backend *)

Module MemServer.

Record State := mkState { store : list Blog; next : nat }.

(** Ids and timestamps are issued from a counter. *)
Definition fresh (n : nat) : string := pretty n.

Definition post (d : BlogData) (s : State) : State :=
  mkState (store s ++ [mkBlog (fresh (next s)) (d_title d) (d_author d)
                         (d_content d) (fresh (next s))])
          (S (next s)).

Definition replace (i : string) (d : BlogData) (b : Blog) : Blog :=
  if decide (_id b = i)
  then mkBlog (_id b) (d_title d) (d_author d) (d_content d) (createdAt b)
  else b.

Definition put (i : string) (d : BlogData) (s : State) : State :=
  mkState (replace i d <$> store s) (next s).

Definition del (i : string) (s : State) : State :=
  mkState (filter (λ b, _id b ≠ i) (store s)) (next s).

Definition used (s : State) : list string := fresh <$> seq 0 (next s).

Definition wf (s : State) : Prop :=
  (∀ i, i ∈ ids (store s) → i ∈ used s) ∧ NoDup (ids (store s)).

#[global] Instance backend : Backend State := {
  get_blogs := store;
  post_blog := post;
  put_blog := put;
  delete_blog := del;
  used_ids := used;
  server_wf := wf
}.

Definition empty : State := mkState [] 0.

Lemma fresh_not_used s : fresh (next s) ∉ used s.
Proof.
  unfold used, fresh. intros (n & Hn & Hin)%list_elem_of_fmap.
  apply (inj pretty) in Hn. apply elem_of_seq in Hin. lia.
Qed.

Lemma used_post_eq d s : used (post d s) = used s ++ [fresh (next s)].
Proof. unfold used, post. cbn [next]. by rewrite seq_S, fmap_app. Qed.

Lemma ids_replace i d s : ids (replace i d <$> store s) = ids (store s).
Proof.
  unfold ids. rewrite <-list_fmap_compose. apply list_fmap_ext.
  intros ? b _. unfold replace. simpl. by case_decide.
Qed.

Lemma ids_filter (P : Blog → Prop) `{∀ b, Decision (P b)} l :
  NoDup (ids l) → NoDup (ids (filter P l)).
Proof.
  unfold ids. induction l as [|b l IH]; simpl; [done|].
  intros [Hb Hl]%NoDup_cons. rewrite filter_cons. case_decide; simpl; [|auto].
  constructor; [|auto]. intros Hin. apply Hb.
  apply list_elem_of_fmap in Hin as (x & -> & Hx).
  apply list_elem_of_filter in Hx as [_ Hx]. by apply list_elem_of_fmap_2.
Qed.

#[global] Instance laws : BackendLaws State.
Proof.
  split; simpl.
  - intros d s [Hwf Hnd]. split.
    + intros i. rewrite used_post_eq. unfold ids; simpl.
      rewrite fmap_app, !elem_of_app. intros [Hi|Hi]; [left; by apply Hwf|right].
      simpl in Hi. by rewrite list_elem_of_singleton in Hi |- *.
    + unfold ids, post; simpl. rewrite fmap_app. apply NoDup_app. split_and!; [done| |].
      * intros i Hi ->%list_elem_of_singleton. apply (fresh_not_used s). by apply Hwf.
      * apply NoDup_singleton.
  - intros j d s [Hwf Hnd]. unfold put, wf; simpl. rewrite ids_replace. done.
  - intros j s [Hwf Hnd]. split; [|by apply ids_filter].
    intros i Hi. apply Hwf. unfold ids in *; simpl in Hi.
    apply list_elem_of_fmap in Hi as (b & -> & Hb).
    apply list_elem_of_filter in Hb as [_ Hb]. by apply list_elem_of_fmap_2.
  - intros s i Hwf. apply Hwf.
  - intros s [_ Hnd]. done.
  - intros d s i Hi. rewrite used_post_eq, elem_of_app. by left.
  - done.
  - done.
  - intros d s Hwf.
    exists (mkBlog (fresh (next s)) (d_title d) (d_author d) (d_content d)
              (fresh (next s))).
    split_and!; [by destruct d|apply fresh_not_used|].
    intros x. unfold post; simpl. rewrite elem_of_app, list_elem_of_singleton.
    naive_solver.
  - intros i d s x. unfold put; simpl. rewrite list_elem_of_fmap.
    intros (y & -> & Hy). exists y. unfold replace.
    case_decide; [|done]. by destruct d.
  - intros i d s y Hy. exists (replace i d y). unfold put; simpl.
    split; [by apply list_elem_of_fmap_2|]. unfold replace.
    case_decide; [|done]. by destruct d.
  - intros i s x. unfold del; simpl. rewrite list_elem_of_filter. naive_solver.
Qed.

End MemServer.
