(* ===== verification/BlogManager.v ===== *)
(** * BlogManager: the owner of the collection and of every request

    [component/BlogManager.js].  Its state is [blogs] and
    [selectedBlog].  Each [async] handler is split at its [await]: the
    part before it returns the requests it issues ([Call]: the request
    and the handler that awaits it), [resume] is the rest of the handler
    once the response (or the error caught by its [try]) arrives.
    [fetchBlogs] is called without [await], so the request it issues is
    one more independent call.  The definitions live in [Module Manager]
    (the list has its own [handleUpdateBlog]). *)

From S2P Require Import Prelude Blog BlogList Server.

Module Manager.

Record ManagerState := mkManagerState {
  blogs : list Blog;
  selectedBlog : option Blog
}.

(** [useState([])], [useState(null)] *)
Definition initial_manager : ManagerState := mkManagerState [] None.

(** The handler suspended on a request. *)
Inductive Cont :=
  | KFetch    (* fetchBlogs *)
  | KSave     (* handleCreateOrUpdateBlog *)
  | KUpdate   (* handleUpdateBlog *)
  | KDelete.  (* handleDeleteBlog *)

Record Call := mkCall { c_req : Request; c_cont : Cont }.

(** What the [await] yields: the response body, or the error the
    handler's [catch] logs (network failure, non-2xx status). *)
Inductive Response :=
  | ROk (body : list Blog)
  | RFail.

(** [fetchBlogs], up to its [await]. *)
Definition fetchBlogs : list Call := [mkCall RGet KFetch].

(** [handleCreateOrUpdateBlog(blogData)], up to its [await]: PUT under
    the selected post's id when there is one, POST otherwise. *)
Definition handleCreateOrUpdateBlog (m : ManagerState) (blogData : BlogData)
  : list Call :=
  match selectedBlog m with
  | Some b => [mkCall (RPut (_id b) blogData) KSave]
  | None => [mkCall (RPost blogData) KSave]
  end.

(** [handleUpdateBlog(id, updatedBlog)], up to its [await]. *)
Definition handleUpdateBlog (id : string) (updatedBlog : BlogData) : list Call :=
  [mkCall (RPut id updatedBlog) KUpdate].

(** [handleDeleteBlog(id)], up to its [await]. *)
Definition handleDeleteBlog (id : string) : list Call :=
  [mkCall (RDelete id) KDelete].

(** [handleEditBlog(blog)]: passed to the list as [onEdit]. *)
Definition handleEditBlog (m : ManagerState) (blog : Blog) : ManagerState :=
  mkManagerState (blogs m) (Some blog).

(** The rest of each handler after its [await]. *)
Definition resume (m : ManagerState) (k : Cont) (r : Response)
  : ManagerState * list Call :=
  match k, r with
  | KFetch, ROk data => (mkManagerState data (selectedBlog m), [])
  | KSave, ROk _ =>
      (* fetchBlogs(); setSelectedBlog(null) *)
      (mkManagerState (blogs m) None, fetchBlogs)
  | KUpdate, ROk _ => (m, fetchBlogs)
  | KDelete, ROk _ => (m, fetchBlogs)
  | _, RFail => (m, [])   (* console.error, nothing else *)
  end.

(** The list's callbacks: [onUpdate={handleUpdateBlog}],
    [onDelete={handleDeleteBlog}], in the order the list fires them. *)
Definition list_callback (eff : ListEffect) : list Call :=
  match eff with
  | OnUpdate id data => handleUpdateBlog id data
  | OnDelete id => handleDeleteBlog id
  end.

Definition list_callbacks (effs : list ListEffect) : list Call :=
  effs ≫= list_callback.

(** ** Properties of the handlers *)

(** The only write to the collection is a successful GET's body, which
    replaces it whole. *)
Lemma resume_blogs m k r :
  blogs (resume m k r).1 = blogs m ∨
  (k = KFetch ∧ ∃ data, r = ROk data ∧ blogs (resume m k r).1 = data).
Proof. destruct k, r; simpl; eauto. Qed.

(** The only write to the selection clears it. *)
Lemma resume_selected m k r :
  selectedBlog (resume m k r).1 = selectedBlog m ∨
  selectedBlog (resume m k r).1 = None.
Proof. destruct k, r; simpl; auto. Qed.

(** Every request a successful mutation resumes with is one GET. *)
Lemma resume_calls m k r :
  (resume m k r).2 = [] ∨ (resume m k r).2 = fetchBlogs.
Proof. destruct k, r; simpl; auto. Qed.

(** The list's callbacks only PUT and DELETE, each awaited by its own
    handler. *)
Lemma list_callbacks_spec effs c :
  c ∈ list_callbacks effs →
  (∃ id d, c = mkCall (RPut id d) KUpdate) ∨ (∃ id, c = mkCall (RDelete id) KDelete).
Proof.
  unfold list_callbacks. rewrite list_elem_of_bind.
  intros ([id d|id] & Hc & _); simpl in Hc;
    apply list_elem_of_singleton in Hc; eauto.
Qed.

End Manager.
