(* ===== verification/App.v ===== *)
(** * App: the whole program as an interleaving of events

    [App.js] mounts one [BlogManager], which renders one [BlogForm]
    ([onSubmit={handleCreateOrUpdateBlog}],
    [initialData={selectedBlog || {}}]) and one [BlogList]
    ([blogs={blogs}], [onDelete={handleDeleteBlog}],
    [onUpdate={handleUpdateBlog}], [onEdit={handleEditBlog}]).
    [AppState] holds the three components' states, the requests in
    flight and the server.  [app_exec] runs one labelled event:

    - [UForm], [UList]: a user event on the form or the list, with the
      requests the callbacks it fires issue;
    - [Serve i o]: the server handles request [i]; with [Lost] the
      request fails before reaching it, with [Dropped] it is handled but
      the client sees an error;
    - [Deliver i]: the response of request [i] resumes its handler.

    Responses are delivered in any order: the order of completion, not
    of calls.  [app_reach] is the set of reachable states from the mount
    ([useEffect] issues the first [fetchBlogs]). *)

From S2P Require Import Prelude Blog BlogList BlogForm Server BlogManager.
Import Manager.

(** A request in flight, and its response once the server answered. *)
Record Pending := mkPending { p_call : Call; p_resp : option Response }.

Record AppState (S : Type) := mkApp {
  mgr : ManagerState;
  form : Form.FormState;
  lst : ListState;
  pending : list Pending;
  server : S
}.
Arguments mkApp {S}.
Arguments mgr {S}.
Arguments form {S}.
Arguments lst {S}.
Arguments pending {S}.
Arguments server {S}.

Inductive Outcome := Delivered | Lost | Dropped.

Inductive Label :=
  | UForm (ev : Form.FormEvent)
  | UList (ev : ListEvent)
  | Serve (i : nat) (o : Outcome)
  | Deliver (i : nat).

Definition issue (calls : list Call) : list Pending :=
  (λ c, mkPending c None) <$> calls.

Section App.
Context {S : Type} `{Backend S}.

(** The mount: first render, then [useEffect(() => fetchBlogs(), [])]. *)
Definition app_init (s0 : S) : AppState S :=
  mkApp initial_manager (Form.init (selectedBlog initial_manager))
    initial_list_state (issue fetchBlogs) s0.

(** The form's submission runs [onSubmit], i.e. the manager's
    [handleCreateOrUpdateBlog], with the manager's current state. *)
Definition form_callback (m : ManagerState) (od : option BlogData) : list Call :=
  match od with
  | Some d => handleCreateOrUpdateBlog m d
  | None => []
  end.

Definition serve_outcome (o : Outcome) (s : S) (req : Request)
  : S * Response :=
  let '(s', body) := serve req s in
  match o with
  | Delivered => (s', ROk body)
  | Lost => (s, RFail)
  | Dropped => (s', RFail)
  end.

Definition app_exec (st : AppState S) (l : Label) : option (AppState S) :=
  match l with
  | UForm ev =>
      '(f', od) ← Form.form_step (form st) ev;
      Some (mkApp (mgr st) f' (lst st)
              (pending st ++ issue (form_callback (mgr st) od)) (server st))
  | UList ev =>
      '(l', effs) ← list_step (blogs (mgr st)) (lst st) ev;
      Some (mkApp (mgr st) (form st) l'
              (pending st ++ issue (list_callbacks effs)) (server st))
  | Serve i o =>
      p ← pending st !! i;
      match p_resp p with
      | Some _ => None
      | None =>
          let '(s', r) := serve_outcome o (server st) (c_req (p_call p)) in
          Some (mkApp (mgr st) (form st) (lst st)
                  (<[i := mkPending (p_call p) (Some r)]> (pending st)) s')
      end
  | Deliver i =>
      p ← pending st !! i;
      r ← p_resp p;
      let '(m', calls) := resume (mgr st) (c_cont (p_call p)) r in
      Some (mkApp m' (form st) (lst st)
              (delete i (pending st) ++ issue calls) (server st))
  end.

Fixpoint app_run (st : AppState S) (ls : list Label) : option (AppState S) :=
  match ls with
  | [] => Some st
  | l :: ls' => st' ← app_exec st l; app_run st' ls'
  end.

Inductive app_reach : AppState S → Prop :=
  | reach_init s0 : server_wf s0 → app_reach (app_init s0)
  | reach_step st l st' :
      app_reach st → app_exec st l = Some st' → app_reach st'.

(** ** Invariants of the requests in flight *)

(** A request awaited by [fetchBlogs] is a GET. *)
Definition fetch_paired (p : Pending) : Prop :=
  c_cont (p_call p) = KFetch → c_req (p_call p) = RGet.

(** An answered GET's body satisfies [P]. *)
Definition answer_sat (P : list Blog → Prop) (p : Pending) : Prop :=
  ∀ body, p_resp p = Some (ROk body) → c_req (p_call p) = RGet → P body.

(** An answered GET's body does not contain the id [i]. *)
Definition answer_excludes (i : string) : Pending → Prop :=
  answer_sat (λ body, i ∉ ids body).

Lemma issue_Forall (P : Pending → Prop) calls :
  (∀ c, c ∈ calls → P (mkPending c None)) → Forall P (issue calls).
Proof.
  intros HP. unfold issue. apply Forall_fmap, Forall_forall. intros c Hc. by apply HP.
Qed.

Lemma issue_sat P calls : Forall (answer_sat P) (issue calls).
Proof. apply issue_Forall. by intros c _ body. Qed.

Lemma issue_excludes i calls : Forall (answer_excludes i) (issue calls).
Proof. apply issue_sat. Qed.

Lemma fetchBlogs_paired : Forall fetch_paired (issue fetchBlogs).
Proof. apply issue_Forall. intros c ->%list_elem_of_singleton. by intros _. Qed.

Lemma form_callback_paired m od : Forall fetch_paired (issue (form_callback m od)).
Proof.
  apply issue_Forall. intros c Hc. unfold form_callback, handleCreateOrUpdateBlog in Hc.
  repeat case_match; [..|by inversion Hc];
    apply list_elem_of_singleton in Hc; subst; by intros ?.
Qed.

Lemma list_callbacks_paired effs : Forall fetch_paired (issue (list_callbacks effs)).
Proof.
  apply issue_Forall. intros c Hc.
  destruct (list_callbacks_spec effs c Hc) as [(? & ? & ->)|(? & ->)]; by intros ?.
Qed.

Lemma resume_paired m k r : Forall fetch_paired (issue (resume m k r).2).
Proof.
  destruct (resume_calls m k r) as [->| ->]; [constructor|apply fetchBlogs_paired].
Qed.

#[local] Hint Resolve Forall_app_2 Forall_delete issue_sat issue_excludes fetchBlogs_paired
  form_callback_paired list_callbacks_paired : blog.

(** ** The server side of a step *)

Context `{!BackendLaws S}.

Lemma serve_wf o s req : server_wf s → server_wf (serve_outcome o s req).1.
Proof.
  intros Hwf. unfold serve_outcome.
  destruct req; simpl; destruct o; simpl;
    auto using wf_post, wf_put, wf_delete.
Qed.

Lemma serve_used o s req i : i ∈ used_ids s → i ∈ used_ids (serve_outcome o s req).1.
Proof.
  intros Hi. unfold serve_outcome.
  destruct req; simpl; destruct o; simpl;
    auto using used_post, used_put, used_delete.
Qed.

(** A used id absent from the server stays absent: POST only adds
    fresh ids, PUT keeps the ids, DELETE only removes. *)
Lemma serve_absent o s req i :
  server_wf s → i ∈ used_ids s → i ∉ ids (get_blogs s) →
  i ∉ ids (get_blogs (serve_outcome o s req).1).
Proof.
  intros Hwf Hu Hi. unfold serve_outcome, ids.
  destruct req as [|d|j d|j]; simpl; destruct o; simpl; try done;
    intros (x & Hx & Hin)%list_elem_of_fmap; apply Hi; rewrite Hx.
  1,2: destruct (post_spec d s Hwf) as (nb & _ & Hnb & Hpost);
    destruct (proj1 (Hpost x) Hin) as [Hxb|Hin'];
    [subst x; by rewrite <-Hx in Hnb|by apply list_elem_of_fmap_2].
  1,2: destruct (put_spec j d s x Hin) as (y & Hy & Hxy & _);
    rewrite Hxy; by apply list_elem_of_fmap_2.
  1,2: apply delete_spec in Hin as [Hin _]; by apply list_elem_of_fmap_2.
Qed.

Lemma serve_get_body o s req body :
  (serve_outcome o s req).2 = ROk body → req = RGet → body = get_blogs s.
Proof.
  intros Hr ->. unfold serve_outcome in Hr. simpl in Hr.
  destruct o; simpl in Hr; [by injection Hr|discriminate..].
Qed.

(** ** The reachable states *)

Definition app_inv (st : AppState S) : Prop :=
  server_wf (server st) ∧ Forall fetch_paired (pending st) ∧
  selectedBlog (mgr st) = None ∧ list_inv (lst st).

Lemma app_exec_inv st l st' : app_inv st → app_exec st l = Some st' → app_inv st'.
Proof.
  intros (Hwf & Hp & Hsel & Hl) Hexec.
  destruct l as [ev|ev|i o|i]; simpl in Hexec.
  - destruct (Form.form_step _ _) as [[f' od]|]; simpl in Hexec; simplify_eq.
    split_and!; simpl; auto with blog.
  - destruct (list_step _ _ _) as [[l' effs]|] eqn:Hs; simpl in Hexec; simplify_eq.
    split_and!; simpl; eauto using list_step_inv with blog.
  - destruct (pending st !! i) as [p|] eqn:Hpi; simpl in Hexec; [|done].
    destruct (p_resp p); [done|].
    destruct (serve_outcome o _ _) as [s' r] eqn:Hso; simplify_eq.
    split_and!; simpl; auto.
    + pose proof (serve_wf o (server st) (c_req (p_call p)) Hwf) as W.
      by rewrite Hso in W.
    + apply Forall_insert; [done|]. apply (Forall_lookup_1 _ _ _ _ Hp Hpi).
  - destruct (pending st !! i) as [p|] eqn:Hpi; simpl in Hexec; [|done].
    destruct (p_resp p) as [r|]; simpl in Hexec; [|done].
    destruct (resume (mgr st) _ r) as [m' calls] eqn:Hr; simplify_eq.
    split_and!; simpl; auto.
    + apply Forall_app_2; [by apply Forall_delete|].
      pose proof (resume_paired (mgr st) (c_cont (p_call p)) r) as P.
      by rewrite Hr in P.
    + destruct (resume_selected (mgr st) (c_cont (p_call p)) r) as [E|E];
        rewrite Hr in E; simpl in E; congruence.
Qed.

Lemma app_reach_inv st : app_reach st → app_inv st.
Proof.
  induction 1 as [s0 Hwf|st l st' _ IH Hexec].
  - split_and!; simpl; auto using fetchBlogs_paired. unfold list_inv; simpl; discriminate.
  - by eapply app_exec_inv.
Qed.

Lemma app_run_reach st ls st' :
  app_reach st → app_run st ls = Some st' → app_reach st'.
Proof.
  revert st. induction ls as [|l ls IH]; intros st Hr Hrun; simpl in Hrun.
  - by simplify_eq.
  - destruct (app_exec st l) as [st1|] eqn:E; simpl in Hrun; [|done].
    eapply IH; [|done]. by eapply reach_step.
Qed.

(** ** Properties of the answered GET bodies *)

(** The server of a step: unchanged, or the server after one request. *)
Lemma app_exec_server st l st' :
  app_exec st l = Some st' →
  server st' = server st ∨ ∃ o req, server st' = (serve_outcome o (server st) req).1.
Proof.
  intros Hexec. destruct l as [ev|ev|j o|j]; simpl in Hexec.
  - destruct (Form.form_step _ _) as [[f' od]|]; simpl in Hexec; simplify_eq; by left.
  - destruct (list_step _ _ _) as [[l' effs]|]; simpl in Hexec; simplify_eq; by left.
  - destruct (pending st !! j) as [p|]; simpl in Hexec; [|done].
    destruct (p_resp p); [done|]. right. exists o, (c_req (p_call p)).
    destruct (serve_outcome o _ _); by simplify_eq.
  - destruct (pending st !! j) as [p|]; simpl in Hexec; [|done].
    destruct (p_resp p) as [r|]; simpl in Hexec; [|done].
    destruct (resume _ _ r); simplify_eq; by left.
Qed.

(** A step answers a GET with the server's list as it is before the step:
    if that list satisfies [P], so does every answered GET's body after. *)
Lemma answers_core (P : list Blog → Prop) st l st' :
  P (get_blogs (server st)) → Forall (answer_sat P) (pending st) →
  app_exec st l = Some st' → Forall (answer_sat P) (pending st').
Proof.
  intros HP Hp Hexec.
  destruct l as [ev|ev|j o|j]; simpl in Hexec.
  - destruct (Form.form_step _ _) as [[f' od]|]; simpl in Hexec; simplify_eq.
    simpl; auto with blog.
  - destruct (list_step _ _ _) as [[l' effs]|]; simpl in Hexec; simplify_eq.
    simpl; auto with blog.
  - destruct (pending st !! j) as [p|]; simpl in Hexec; [|done].
    destruct (p_resp p); [done|].
    pose proof (serve_get_body o (server st) (c_req (p_call p))) as B.
    destruct (serve_outcome o _ _) as [s' r] eqn:Hso; simplify_eq; simpl in *.
    apply Forall_insert; [done|]. intros body Hr Hget; simpl in *.
    simplify_eq. by rewrite (B body eq_refl Hget).
  - destruct (pending st !! j) as [p|]; simpl in Hexec; [|done].
    destruct (p_resp p) as [r|]; simpl in Hexec; [|done].
    destruct (resume _ _ r) as [m' calls]; simplify_eq.
    simpl; auto with blog.
Qed.

Section answers.
Context (Q : S → Prop) (P : list Blog → Prop).
Hypothesis Q_serve : ∀ o s req, Q s → Q (serve_outcome o s req).1.
Hypothesis Q_get : ∀ s, Q s → P (get_blogs s).

(** A server property [Q] that every request keeps, and that gives [P]
    of [GET /blogs], makes [P] hold of every answered GET's body. *)
Lemma answers_step st l st' :
  Q (server st) → Forall (answer_sat P) (pending st) →
  app_exec st l = Some st' →
  Q (server st') ∧ Forall (answer_sat P) (pending st').
Proof.
  intros HQ Hp Hexec. split; [|by apply (answers_core P st l st'); auto].
  destruct (app_exec_server st l st' Hexec) as [->|(o & req & ->)]; auto.
Qed.

End answers.

(** ** The selection and the form *)

(** [C2] In every reachable state the manager's [selectedBlog] is
    [null]: the list never calls [onEdit], so [handleEditBlog] never
    runs. *)
Theorem selected_never_set st : app_reach st → selectedBlog (mgr st) = None.
Proof. intros Hr. by destruct (app_reach_inv st Hr) as (_ & _ & Hsel & _). Qed.

(** [C3] A valid submission of the form, in any reachable state, issues
    one POST of exactly the entered fields (never a PUT: the update
    branch of [handleCreateOrUpdateBlog] is dead) and empties the form
    in the same step, before any response. *)
Theorem submit_posts_and_resets st :
  app_reach st → Form.form_valid (form st) = true →
  app_exec st (UForm Form.FSubmit) =
  Some (mkApp (mgr st) (Form.init None) (lst st)
          (pending st ++
             [mkPending (mkCall (RPost (mkBlogData (Form.title (form st))
                (Form.author (form st)) (Form.content (form st)))) KSave) None])
          (server st)).
Proof.
  intros Hr Hv. simpl. rewrite Hv. simpl.
  unfold handleCreateOrUpdateBlog. by rewrite selected_never_set.
Qed.

(** ** Deletion and refresh *)

(** A post id is gone: the server assigned it, no longer has it, and no
    answered GET still carries it. *)
Definition gone (i : string) (st : AppState S) : Prop :=
  i ∈ used_ids (server st) ∧ (i ∉ ids (get_blogs (server st))) ∧
  Forall (answer_excludes i) (pending st).

Lemma gone_step st l st' i :
  app_inv st → gone i st → app_exec st l = Some st' → gone i st'.
Proof.
  intros (Hwf & _) (Hu & Hi & Hp) Hexec.
  edestruct (answers_step (λ s, server_wf s ∧ i ∈ used_ids s ∧ i ∉ ids (get_blogs s))
              (λ body, i ∉ ids body)) as ((_ & ? & ?) & ?); [..|done|done|done|by split_and!].
  - intros o s req (? & ? & ?). split_and!; eauto using serve_wf, serve_used, serve_absent.
  - by intros s (_ & _ & ?).
Qed.

Lemma gone_run st ls st' i :
  app_reach st → gone i st → app_run st ls = Some st' → gone i st'.
Proof.
  revert st. induction ls as [|l ls IH]; intros st Hr Hg Hrun; simpl in Hrun.
  - by simplify_eq.
  - destruct (app_exec st l) as [st1|] eqn:E; simpl in Hrun; [|done].
    eapply IH; [by eapply reach_step| |done].
    by eapply gone_step; [apply app_reach_inv| |].
Qed.

(** [C5] Once a deleted post is gone from the server and from every
    answered GET, whatever happens next, every refresh that completes
    with a response leaves it out of the list. *)
Theorem refresh_after_delete st i ls st1 j p body st2 :
  app_reach st → gone i st →
  app_run st ls = Some st1 →
  pending st1 !! j = Some p → c_cont (p_call p) = KFetch →
  p_resp p = Some (ROk body) →
  app_exec st1 (Deliver j) = Some st2 →
  i ∉ ids (blogs (mgr st2)).
Proof.
  intros Hr Hg Hrun Hj Hk Hresp Hexec.
  destruct (gone_run st ls st1 i Hr Hg Hrun) as (_ & _ & Hex).
  destruct (app_reach_inv st1 (app_run_reach st ls st1 Hr Hrun)) as (_ & Hpair & _).
  simpl in Hexec. rewrite Hj in Hexec; simpl in Hexec.
  rewrite Hresp in Hexec; simpl in Hexec. rewrite Hk in Hexec; simpl in Hexec.
  simplify_eq; simpl.
  apply (Forall_lookup_1 _ _ _ _ Hex Hj body Hresp).
  apply (Forall_lookup_1 _ _ _ _ Hpair Hj Hk).
Qed.

(** Serving the DELETE of an assigned id, while no answered GET carries
    the id, makes it gone. *)
Lemma delete_makes_gone st j i o st' :
  app_reach st →
  pending st !! j = Some (mkPending (mkCall (RDelete i) KDelete) None) →
  i ∈ used_ids (server st) → Forall (answer_excludes i) (pending st) →
  o ≠ Lost → app_exec st (Serve j o) = Some st' → gone i st'.
Proof.
  intros Hr Hj Hu Hex Ho Hexec. simpl in Hexec. rewrite Hj in Hexec. simpl in Hexec.
  unfold serve_outcome in Hexec; simpl in Hexec.
  destruct o; [| done |]; simplify_eq; simpl; split_and!.
  1,4: by apply used_delete.
  1,3: unfold ids; intros (x & Hx & Hin)%list_elem_of_fmap;
    apply delete_spec in Hin as [_ Hin]; auto.
  all: apply Forall_insert; [done|]; by intros ? ? ?.
Qed.

(** ** Round trip *)

(** [C6] Submitting a valid form and then letting the POST and the
    refresh it triggers complete puts into the list a post whose
    title, author and sections (their number, order and every field)
    are exactly the ones entered.  The five steps are always enabled. *)
Theorem create_then_fetch st :
  app_reach st → Form.form_valid (form st) = true →
  let n := length (pending st) in
  let d := mkBlogData (Form.title (form st)) (Form.author (form st))
             (Form.content (form st)) in
  ∃ st', app_run st [UForm Form.FSubmit; Serve n Delivered; Deliver n;
                     Serve n Delivered; Deliver n] = Some st' ∧
         ∃ b, b ∈ blogs (mgr st') ∧ blog_data b = d.
Proof.
  intros Hr Hv n d. destruct (app_reach_inv st Hr) as (Hwf & _ & Hsel & _).
  destruct (post_spec d (server st) Hwf) as (b & Hb & _ & Hin).
  exists (mkApp (mkManagerState (get_blogs (post_blog d (server st))) None)
            (Form.init None) (lst st) (pending st) (post_blog d (server st))).
  split; [|exists b; split; [apply Hin; by left|done]].
  simpl. rewrite Hv. simpl. unfold handleCreateOrUpdateBlog. rewrite Hsel.
  subst n. repeat progress (simpl; autorewrite with blog_rw).
  by rewrite app_nil_r.
Qed.

(** [C7] Spec property 4 as the code meets it: deleting a listed post
    (from any reachable state where its Delete button is rendered) and
    letting the DELETE and the refresh it triggers complete, with no
    other response delivered in between, removes it from the list. *)
Theorem delete_then_refresh st row b :
  app_reach st → blogs (mgr st) !! row = Some b →
  edit_form_shown (lst st) b = false →
  let n := length (pending st) in
  ∃ st', app_run st [UList (LClickDelete row); Serve n Delivered; Deliver n;
                     Serve n Delivered; Deliver n] = Some st' ∧
         _id b ∉ ids (blogs (mgr st')).
Proof.
  intros Hr Hb Hshown n.
  set (s' := delete_blog (_id b) (server st)).
  exists (mkApp (mkManagerState (get_blogs s') (selectedBlog (mgr st))) (form st)
            (handleToggleContent (lst st) (_id b)) (pending st) s').
  split.
  - simpl. rewrite Hb. simpl. rewrite Hshown. simpl.
    subst n. repeat progress (simpl; autorewrite with blog_rw).
    by rewrite app_nil_r.
  - simpl. unfold ids. intros (x & Hx & Hin)%list_elem_of_fmap.
    apply delete_spec in Hin as [_ Hin]. by apply Hin.
Qed.

(** [C9] Editing a post in the list and saving it, then letting the PUT
    and its refresh complete, lists the post under the same id with
    exactly the buffer's title, author and sections (provided the server
    still has the post). *)
Theorem update_then_fetch st row b :
  app_reach st → blogs (mgr st) !! row = Some b →
  edit_form_shown (lst st) b = true →
  (∃ y, y ∈ get_blogs (server st) ∧ _id y = _id b) →
  let n := length (pending st) in
  ∃ st', app_run st [UList (LEditForm row ESave); Serve n Delivered; Deliver n;
                     Serve n Delivered; Deliver n] = Some st' ∧
         ∃ x, x ∈ blogs (mgr st') ∧ _id x = _id b ∧
              blog_data x = editedBlog (lst st).
Proof.
  intros Hr Hb Hshown (y & Hy & Hid) n.
  set (s' := put_blog (_id b) (editedBlog (lst st)) (server st)).
  exists (mkApp (mkManagerState (get_blogs s') (selectedBlog (mgr st))) (form st)
            (BlogList.handleUpdateBlog (lst st) (_id b)).1 (pending st) s').
  split.
  - simpl. rewrite Hb. simpl. rewrite Hshown. simpl.
    subst n. repeat progress (simpl; autorewrite with blog_rw).
    by rewrite app_nil_r.
  - destruct (put_keeps (_id b) (editedBlog (lst st)) (server st) y Hy)
      as (x & Hx & Hxy & Hdata).
    rewrite decide_True in Hdata by done.
    exists x. split_and!; [done|congruence|done].
Qed.

(** [C32] A failed refresh after a successful update silently leaves
    stale data (spec 4.1), from any state with nothing in flight: Save on
    the edited post, the PUT applied and answered, its refresh lost.
    The run is always possible; the server then holds the post with the
    buffer's data, the list still shows exactly what it showed before,
    and no request is left in flight, so nothing refreshes it until the
    user acts again. *)
Theorem lost_refresh_after_update st row b :
  pending st = [] → blogs (mgr st) !! row = Some b →
  edit_form_shown (lst st) b = true →
  (∃ y, y ∈ get_blogs (server st) ∧ _id y = _id b) →
  ∃ st', app_run st [UList (LEditForm row ESave); Serve 0 Delivered; Deliver 0;
                     Serve 0 Lost; Deliver 0] = Some st' ∧
         pending st' = [] ∧ blogs (mgr st') = blogs (mgr st) ∧
         ∃ x, x ∈ get_blogs (server st') ∧ _id x = _id b ∧
              blog_data x = editedBlog (lst st).
Proof.
  intros Hp Hb Hshown (y & Hy & Hid).
  set (s' := put_blog (_id b) (editedBlog (lst st)) (server st)).
  exists (mkApp (mgr st) (form st) (BlogList.handleUpdateBlog (lst st) (_id b)).1 [] s').
  split; [|split_and!; [done|done|]].
  - simpl. rewrite Hb. simpl. rewrite Hshown. simpl. rewrite Hp.
    repeat progress (simpl; autorewrite with blog_rw). done.
  - destruct (put_keeps (_id b) (editedBlog (lst st)) (server st) y Hy)
      as (x & Hx & Hxy & Hdata).
    rewrite decide_True in Hdata by done.
    exists x. split_and!; [done|congruence|done].
Qed.

(** [C14] A request that fails (network error or error status) is never
    retried and changes nothing but its own entry: the failure is always
    possible, and its delivery runs only the handler's [console.error]. *)
Theorem lost_request_no_effect st j c :
  pending st !! j = Some (mkPending c None) →
  ∃ st', app_run st [Serve j Lost; Deliver j] = Some st' ∧
         mgr st' = mgr st ∧ server st' = server st ∧ form st' = form st ∧
         lst st' = lst st ∧ pending st' = delete j (pending st).
Proof.
  intros Hj.
  exists (mkApp (mgr st) (form st) (lst st) (delete j (pending st)) (server st)).
  split; [|done].
  simpl. rewrite Hj. simpl. unfold serve_outcome.
  destruct (serve (c_req c) (server st)). simpl.
  rewrite list_lookup_insert_eq by (eapply lookup_lt_Some, Hj). simpl.
  destruct (c_cont c); simpl; by rewrite delete_insert_same, app_nil_r.
Qed.

(** [C15] Only the form's own events change its state: the form is
    never re-initialised from [initialData] after the mount, whatever
    the manager's selection. *)
Theorem form_only_by_form_events st l st' :
  app_exec st l = Some st' → (∀ ev, l ≠ UForm ev) → form st' = form st.
Proof.
  intros Hexec Hl. destruct l as [ev|ev|j o|j]; simpl in Hexec.
  - by destruct (Hl ev).
  - destruct (list_step _ _ _) as [[l' effs]|]; simpl in Hexec; by simplify_eq.
  - destruct (pending st !! j) as [p|]; simpl in Hexec; [|done].
    destruct (p_resp p); [done|].
    destruct (serve_outcome o _ _); by simplify_eq.
  - destruct (pending st !! j) as [p|]; simpl in Hexec; [|done].
    destruct (p_resp p) as [r|]; simpl in Hexec; [|done].
    destruct (resume _ _ r); by simplify_eq.
Qed.

(** ** The cache is a snapshot of the server *)

Lemma app_run_snoc st ls l :
  app_run st (ls ++ [l]) = st1 ← app_run st ls; app_exec st1 l.
Proof.
  revert st. induction ls as [|l' ls IH]; intros st; simpl.
  - by destruct (app_exec st l).
  - destruct (app_exec st l'); simpl; [apply IH|done].
Qed.

Section snapshot.
Context (s0 : S).

(** [b] is the server's collection after some prefix of the run [ls]. *)
Definition snapshot (ls : list Label) (b : list Blog) : Prop :=
  ∃ k stk, k ≤ length ls ∧ app_run (app_init s0) (take k ls) = Some stk ∧
           b = get_blogs (server stk).

Lemma snapshot_snoc ls l b : snapshot ls b → snapshot (ls ++ [l]) b.
Proof.
  intros (k & stk & Hk & Hrun & ->). exists k, stk.
  rewrite length_app, take_app_le by lia. split_and!; [lia|done|done].
Qed.

Lemma snapshot_last ls st :
  app_run (app_init s0) ls = Some st → snapshot ls (get_blogs (server st)).
Proof. intros Hrun. exists (length ls), st. by rewrite take_ge by lia. Qed.

Definition answer_snapshot (ls : list Label) (p : Pending) : Prop :=
  ∀ body, p_resp p = Some (ROk body) → c_req (p_call p) = RGet → snapshot ls body.

Definition snap_inv (ls : list Label) (st : AppState S) : Prop :=
  (blogs (mgr st) = [] ∨ snapshot ls (blogs (mgr st))) ∧
  Forall (answer_snapshot ls) (pending st).

Lemma issue_snapshot ls calls : Forall (answer_snapshot ls) (issue calls).
Proof. apply issue_Forall. by intros c _ body. Qed.

Lemma snap_inv_snoc ls l st1 st :
  app_run (app_init s0) ls = Some st1 → app_inv st1 → snap_inv ls st1 →
  app_exec st1 l = Some st → snap_inv (ls ++ [l]) st.
Proof.
  intros Hrun (_ & Hpair & _) (Hb & Hp) Hexec.
  assert (Hp' : Forall (answer_snapshot (ls ++ [l])) (pending st1)).
  { eapply Forall_impl; [apply Hp|]. intros p Hq body H1 H2.
    apply snapshot_snoc, Hq; done. }
  assert (Hb' : blogs (mgr st1) = [] ∨ snapshot (ls ++ [l]) (blogs (mgr st1))).
  { destruct Hb as [?|?]; [by left|right; by apply snapshot_snoc]. }
  destruct l as [ev|ev|j o|j]; simpl in Hexec.
  - destruct (Form.form_step _ _) as [[f' od]|]; simpl in Hexec; simplify_eq.
    split; [done|]. apply Forall_app_2; [done|apply issue_snapshot].
  - destruct (list_step _ _ _) as [[l' effs]|]; simpl in Hexec; simplify_eq.
    split; [done|]. apply Forall_app_2; [done|apply issue_snapshot].
  - destruct (pending st1 !! j) as [p|]; simpl in Hexec; [|done].
    destruct (p_resp p); [done|].
    destruct (serve_outcome o _ _) as [s' r] eqn:Hso; simplify_eq.
    split; [done|]. apply Forall_insert; [done|]. intros body Hr Hget; simpl in *.
    pose proof (serve_get_body o (server st1) (c_req (p_call p)) body) as B.
    rewrite Hso in B. simplify_eq. rewrite B by done.
    apply snapshot_snoc, snapshot_last, Hrun.
  - destruct (pending st1 !! j) as [p|] eqn:Hj; simpl in Hexec; [|done].
    destruct (p_resp p) as [r|] eqn:Hr; simpl in Hexec; [|done].
    destruct (resume (mgr st1) _ r) as [m' calls] eqn:Hres; simplify_eq.
    split; [|apply Forall_app_2; [by apply Forall_delete|apply issue_snapshot]].
    simpl. destruct (resume_blogs (mgr st1) (c_cont (p_call p)) r)
      as [E|(Hk & data & -> & E)]; rewrite Hres in E; simpl in E; rewrite E; [done|].
    right. apply (Forall_lookup_1 _ _ _ _ Hp' Hj); [done|].
    apply (Forall_lookup_1 _ _ _ _ Hpair Hj Hk).
Qed.

Lemma snap_inv_run ls st :
  server_wf s0 → app_run (app_init s0) ls = Some st → snap_inv ls st.
Proof.
  intros Hwf. revert st. induction ls as [|l ls IH] using rev_ind; intros st Hrun.
  - simpl in Hrun. simplify_eq. split; [by left|]. apply issue_snapshot.
  - rewrite app_run_snoc in Hrun.
    destruct (app_run (app_init s0) ls) as [st1|] eqn:H1; simpl in Hrun; [|done].
    assert (Hreach : app_reach st1) by (eapply app_run_reach; [by constructor|done]).
    apply (snap_inv_snoc ls l st1 st H1 (app_reach_inv _ Hreach)); [|done].
    by apply IH.
Qed.

(** [C8] The list's collection is always the server's whole collection
    at some earlier point of the run (or the initial empty list): each
    refresh replaces the cache with a snapshot, and nothing patches it. *)
Theorem cache_is_snapshot ls st :
  server_wf s0 → app_run (app_init s0) ls = Some st →
  blogs (mgr st) = [] ∨
  ∃ k stk, k ≤ length ls ∧ app_run (app_init s0) (take k ls) = Some stk ∧
           blogs (mgr st) = get_blogs (server stk).
Proof. intros Hwf Hrun. apply (snap_inv_run ls st Hwf Hrun). Qed.

End snapshot.

End App.

(** ** Runs on the reference backend *)

(** A server holding one post, id ["0"]. *)
Definition demo_server : MemServer.State :=
  post_blog (mkBlogData "Old" "Asha" []) MemServer.empty.

Lemma demo_server_wf : server_wf demo_server.
Proof. apply wf_post. split; [intros i Hi; inversion Hi|constructor]. Qed.

Lemma demo_reach ls st :
  app_run (app_init demo_server) ls = Some st → app_reach st.
Proof. apply app_run_reach. constructor. apply demo_server_wf. Qed.

(** The mount's GET completes; the user fills in title and author. *)
Definition demo_fill : list Label :=
  [Serve 0 Delivered; Deliver 0;
   UForm (Form.FTitle "New"); UForm (Form.FAuthor "Ravi")].

(** Then: submit; the POST completes and its refresh [g1] is answered
    (with both posts) but not yet delivered; the user deletes post ["0"];
    the DELETE completes, its refresh [g2] completes; finally [g1]'s
    response arrives. *)
Definition demo_stale : list Label :=
  demo_fill ++
  [UForm Form.FSubmit; Serve 0 Delivered; Deliver 0;
   Serve 0 Delivered;
   UList (LClickDelete 0);
   Serve 1 Delivered; Deliver 1;
   Serve 1 Delivered; Deliver 1;
   Deliver 0].

(** [C4] Spec property 4 fails in the code: after a post's DELETE and the
    refresh it triggers have both completed, the post is gone from the
    list, and a GET issued earlier whose response arrives last puts it
    back; the list then shows a post the server no longer has. *)
Example stale_refresh_resurrects :
  (∃ st1, app_run (app_init demo_server) (take 13 demo_stale) = Some st1 ∧
          "0" ∉ ids (blogs (mgr st1))) ∧
  (∃ st2, app_run (app_init demo_server) demo_stale = Some st2 ∧
          "0" ∈ ids (blogs (mgr st2)) ∧ "0" ∉ ids (get_blogs (server st2))).
Proof.
  split; eexists; (split; [vm_compute; reflexivity|]).
  - compute_done.
  - split; compute_done.
Qed.

(** ** Witnesses *)

Lemma selected_never_set_witness :
  ∃ st, app_run (app_init demo_server) demo_stale = Some st ∧
        selectedBlog (mgr st) = None.
Proof.
  eexists; split; [vm_compute; reflexivity|].
  apply selected_never_set. apply (demo_reach demo_stale). vm_compute. reflexivity.
Defined.

Lemma submit_posts_and_resets_witness :
  ∃ st, app_run (app_init demo_server) demo_fill = Some st ∧
  app_exec st (UForm Form.FSubmit) =
  Some (mkApp (mgr st) (Form.init None) (lst st)
          (pending st ++ [mkPending (mkCall (RPost (mkBlogData "New" "Ravi" [])) KSave) None])
          (server st)).
Proof.
  eexists; split; [vm_compute; reflexivity|].
  match goal with |- app_exec ?s _ = _ =>
    rewrite (submit_posts_and_resets s);
    [reflexivity | apply (demo_reach demo_fill); vm_compute; reflexivity
    | reflexivity] end.
Defined.

(** The mount's GET completes, the user deletes post ["0"], the DELETE is
    served: ["0"] is gone; its refresh is then served. *)
Definition demo_delete : list Label :=
  [Serve 0 Delivered; Deliver 0; UList (LClickDelete 0); Serve 0 Delivered].

Lemma refresh_after_delete_witness :
  ∃ st st1 p body st2,
    app_run (app_init demo_server) demo_delete = Some st ∧
    app_run st [Deliver 0; Serve 0 Delivered] = Some st1 ∧
    pending st1 !! 0 = Some p ∧ c_cont (p_call p) = KFetch ∧
    p_resp p = Some (ROk body) ∧
    app_exec st1 (Deliver 0) = Some st2 ∧ "0" ∉ ids (blogs (mgr st2)).
Proof.
  do 5 eexists.
  split; [vm_compute; reflexivity|]. split; [vm_compute; reflexivity|].
  split; [vm_compute; reflexivity|]. split; [reflexivity|].
  split; [reflexivity|]. split; [vm_compute; reflexivity|].
  eapply (refresh_after_delete _ "0" [Deliver 0; Serve 0 Delivered] _ 0).
  - apply (demo_reach demo_delete). vm_compute. reflexivity.
  - split_and!; [compute_done|compute_done|].
    repeat constructor; intros body Hr Hg; vm_compute in Hr, Hg; congruence.
  - vm_compute. reflexivity.
  - vm_compute. reflexivity.
  - reflexivity.
  - reflexivity.
  - vm_compute. reflexivity.
Defined.

Lemma create_then_fetch_witness :
  ∃ st, app_run (app_init demo_server) demo_fill = Some st ∧
  ∃ st', app_run st [UForm Form.FSubmit; Serve 0 Delivered; Deliver 0;
                     Serve 0 Delivered; Deliver 0] = Some st' ∧
         ∃ b, b ∈ blogs (mgr st') ∧ blog_data b = mkBlogData "New" "Ravi" [].
Proof.
  eexists; split; [vm_compute; reflexivity|].
  match goal with |- ∃ _, app_run ?s _ = _ ∧ _ =>
    refine (create_then_fetch s _ _);
    [apply (demo_reach demo_fill); vm_compute; reflexivity | reflexivity] end.
Defined.

(** The mount's GET completes: the list shows post ["0"]. *)
Definition demo_loaded : list Label := [Serve 0 Delivered; Deliver 0].

Lemma delete_then_refresh_witness :
  ∃ st, app_run (app_init demo_server) demo_loaded = Some st ∧
  ∃ st', app_run st [UList (LClickDelete 0); Serve 0 Delivered; Deliver 0;
                     Serve 0 Delivered; Deliver 0] = Some st' ∧
         "0" ∉ ids (blogs (mgr st')).
Proof.
  eexists; split; [vm_compute; reflexivity|].
  match goal with |- ∃ _, app_run ?s _ = _ ∧ _ =>
    refine (delete_then_refresh s 0
              (mkBlog "0" "Old" "Asha" [] "0") _ _ _);
    [apply (demo_reach demo_loaded); vm_compute; reflexivity
    | reflexivity | reflexivity] end.
Defined.

(** Then the user edits post ["0"] and renames it. *)
Definition demo_editing : list Label :=
  demo_loaded ++ [UList (LClickEdit 0); UList (LEditForm 0 (EChange NTitle "Edited"))].

Lemma update_then_fetch_witness :
  ∃ st, app_run (app_init demo_server) demo_editing = Some st ∧
  ∃ st', app_run st [UList (LEditForm 0 ESave); Serve 0 Delivered; Deliver 0;
                     Serve 0 Delivered; Deliver 0] = Some st' ∧
         ∃ x, x ∈ blogs (mgr st') ∧ _id x = "0" ∧
              blog_data x = mkBlogData "Edited" "Asha" [].
Proof.
  eexists; split; [vm_compute; reflexivity|].
  match goal with |- ∃ _, app_run ?s _ = _ ∧ _ =>
    refine (update_then_fetch s 0 (mkBlog "0" "Old" "Asha" [] "0") _ _ _ _);
    [apply (demo_reach demo_editing); vm_compute; reflexivity
    | reflexivity | reflexivity
    | exists (mkBlog "0" "Old" "Asha" [] "0"); split; [by left|reflexivity]] end.
Defined.

Lemma lost_request_no_effect_witness :
  ∃ st', app_run (app_init demo_server) [Serve 0 Lost; Deliver 0] = Some st' ∧
         mgr st' = mgr (app_init demo_server) ∧
         server st' = server (app_init demo_server) ∧
         form st' = form (app_init demo_server) ∧
         lst st' = lst (app_init demo_server) ∧
         pending st' = delete 0 (pending (app_init demo_server)).
Proof. apply (lost_request_no_effect _ 0 (mkCall RGet KFetch)). reflexivity. Defined.

Lemma form_only_by_form_events_witness :
  ∃ st', app_exec (app_init demo_server) (Serve 0 Delivered) = Some st' ∧
         form st' = form (app_init demo_server).
Proof.
  eexists; split; [vm_compute; reflexivity|].
  eapply (form_only_by_form_events (app_init demo_server) (Serve 0 Delivered)).
  - vm_compute. reflexivity.
  - discriminate.
Defined.

(** On the stale run, the resurrected list is still a snapshot: the
    server's collection when the early GET was served. *)
Lemma cache_is_snapshot_witness :
  ∃ st, app_run (app_init demo_server) demo_stale = Some st ∧
  (blogs (mgr st) = [] ∨
   ∃ k stk, k ≤ length demo_stale ∧
            app_run (app_init demo_server) (take k demo_stale) = Some stk ∧
            blogs (mgr st) = get_blogs (server stk)).
Proof.
  eexists; split; [vm_compute; reflexivity|].
  apply (cache_is_snapshot demo_server demo_stale);
    [apply demo_server_wf | vm_compute; reflexivity].
Defined.

Lemma lost_refresh_after_update_witness :
  ∃ st, app_run (app_init demo_server) demo_editing = Some st ∧
  ∃ st', app_run st [UList (LEditForm 0 ESave); Serve 0 Delivered; Deliver 0;
                     Serve 0 Lost; Deliver 0] = Some st' ∧
         pending st' = [] ∧ blogs (mgr st') = blogs (mgr st) ∧
         ∃ x, x ∈ get_blogs (server st') ∧ _id x = "0" ∧
              blog_data x = editedBlog (lst st).
Proof.
  eexists; split; [vm_compute; reflexivity|].
  match goal with |- ∃ _, app_run ?s _ = _ ∧ _ =>
    apply (lost_refresh_after_update s 0 (mkBlog "0" "Old" "Asha" [] "0"))
  end.
  - vm_compute. reflexivity.
  - vm_compute. reflexivity.
  - vm_compute. reflexivity.
  - exists (mkBlog "0" "Old" "Asha" [] "0"). split; [vm_compute; constructor|reflexivity].
Defined.
