(* ===== verification/Drain.v ===== *)
(** * Drain: termination and quiescence of the requests in flight

    The network side of [App]: serving a request and delivering a
    response, with no user event.  A refresh issues nothing when it
    completes and a mutation issues one refresh, so the requests in
    flight always die out.  [weight] measures what is left to do;
    [net_terminates] states that every sequence of network steps is
    finite; [drain] is the fuel-indexed run that serves and delivers the
    oldest request first, and [pending_weight] fuel is enough for it to
    empty the queue.  Delivered with a reliable network, the last
    request drained is a refresh served after every mutation, so the
    list ends equal to the server's collection. *)

From S2P Require Import Prelude Blog BlogList BlogForm Server BlogManager App.
Import Manager.

(** What is left to do for a request: a mutation in flight will be
    served, delivered, and its refresh served and delivered. *)
Definition weight (p : Pending) : nat :=
  match c_cont (p_call p), p_resp p with
  | KFetch, None => 2
  | KFetch, Some _ => 1
  | _, None => 4
  | _, Some _ => 3
  end.

Section Drain.
Context {Srv : Type} `{Backend Srv}.

Definition pending_weight (st : AppState Srv) : nat :=
  sum_list_with weight (pending st).

(** A step of the network alone. *)
Inductive net_step : AppState Srv → AppState Srv → Prop :=
  | net_serve st i o st' : app_exec st (Serve i o) = Some st' → net_step st st'
  | net_deliver st i st' : app_exec st (Deliver i) = Some st' → net_step st st'.

Definition is_net_label (l : Label) : bool :=
  match l with Serve _ _ | Deliver _ => true | _ => false end.

(** The oldest request first: serve it when in flight, deliver it when
    answered. *)
Definition drain_label (st : AppState Srv) : option Label :=
  match pending st with
  | [] => None
  | p :: _ => Some (match p_resp p with Some _ => Deliver 0 | None => Serve 0 Delivered end)
  end.

Fixpoint drain (fuel : nat) (st : AppState Srv) : list Label :=
  match fuel with
  | 0 => []
  | S fuel' =>
      match drain_label st with
      | None => []
      | Some l =>
          match app_exec st l with
          | Some st' => l :: drain fuel' st'
          | None => []
          end
      end
  end.

(** ** Lemmas *)

Lemma resume_fetch_calls m r : (resume m KFetch r).2 = [].
Proof. by destruct r. Qed.

Lemma issue_weight calls :
  calls = [] ∨ calls = fetchBlogs → sum_list_with weight (issue calls) ≤ 2.
Proof. intros [-> | ->]; simpl; lia. Qed.

Lemma net_step_weight st st' :
  net_step st st' → pending_weight st' < pending_weight st.
Proof.
  unfold pending_weight. intros [st0 i o st1 Hexec|st0 i st1 Hexec]; simpl in Hexec.
  - destruct (pending st0 !! i) as [p|] eqn:Hi; simpl in Hexec; [|done].
    destruct (p_resp p) eqn:Hr; [done|].
    destruct (serve_outcome o _ _) as [s' r]; simplify_eq; simpl.
    pose proof (sum_list_with_insert weight (pending st0) i p
                  (mkPending (p_call p) (Some r)) Hi) as E.
    assert (weight p = weight (mkPending (p_call p) (Some r)) + 1)
      by (unfold weight; simpl; rewrite Hr; by destruct (c_cont (p_call p))).
    lia.
  - destruct (pending st0 !! i) as [p|] eqn:Hi; simpl in Hexec; [|done].
    destruct (p_resp p) as [r|] eqn:Hr; simpl in Hexec; [|done].
    destruct (resume (mgr st0) (c_cont (p_call p)) r) as [m' calls] eqn:Hres.
    simplify_eq; simpl. rewrite sum_list_with_app.
    pose proof (sum_list_with_delete weight (pending st0) i p Hi) as E.
    pose proof (resume_calls (mgr st0) (c_cont (p_call p)) r) as C.
    rewrite Hres in C. simpl in C.
    destruct (c_cont (p_call p)) eqn:Hk.
    + pose proof (resume_fetch_calls (mgr st0) r) as C'.
      rewrite Hres in C'. simpl in C'. subst calls.
      assert (weight p = 1) by (unfold weight; by rewrite Hk, Hr). simpl. lia.
    + apply issue_weight in C.
      assert (weight p = 3) by (unfold weight; by rewrite Hk, Hr). lia.
    + apply issue_weight in C.
      assert (weight p = 3) by (unfold weight; by rewrite Hk, Hr). lia.
    + apply issue_weight in C.
      assert (weight p = 3) by (unfold weight; by rewrite Hk, Hr). lia.
Qed.

(** The oldest request can always make progress. *)
Lemma drain_label_step st :
  pending st ≠ [] →
  ∃ l st', drain_label st = Some l ∧ is_net_label l = true ∧
           app_exec st l = Some st'.
Proof.
  unfold drain_label. destruct (pending st) as [|p rest] eqn:E; [done|]. intros _.
  destruct (p_resp p) as [r|] eqn:Hr.
  - destruct (resume (mgr st) (c_cont (p_call p)) r) as [m calls] eqn:Hres.
    eexists _, _; split_and!; [reflexivity|reflexivity|].
    simpl. rewrite E; simpl. rewrite Hr; simpl. by rewrite Hres.
  - destruct (serve_outcome Delivered (server st) (c_req (p_call p))) as [s' r'] eqn:Hso.
    eexists _, _; split_and!; [reflexivity|reflexivity|].
    simpl. rewrite E; simpl. rewrite Hr; simpl. by rewrite Hso.
Qed.

Lemma drain_label_net st l st' :
  drain_label st = Some l → app_exec st l = Some st' → net_step st st'.
Proof.
  unfold drain_label. destruct (pending st) as [|p rest]; [done|].
  intros [= <-]. destruct (p_resp p); intros Hx; econstructor; exact Hx.
Qed.

(** Draining with enough fuel, preserving any property the drain steps
    preserve. *)
Lemma drain_run (P : AppState Srv → Prop) fuel st :
  pending_weight st ≤ fuel → P st →
  (∀ st l st', P st → drain_label st = Some l → app_exec st l = Some st' → P st') →
  ∃ st', app_run st (drain fuel st) = Some st' ∧ pending st' = [] ∧ P st' ∧
         Forall (λ l, is_net_label l = true) (drain fuel st).
Proof.
  revert st. induction fuel as [|fuel IH]; intros st Hw HP Hpres.
  - destruct (pending st) as [|p rest] eqn:E.
    + exists st. simpl. by rewrite E.
    + exfalso. unfold pending_weight in Hw. rewrite E in Hw. simpl in Hw.
      unfold weight in Hw. repeat case_match; lia.
  - destruct (decide (pending st = [])) as [E|E].
    + exists st. simpl. unfold drain_label. rewrite E. done.
    + destruct (drain_label_step st E) as (l & st1 & Hl & Hnet & Hexec).
      pose proof (net_step_weight st st1 (drain_label_net st l st1 Hl Hexec)).
      destruct (IH st1) as (st' & Hrun & Hp & HP' & Hall); [lia|eauto|done|].
      exists st'. simpl. rewrite Hl, Hexec. simpl. rewrite Hexec. simpl.
      split_and!; [done|done|done|by constructor].
Qed.

(** ** How many requests a step issues *)

Lemma list_step_effects bs l ev l' effs :
  list_step bs l ev = Some (l', effs) → length effs ≤ 1.
Proof.
  destruct ev as [row|row|row|row e]; simpl; intros Hs;
    repeat (case_match || simplify_option_eq); simpl; try lia.
  unfold edit_form_step, handleContentChange, BlogList.handleUpdateBlog in Hs.
  destruct e; repeat (case_match || simplify_option_eq); simpl; lia.
Qed.

Lemma issue_length calls : length (issue calls) = length calls.
Proof. apply length_fmap. Qed.

Lemma list_callbacks_length effs : length (list_callbacks effs) = length effs.
Proof. induction effs as [|[] effs IH]; simpl; auto. Qed.

Lemma form_callback_length m od : length (form_callback m od) ≤ 1.
Proof.
  destruct od; simpl; [unfold handleCreateOrUpdateBlog; case_match|]; simpl; lia.
Qed.

(** A user event issues at most one request, a network step none: serving
    keeps the entry, delivering removes it and resumes with at most one
    refresh. *)
Lemma pending_step st l st' :
  app_exec st l = Some st' →
  length (pending st') ≤ length (pending st) + (if is_net_label l then 0 else 1).
Proof.
  destruct l as [ev|ev|i o|i]; simpl; intros Hexec.
  - destruct (Form.form_step _ _) as [[f' od]|]; simplify_eq/=.
    rewrite length_app, issue_length. pose proof (form_callback_length (mgr st) od). lia.
  - destruct (list_step _ _ _) as [[l' effs]|] eqn:Hs; simplify_eq/=.
    rewrite length_app, issue_length, list_callbacks_length.
    pose proof (list_step_effects _ _ _ _ _ Hs). lia.
  - destruct (pending st !! i) as [p|]; simplify_eq/=.
    destruct (p_resp p); [done|].
    destruct (serve_outcome o _ _); simplify_eq/=. rewrite length_insert. lia.
  - destruct (pending st !! i) as [p|] eqn:Hi; simplify_eq/=.
    destruct (p_resp p) as [r|]; simplify_eq/=.
    pose proof (resume_calls (mgr st) (c_cont (p_call p)) r) as Hc.
    destruct (resume _ _ r) as [m' calls]; simplify_eq/=.
    rewrite length_app, issue_length, length_delete by done.
    apply lookup_lt_Some in Hi. destruct Hc as [-> | ->]; simpl; lia.
Qed.

End Drain.

Lemma last_cons_ne {A} (x : A) l : l ≠ [] → last (x :: l) = last l.
Proof.
  intros Hl. rewrite last_cons. destruct (last l) eqn:E; [done|].
  by apply last_None in E.
Qed.

Section consistency.
Context {Srv : Type} `{BackendLaws Srv}.

(** What the last request in flight guarantees about the list once the
    queue is drained in order with a reliable network. *)
Definition cons_inv (st : AppState Srv) : Prop :=
  match last (pending st) with
  | None => blogs (mgr st) = get_blogs (server st)
  | Some p =>
      p_resp p = None ∨
      (c_cont (p_call p) ≠ KFetch ∧ ∃ b, p_resp p = Some (ROk b)) ∨
      (pending st = [p] ∧ c_cont (p_call p) = KFetch ∧
       p_resp p = Some (ROk (get_blogs (server st))))
  end.

Lemma cons_inv_serve st q rest st' :
  app_inv st → pending st = q :: rest → p_resp q = None →
  app_exec st (Serve 0 Delivered) = Some st' → cons_inv st → cons_inv st'.
Proof.
  intros (_ & Hpair & _) E Hq Hexec Hc. simpl in Hexec. rewrite E in Hexec.
  simpl in Hexec. rewrite Hq in Hexec.
  destruct (serve_outcome Delivered (server st) (c_req (p_call q))) as [s' r] eqn:Hso.
  simplify_eq. unfold cons_inv in *. simpl. rewrite E in Hc.
  destruct (decide (rest = [])) as [->|Hne].
  - simpl in *. unfold serve_outcome in Hso.
    destruct (c_cont (p_call q)) eqn:Hk.
    + rewrite E in Hpair. apply Forall_cons in Hpair as [Hpq _].
      rewrite (Hpq Hk) in Hso. simpl in Hso. simplify_eq. by right; right.
    + destruct (serve _ _); simplify_eq; right; left; split; [done|eauto].
    + destruct (serve _ _); simplify_eq; right; left; split; [done|eauto].
    + destruct (serve _ _); simplify_eq; right; left; split; [done|eauto].
  - rewrite !last_cons_ne in * by done.
    destruct (last rest) as [p|] eqn:Hl; [|by apply last_None in Hl].
    destruct Hc as [?|[?|(? & _)]]; [by left|by right; left|simplify_eq].
Qed.

Lemma cons_inv_deliver st q r rest st' :
  pending st = q :: rest → p_resp q = Some r →
  app_exec st (Deliver 0) = Some st' → cons_inv st → cons_inv st'.
Proof.
  intros E Hq Hexec Hc. simpl in Hexec. rewrite E in Hexec. simpl in Hexec.
  rewrite Hq in Hexec. simpl in Hexec.
  destruct (resume (mgr st) (c_cont (p_call q)) r) as [m' calls] eqn:Hres.
  simplify_eq. unfold cons_inv in *. simpl. rewrite E in Hc.
  pose proof (resume_calls (mgr st) (c_cont (p_call q)) r) as C.
  rewrite Hres in C. simpl in C. destruct C as [->| ->].
  - rewrite app_nil_r. destruct (decide (rest = [])) as [->|Hne].
    + simpl in *. destruct Hc as [?|[(Hk & b & Hb)|(_ & Hk & Hb)]]; simplify_eq.
      * destruct (c_cont (p_call q)); simplify_eq; simpl in Hres; by simplify_eq.
      * rewrite Hk in Hres. simpl in Hres. by simplify_eq.
    + rewrite last_cons_ne in Hc by done.
      destruct (last rest) as [p|] eqn:Hl; [|by apply last_None in Hl].
      destruct Hc as [?|[?|(? & _)]]; [by left|by right; left|simplify_eq].
  - simpl. rewrite last_snoc. by left.
Qed.

Lemma cons_inv_drain st l st' :
  app_reach st ∧ cons_inv st → drain_label st = Some l →
  app_exec st l = Some st' → app_reach st' ∧ cons_inv st'.
Proof.
  intros [Hr Hc] Hl Hexec. split; [by eapply reach_step|].
  unfold drain_label in Hl. destruct (pending st) as [|q rest] eqn:E; [done|].
  destruct (p_resp q) as [r|] eqn:Hq; simplify_eq.
  - by eapply cons_inv_deliver.
  - eapply cons_inv_serve; eauto using app_reach_inv.
Qed.

End consistency.

Section properties.
Context {Srv : Type} `{BackendLaws Srv}.

(** [C24] The network alone cannot run forever: every sequence of
    request services and response deliveries, with any outcomes and in
    any order, is finite (completed refreshes issue nothing, completed
    mutations issue one refresh). *)
Theorem net_terminates (st : AppState Srv) :
  Acc (λ st2 st1, net_step st1 st2) st.
Proof.
  remember (pending_weight st) as n eqn:Hn. revert st Hn.
  induction n as [n IH] using lt_wf_ind. intros st ->.
  constructor. intros st2 Hstep.
  exact (IH _ (net_step_weight _ _ Hstep) st2 eq_refl).
Qed.

(** [C31] From every state the network alone brings the program back to
    quiescence: draining the oldest request first, with fuel
    [pending_weight st], serves and delivers every request in flight
    and the refreshes they trigger, and ends with nothing in flight. *)
Theorem quiescence_reachable (st : AppState Srv) :
  ∃ st', app_run st (drain (pending_weight st) st) = Some st' ∧
         pending st' = [] ∧
         Forall (λ l, is_net_label l = true) (drain (pending_weight st) st).
Proof.
  destruct (drain_run (λ _, True) (pending_weight st) st) as (st' & ? & ? & _ & ?);
    eauto.
Qed.

(** [C23] With a reliable network, the list ends consistent with the
    server: from a reachable state whose newest request is still in
    flight, draining in order ends with nothing in flight and the list
    equal to the server's collection. *)
Theorem drain_consistent (st : AppState Srv) p :
  app_reach st → last (pending st) = Some p → p_resp p = None →
  ∃ st', app_run st (drain (pending_weight st) st) = Some st' ∧
         pending st' = [] ∧ blogs (mgr st') = get_blogs (server st').
Proof.
  intros Hr Hl Hp.
  destruct (drain_run (λ st, app_reach st ∧ cons_inv st) (pending_weight st) st)
    as (st' & Hrun & Hnil & (_ & Hc) & _).
  - done.
  - split; [done|]. unfold cons_inv. rewrite Hl. by left.
  - intros ? ? ? ? ? ?. by eapply cons_inv_drain.
  - exists st'. split_and!; [done|done|]. unfold cons_inv in Hc.
    by rewrite Hnil in Hc.
Qed.

(** [C30] The requests in flight are bounded by the user events: over
    any run, each user event adds at most one request and no network
    step adds any (a delivered mutation trades itself for its refresh). *)
Theorem pending_bounded (st : AppState Srv) ls st' :
  app_run st ls = Some st' →
  length (pending st') ≤
    length (pending st) + length (filter (λ l, is_net_label l = false) ls).
Proof.
  revert st. induction ls as [|l ls IH]; intros st Hrun; simpl in Hrun.
  - simplify_eq. lia.
  - destruct (app_exec st l) as [st1|] eqn:E; simpl in Hrun; [|done].
    pose proof (pending_step st l st1 E). specialize (IH st1 Hrun).
    rewrite filter_cons. destruct (is_net_label l); simpl; lia.
Qed.

End properties.

(** ** On the reference backend *)

Lemma drain_consistent_witness :
  ∃ st, app_run (app_init demo_server) (demo_fill ++ [UForm Form.FSubmit]) = Some st ∧
  ∃ st', app_run st (drain (pending_weight st) st) = Some st' ∧
         pending st' = [] ∧ blogs (mgr st') = get_blogs (server st').
Proof.
  eexists; split; [vm_compute; reflexivity|].
  match goal with |- ∃ _, app_run ?s _ = _ ∧ _ =>
    refine (drain_consistent s (mkPending (mkCall (RPost (mkBlogData "New" "Ravi" []))
                                             KSave) None) _ _ _);
    [apply (demo_reach (demo_fill ++ [UForm Form.FSubmit])); vm_compute; reflexivity
    | reflexivity | reflexivity] end.
Defined.

Lemma pending_bounded_witness :
  ∃ st', app_run (app_init demo_server) demo_stale = Some st' ∧
  length (pending st') ≤
    length (pending (app_init demo_server)) +
    length (filter (λ l, is_net_label l = false) demo_stale).
Proof.
  eexists; split; [vm_compute; reflexivity|].
  match goal with |- length (pending ?s) ≤ _ =>
    refine (pending_bounded (app_init demo_server) demo_stale s _) end.
  vm_compute. reflexivity.
Defined.
