(* ===== verification/Render.v ===== *)
(** * Render: what the components' [return (...)] show

    The JSX of [App.js], of [BlogManager.js] (lines 71-88), of
    [BlogForm.js] (lines 29-78) and of [BlogList.js] (lines 66-176) as
    data: a view record per component, computed from the component's
    state and props.  Markup that carries neither data nor a handler
    (labels, [<br/>], class names other than [active]) is left out; the
    post's date line, [new Date(createdAt).toLocaleDateString(...)], is
    locale formatting and is kept as the raw [createdAt] string.

    The theorems are about what the reachable states show: the rows'
    React keys are distinct, at most one row is open, and the form's
    heading reads "Create Blog". *)

From S2P Require Import Prelude Blog BlogList BlogForm Server BlogManager App.
Import Manager.

(** JavaScript truthiness of a string. *)
Definition truthy (s : string) : bool := bool_decide (s ≠ "").

(** ** BlogForm *)

Record FormView := mkFormView {
  fv_heading : string;         (* <h2> *)
  fv_title : string;           (* value of the title input *)
  fv_author : string;          (* value of the author input *)
  fv_sections : list Section   (* one heading/paragraph/image URL group each *)
}.

(** [initialData._id ? "Update Blog" : "Create Blog"]; the manager
    passes [selectedBlog || {}]. *)
Definition form_heading (initialData : option Blog) : string :=
  match initialData with
  | Some b => if truthy (_id b) then "Update Blog" else "Create Blog"
  | None => "Create Blog"
  end.

Definition render_form (initialData : option Blog) (f : Form.FormState) : FormView :=
  mkFormView (form_heading initialData) (Form.title f) (Form.author f) (Form.content f).

(** ** BlogList *)

(** A section of a post's body: [{section.imageUrl && <img .../>}]. *)
Record SectionView := mkSectionView {
  sv_heading : string;
  sv_paragraph : string;
  sv_image : option string
}.

Definition render_section (s : Section) : SectionView :=
  mkSectionView (heading s) (paragraph s)
    (if truthy (imageUrl s) then Some (imageUrl s) else None).

(** The second child of a row: the edit form (inputs bound to the
    buffer, a Remove Section button per buffered section, Add Section,
    Save Changes, Cancel) or the content [div] (class [active] when the
    row is the active one) with its Delete button. *)
Inductive RowBody :=
  | EditFormView (buffer : BlogData)
  | ContentView (active : bool) (sections : list SectionView).

Record RowView := mkRowView {
  rv_key : string;          (* key={blog._id} *)
  rv_title : string;
  rv_author : string;
  rv_date : string;
  rv_edit_button : bool;    (* {!editMode && <button>Edit</button>} *)
  rv_body : RowBody
}.

Definition render_row (st : ListState) (blog : Blog) : RowView :=
  mkRowView (_id blog) (title blog) (author blog) (createdAt blog) (negb (editMode st))
    (if edit_form_shown st blog then EditFormView (editedBlog st)
     else ContentView (opt_eqb (activeBlogId st) (_id blog))
            (render_section <$> content blog)).

(** [blogs.map((blog) => <div key={blog._id} ...>)] *)
Definition render_list (blogs : list Blog) (st : ListState) : list RowView :=
  render_row st <$> blogs.

(** ** BlogManager and App *)

Record ManagerView := mkManagerView {
  mv_heading : string;
  mv_form : FormView;
  mv_rows : list RowView
}.

Definition render_manager (m : ManagerState) (f : Form.FormState) (l : ListState)
  : ManagerView :=
  mkManagerView "Blog Manager" (render_form (selectedBlog m) f) (render_list (blogs m) l).

Record AppView := mkAppView { av_heading : string; av_manager : ManagerView }.

Definition render_app {Srv} (st : AppState Srv) : AppView :=
  mkAppView "DholeraNagri.com Content Management"
    (render_manager (mgr st) (form st) (lst st)).

(** ** Open rows *)

(** A row is open when its body shows: the edit form, or the content
    [div] with class [active]. *)
Definition row_open (rv : RowView) : bool :=
  match rv_body rv with
  | EditFormView _ => true
  | ContentView active _ => active
  end.

(** ** The rows of the reachable states *)

Section reachable.
Context {Srv : Type} `{Backend Srv} `{!BackendLaws Srv}.

(** The cache only ever takes the body of a GET answered to
    [fetchBlogs], so [P] of the cache and of every answered GET is kept. *)
Lemma cache_step (P : list Blog → Prop) st l st' :
  app_inv st → P (blogs (mgr st)) → Forall (answer_sat P) (pending st) →
  app_exec st l = Some st' → P (blogs (mgr st')).
Proof.
  intros (_ & Hpair & _) HP Hp Hexec.
  destruct l as [ev|ev|j o|j]; simpl in Hexec.
  - destruct (Form.form_step _ _) as [[f' od]|]; simpl in Hexec; by simplify_eq.
  - destruct (list_step _ _ _) as [[l' effs]|]; simpl in Hexec; by simplify_eq.
  - destruct (pending st !! j) as [p|]; simpl in Hexec; [|done].
    destruct (p_resp p); [done|].
    destruct (serve_outcome o _ _); by simplify_eq.
  - destruct (pending st !! j) as [p|] eqn:Hj; simpl in Hexec; [|done].
    destruct (p_resp p) as [r|] eqn:Hr; simpl in Hexec; [|done].
    destruct (resume_blogs (mgr st) (c_cont (p_call p)) r) as [E|(Hk & body & -> & E)];
      destruct (resume _ _ _) as [m' calls]; simplify_eq; simpl in *.
    + by rewrite E.
    + apply (Forall_lookup_1 _ _ _ _ Hp Hj _ Hr).
      apply (Forall_lookup_1 _ _ _ _ Hpair Hj Hk).
Qed.

(** The cache and every answered GET list each id once: the server's
    list does ([wf_unique]) and the cache only ever takes a GET's body. *)
Lemma keys_inv st :
  app_reach st →
  NoDup (ids (blogs (mgr st))) ∧
  Forall (answer_sat (λ bs, NoDup (ids bs))) (pending st).
Proof.
  induction 1 as [s0 Hwf|st l st' Hr [Hk Ha] Hexec].
  - split; [constructor|apply issue_sat].
  - pose proof (app_reach_inv st Hr) as Hinv.
    split; [by eapply (cache_step (λ bs, NoDup (ids bs)))|].
    eapply (answers_step server_wf (λ bs, NoDup (ids bs)));
      eauto using serve_wf, wf_unique. apply Hinv.
Qed.

Lemma row_open_active l b :
  row_open (render_row l b) = true → activeBlogId l = Some (_id b).
Proof.
  unfold row_open, render_row, edit_form_shown.
  destruct (editMode l), (opt_eqb _ _) eqn:E; simpl; try discriminate;
    intros _; by apply opt_eqb_true.
Qed.

(** [C29] In every reachable state the rendered rows' React keys
    ([key={blog._id}]) are pairwise distinct. *)
Theorem rendered_keys_unique st :
  app_reach st → NoDup (rv_key <$> mv_rows (av_manager (render_app st))).
Proof.
  intros Hr. simpl. unfold render_list. rewrite <-list_fmap_compose.
  exact (proj1 (keys_inv st Hr)).
Qed.

(** [C35] In every reachable state at most one rendered row is open
    (shows the edit form or the [active] content): [activeBlogId] names
    one post and no two rows carry the same id. *)
Theorem at_most_one_open st r1 r2 rv1 rv2 :
  app_reach st →
  mv_rows (av_manager (render_app st)) !! r1 = Some rv1 →
  mv_rows (av_manager (render_app st)) !! r2 = Some rv2 →
  row_open rv1 = true → row_open rv2 = true → r1 = r2.
Proof.
  intros Hr H1 H2 O1 O2. simpl in H1, H2. unfold render_list in H1, H2.
  rewrite list_lookup_fmap in H1, H2.
  destruct (blogs (mgr st) !! r1) as [b1|] eqn:E1, (blogs (mgr st) !! r2) as [b2|] eqn:E2;
    simplify_eq/=.
  apply row_open_active in O1, O2. rewrite O1 in O2. simplify_eq.
  apply (NoDup_lookup (ids (blogs (mgr st))) r1 r2 (_id b1)).
  - exact (proj1 (keys_inv st Hr)).
  - unfold ids. by rewrite list_lookup_fmap, E1.
  - unfold ids. rewrite list_lookup_fmap, E2. simpl. congruence.
Qed.

(** In every reachable state the form's heading reads "Create
    Blog": the manager's [selectedBlog] stays [null], so the
    [initialData] it passes is [{}] and the "Update Blog" branch of
    [initialData._id ? ... : ...] is never rendered. *)
Theorem form_heading_create st :
  app_reach st → fv_heading (mv_form (av_manager (render_app st))) = "Create Blog".
Proof.
  intros Hr. destruct (app_reach_inv st Hr) as (_ & _ & Hsel & _). simpl. by rewrite Hsel.
Qed.

End reachable.

(** ** Witnesses *)

Lemma rendered_keys_unique_witness :
  ∃ st, app_run (app_init demo_server) demo_stale = Some st ∧
        length (mv_rows (av_manager (render_app st))) = 2 ∧
        NoDup (rv_key <$> mv_rows (av_manager (render_app st))).
Proof.
  eexists; split; [vm_compute; reflexivity|]. split; [vm_compute; reflexivity|].
  apply rendered_keys_unique. apply (demo_reach demo_stale). vm_compute. reflexivity.
Defined.

Lemma at_most_one_open_witness :
  ∃ st rv, app_run (app_init demo_server) (demo_loaded ++ [UList (LClickBody 0)]) = Some st ∧
        mv_rows (av_manager (render_app st)) !! 0 = Some rv ∧ row_open rv = true ∧ 0 = 0.
Proof.
  do 2 eexists; split; [vm_compute; reflexivity|].
  split; [vm_compute; reflexivity|]. split; [vm_compute; reflexivity|].
  eapply (at_most_one_open _ 0 0).
  - apply (demo_reach (demo_loaded ++ [UList (LClickBody 0)])). vm_compute. reflexivity.
  - vm_compute. reflexivity.
  - vm_compute. reflexivity.
  - vm_compute. reflexivity.
  - vm_compute. reflexivity.
Defined.

Lemma form_heading_create_witness :
  ∃ st, app_run (app_init demo_server) demo_stale = Some st ∧
        fv_heading (mv_form (av_manager (render_app st))) = "Create Blog".
Proof.
  eexists; split; [vm_compute; reflexivity|].
  apply form_heading_create. apply (demo_reach demo_stale). vm_compute. reflexivity.
Defined.
