(* ===== verification/FormStore.v ===== *)
(** * FormStore: the section objects on a heap

    [BlogForm.v] and [BlogList.v] treat a post's sections as values.  In
    the JavaScript they are objects, and the two components update them
    differently:

    - [BlogForm.handleContentChange] copies the array and assigns into
      the section object it holds ([updatedContent[index][field] =
      value], line 15): the object is mutated in place;
    - [BlogList.handleContentChange] copies the array and puts a fresh
      object at [index] ([{ ...updatedContent[index], [field]: value }],
      line 39): copy on write.

    This file puts the section objects on a heap ([Heap]: a [gmap] from
    locations to [Section], with a bump allocator) and runs the handlers
    that touch them in a small state-and-error monad [M] ([None] is a
    thrown [TypeError]).  Arrays hold locations.  The theorems:
    the list's editor never writes to an existing object; the form's
    handlers read back through the heap are the by-value handlers of
    [BlogForm.v] as long as the form's array holds distinct objects,
    which holds in the mounted program, where every object of the form
    is one it allocated; and, initialised from a post as the form would
    be in edit mode, a section edit writes into that post's own objects. *)

From stdpp Require Import gmap.
From S2P Require Import Prelude Blog BlogList BlogForm.

Abbreviation loc := nat.

Record Heap := mkHeap { cells : gmap loc Section; next_loc : loc }.

(** Every object lives below the allocation pointer. *)
Definition heap_wf (h : Heap) : Prop := ∀ l, is_Some (cells h !! l) → l < next_loc h.

(** ** The state-and-error monad of a handler *)

Definition M (A : Type) : Type := Heap → option (A * Heap).

Definition ret {A} (x : A) : M A := λ h, Some (x, h).

Definition bind {A B} (m : M A) (k : A → M B) : M B :=
  λ h, match m h with Some (x, h') => k x h' | None => None end.

Declare Scope heap_scope.
Delimit Scope heap_scope with heap.
Notation "x ←ₕ m ; k" := (bind m (λ x, k))
  (at level 20, m at level 100, k at level 200) : heap_scope.
Open Scope heap_scope.

(** [undefined[field] = value] *)
Definition throw {A} : M A := λ _, None.

(** An object literal: a new object at the allocation pointer. *)
Definition alloc (s : Section) : M loc :=
  λ h, Some (next_loc h, mkHeap (<[next_loc h := s]> (cells h)) (S (next_loc h))).

Definition load (l : loc) : M Section :=
  λ h, match cells h !! l with Some s => Some (s, h) | None => None end.

(** An assignment into an existing object. *)
Definition store (l : loc) (s : Section) : M unit :=
  λ h, match cells h !! l with
       | Some _ => Some ((), mkHeap (<[l := s]> (cells h)) (next_loc h))
       | None => None
       end.

(** The values an array of objects holds (what [JSON.stringify] and the
    rendering read). *)
Fixpoint deref (c : gmap loc Section) (ls : list loc) : option (list Section) :=
  match ls with
  | [] => Some []
  | l :: ls' => s ← c !! l; cs ← deref c ls'; Some (s :: cs)
  end.

(** ** Reading arrays of objects *)

Section deref.
Implicit Types (c : gmap loc Section) (ls : list loc) (cs : list Section).

Lemma deref_length c ls cs : deref c ls = Some cs → length cs = length ls.
Proof.
  revert cs. induction ls as [|l ls IH]; intros cs; simpl; [by intros [= <-]|].
  intros H. simplify_option_eq. simpl. by rewrite (IH _ eq_refl).
Qed.

Lemma deref_app c ls1 ls2 :
  deref c (ls1 ++ ls2) = cs1 ← deref c ls1; cs2 ← deref c ls2; Some (cs1 ++ cs2).
Proof.
  induction ls1 as [|l ls1 IH]; simpl.
  - by destruct (deref c ls2).
  - rewrite IH. destruct (c !! l), (deref c ls1), (deref c ls2); done.
Qed.

Lemma deref_lookup c ls cs i l :
  deref c ls = Some cs → ls !! i = Some l → cs !! i = c !! l.
Proof.
  revert cs i. induction ls as [|l' ls IH]; intros cs i; simpl; [done|].
  intros H Hi. simplify_option_eq. destruct i; simplify_eq/=; eauto.
Qed.

Lemma deref_lookup_cases c ls cs i :
  deref c ls = Some cs →
  match ls !! i with
  | Some l => ∃ s, c !! l = Some s ∧ cs !! i = Some s
  | None => cs !! i = None
  end.
Proof.
  intros Hd. pose proof (deref_length _ _ _ Hd) as Hlen.
  destruct (ls !! i) as [l|] eqn:Hi.
  - rewrite <-(deref_lookup _ _ _ _ _ Hd Hi).
    destruct (lookup_lt_is_Some_2 cs i) as [s Hs];
      [rewrite Hlen; by eapply lookup_lt_Some|by exists s].
  - apply lookup_ge_None_2. apply lookup_ge_None_1 in Hi. lia.
Qed.

Lemma deref_allocated c ls cs l : deref c ls = Some cs → l ∈ ls → is_Some (c !! l).
Proof.
  intros H (i & Hi)%list_elem_of_lookup. rewrite <-(deref_lookup _ _ _ _ _ H Hi).
  apply lookup_lt_is_Some_2. rewrite (deref_length _ _ _ H). by eapply lookup_lt_Some.
Qed.

Lemma deref_weaken c c' ls cs : c ⊆ c' → deref c ls = Some cs → deref c' ls = Some cs.
Proof.
  intros Hc. revert cs. induction ls as [|l ls IH]; intros cs; simpl; [done|].
  intros H. simplify_option_eq. by rewrite (lookup_weaken c c' l _ ltac:(done) Hc), (IH _ eq_refl).
Qed.

Lemma deref_insert_notin c ls l s : l ∉ ls → deref (<[l := s]> c) ls = deref c ls.
Proof.
  induction ls as [|l' ls IH]; simpl; [done|]. intros Hl.
  rewrite lookup_insert_ne by set_solver. rewrite IH by set_solver. done.
Qed.

Lemma deref_insert_nodup c ls cs i l s :
  NoDup ls → ls !! i = Some l → deref c ls = Some cs →
  deref (<[l := s]> c) ls = Some (<[i := s]> cs).
Proof.
  revert cs i. induction ls as [|l' ls IH]; intros cs i; simpl; [done|].
  intros Hnd Hi H. apply NoDup_cons in Hnd as [Hnot Hnd].
  destruct (c !! l') as [s'|] eqn:E1, (deref c ls) as [cs'|] eqn:E2; simplify_eq/=.
  destruct i; simplify_eq/=.
  - by rewrite lookup_insert_eq, deref_insert_notin, E2 by done.
  - rewrite lookup_insert_ne by (intros ->; apply Hnot; by eapply list_elem_of_lookup_2).
    by rewrite E1, (IH _ _ Hnd Hi eq_refl).
Qed.

Lemma deref_list_insert c ls cs i l s :
  c !! l = Some s → deref c ls = Some cs → deref c (<[i := l]> ls) = Some (<[i := s]> cs).
Proof.
  intros Hl. revert cs i. induction ls as [|l' ls IH]; intros cs i; simpl; [by intros [= <-]|].
  destruct (c !! l') as [s'|] eqn:E1, (deref c ls) as [cs'|] eqn:E2; intros H; simplify_eq/=.
  destruct i; simpl.
  - by rewrite Hl, E2.
  - by rewrite E1, (IH _ _ eq_refl).
Qed.

Lemma deref_delete c ls cs i :
  deref c ls = Some cs → deref c (delete i ls) = Some (delete i cs).
Proof.
  revert cs i. induction ls as [|l ls IH]; intros cs i; simpl; [by intros [= <-]|].
  destruct (c !! l) as [s|] eqn:E1, (deref c ls) as [cs'|] eqn:E2; intros H; simplify_eq/=.
  destruct i; simpl; [done|]. by rewrite E1, (IH _ _ eq_refl).
Qed.

End deref.

(** A post as the manager holds it: the sections are objects. *)
Record HPost := mkHPost {
  hp_id : string; hp_title : string; hp_author : string;
  hp_content : list loc; hp_createdAt : string
}.

(** ** BlogForm with objects *)

Module HForm.

Record HFormState := mkHForm { title : string; author : string; content : list loc }.

(** [useState(initialData.title || "")], ...,
    [useState(initialData.content || [])]: the form holds the array it
    is given, with its objects ([selectedBlog || {}] is [None] or the
    selected post). *)
Definition init (initialData : option HPost) : HFormState :=
  match initialData with
  | Some p => mkHForm (hp_title p) (hp_author p) (hp_content p)
  | None => mkHForm "" "" []
  end.

(** [setContent([...content, { heading: "", paragraph: "", imageUrl: "" }])] *)
Definition handleAddContent (st : HFormState) : M HFormState :=
  l ←ₕ alloc empty_section;
  ret (mkHForm (title st) (author st) (content st ++ [l])).

(** [const updatedContent = [...content]] copies the array, not the
    objects; [updatedContent[index][field] = value] writes into the
    object at [index] (a [TypeError] when there is none). *)
Definition handleContentChange (st : HFormState) (index : nat) (field : Field)
    (value : string) : M HFormState :=
  let updatedContent := content st in
  match updatedContent !! index with
  | Some l =>
      s ←ₕ load l;
      _ ←ₕ store l (set_field s field value);
      ret (mkHForm (title st) (author st) updatedContent)
  | None => throw
  end.

(** [onSubmit({ title, author, content })], the request body serialised
    from the objects, then the reset. *)
Definition handleSubmit (st : HFormState) : M (HFormState * BlogData) :=
  λ h, match deref (cells h) (content st) with
       | Some cs => Some ((mkHForm "" "" [], mkBlogData (title st) (author st) cs), h)
       | None => None
       end.

Definition form_step (st : HFormState) (ev : Form.FormEvent)
  : M (HFormState * option BlogData) :=
  match ev with
  | Form.FTitle v => ret (mkHForm v (author st) (content st), None)
  | Form.FAuthor v => ret (mkHForm (title st) v (content st), None)
  | Form.FContentChange index field value =>
      st' ←ₕ handleContentChange st index field value; ret (st', None)
  | Form.FAddSection => st' ←ₕ handleAddContent st; ret (st', None)
  | Form.FSubmit =>
      λ h, match deref (cells h) (content st) with
           | Some cs =>
               if Form.form_valid (Form.mkFormState (title st) (author st) cs)
               then (r ←ₕ handleSubmit st; ret (r.1, Some r.2)) h
               else Some ((st, None), h)
           | None => None
           end
  end.

(** What the form shows: its fields and the objects' values. *)
Definition view (h : Heap) (st : HFormState) : option Form.FormState :=
  cs ← deref (cells h) (content st); Some (Form.mkFormState (title st) (author st) cs).

(** The mounted form among the other components: a user event on the
    form, or an object created elsewhere (a section of a post parsed
    from a response, or a copy the list's editor makes). *)
Inductive Act :=
  | AForm (ev : Form.FormEvent)
  | AOther (s : Section).

Definition form_events (acts : list Act) : list Form.FormEvent :=
  omap (λ a, match a with AForm ev => Some ev | AOther _ => None end) acts.

(** A run: the final state, the objects created by the others with their
    values, and the bodies submitted, in order. *)
Fixpoint form_run (st : HFormState) (acts : list Act)
  : M (HFormState * list (loc * Section) * list BlogData) :=
  match acts with
  | [] => ret (st, [], [])
  | AForm ev :: acts' =>
      bind (form_step st ev) (λ '(st1, od),
        bind (form_run st1 acts') (λ '(st', others, ds),
          ret (st', others, option_list od ++ ds)))
  | AOther s :: acts' =>
      l ←ₕ alloc s;
      bind (form_run st acts') (λ '(st', others, ds),
        ret (st', (l, s) :: others, ds))
  end.

(** The same events on the by-value form of [BlogForm.v]. *)
Fixpoint value_run (fs : Form.FormState) (evs : list Form.FormEvent)
  : option (Form.FormState * list BlogData) :=
  match evs with
  | [] => Some (fs, [])
  | ev :: evs' =>
      '(fs1, od) ← Form.form_step fs ev;
      '(fs', ds) ← value_run fs1 evs';
      Some (fs', option_list od ++ ds)
  end.

(** What a step's outcome shows: the next state read through the heap
    and what was submitted. *)
Definition obs (r : option ((HFormState * option BlogData) * Heap))
  : option (Form.FormState * option BlogData) :=
  match r with
  | Some ((st', od), h') => fs ← view h' st'; Some (fs, od)
  | None => None
  end.

End HForm.

(** ** BlogList's editor with objects *)

Module HList.

(** [editedBlog]: the array of section objects is held by reference. *)
Record HBuffer := mkHBuffer { eb_title : string; eb_author : string; eb_content : list loc }.

Record HListState := mkHList {
  activeBlogId : option string;
  editMode : bool;
  editedBlog : HBuffer
}.

Definition set_content (st : HListState) (cs : list loc) : HListState :=
  mkHList (activeBlogId st) (editMode st)
    (mkHBuffer (eb_title (editedBlog st)) (eb_author (editedBlog st)) cs).

(** [handleEditClick]: [content: blog.content || []] is the post's own
    array. *)
Definition handleEditClick (st : HListState) (p : HPost) : HListState :=
  mkHList (Some (hp_id p)) true (mkHBuffer (hp_title p) (hp_author p) (hp_content p)).

(** [handleEditChange]: [{ ...prev, [name]: value }] *)
Definition handleEditChange (st : HListState) (name : EditName) (value : string)
  : HListState :=
  let b := editedBlog st in
  mkHList (activeBlogId st) (editMode st)
    (match name with
     | NTitle => mkHBuffer value (eb_author b) (eb_content b)
     | NAuthor => mkHBuffer (eb_title b) value (eb_content b)
     end).

(** [handleContentChange]: a copy of the array with a new object
    [{ ...updatedContent[index], [field]: value }] at [index]; out of
    range ([None]) as in [BlogList.v]. *)
Definition handleContentChange (st : HListState) (index : nat) (field : Field)
    (value : string) : M HListState :=
  let updatedContent := eb_content (editedBlog st) in
  match updatedContent !! index with
  | Some l =>
      s ←ₕ load l;
      l' ←ₕ alloc (set_field s field value);
      ret (set_content st (<[index := l']> updatedContent))
  | None => throw
  end.

(** [handleAddContentSection]: [[...prev.content, { heading: '', ... }]] *)
Definition handleAddContentSection (st : HListState) : M HListState :=
  l ←ₕ alloc empty_section;
  ret (set_content st (eb_content (editedBlog st) ++ [l])).

(** [handleRemoveContentSection]: [content.filter((_, i) => i !== index)] *)
Definition handleRemoveContentSection (st : HListState) (index : nat) : HListState :=
  set_content st (filter_ne_index index (eb_content (editedBlog st))).

(** [handleUpdateBlog]: [onUpdate(blogId, editedBlog)], the body
    serialised from the objects, then [setEditMode(false)]. *)
Definition handleUpdateBlog (st : HListState) (blogId : string)
  : M (HListState * list ListEffect) :=
  λ h, match deref (cells h) (eb_content (editedBlog st)) with
       | Some cs =>
           Some ((mkHList (activeBlogId st) false (editedBlog st),
                  [OnUpdate blogId (mkBlogData (eb_title (editedBlog st))
                                      (eb_author (editedBlog st)) cs)]), h)
       | None => None
       end.

Definition handleCancelEdit (st : HListState) : HListState :=
  mkHList (activeBlogId st) false (editedBlog st).

(** The edit form's events, as [BlogList.edit_form_step]. *)
Definition edit_form_step (st : HListState) (blogId : string) (e : EditFormEvent)
  : M (HListState * list ListEffect) :=
  match e with
  | EChange name value => ret (handleEditChange st name value, [])
  | EContentChange index field value =>
      st' ←ₕ handleContentChange st index field value; ret (st', [])
  | EAddSection => st' ←ₕ handleAddContentSection st; ret (st', [])
  | ERemoveSection index =>
      if decide (index < length (eb_content (editedBlog st)))
      then ret (handleRemoveContentSection st index, []) else throw
  | ESave => handleUpdateBlog st blogId
  | ECancel => ret (handleCancelEdit st, [])
  end.

(** A sequence of edit-form events on one post. *)
Fixpoint edit_run (st : HListState) (blogId : string) (es : list EditFormEvent)
  : M (HListState * list ListEffect) :=
  match es with
  | [] => ret (st, [])
  | e :: es' =>
      bind (edit_form_step st blogId e) (λ '(st1, effs1),
        bind (edit_run st1 blogId es') (λ '(st', effs),
          ret (st', effs1 ++ effs)))
  end.

(** [handleToggleContent]: touches no section object. *)
Definition handleToggleContent (st : HListState) (blogId : string) : HListState :=
  if opt_eqb (activeBlogId st) blogId && editMode st then st
  else mkHList
         (if opt_eqb (activeBlogId st) blogId then None else Some blogId)
         false (editedBlog st).

(** [editMode && activeBlogId === blog._id] *)
Definition edit_form_shown (st : HListState) (p : HPost) : bool :=
  editMode st && opt_eqb (activeBlogId st) (hp_id p).

(** The rows of [blogs.map(...)] over the posts held by reference; an
    event on a missing row or a hidden control is not enabled ([throw]),
    as [None] in [BlogList.list_step]. *)
Definition list_step (posts : list HPost) (st : HListState) (ev : ListEvent)
  : M (HListState * list ListEffect) :=
  match ev with
  | LClickBody row =>
      match posts !! row with
      | Some p => ret (handleToggleContent st (hp_id p), [])
      | None => throw
      end
  | LClickEdit row =>
      match posts !! row with
      | Some p => if editMode st then throw else ret (handleEditClick st p, [])
      | None => throw
      end
  | LClickDelete row =>
      match posts !! row with
      | Some p =>
          if edit_form_shown st p then throw
          else ret (handleToggleContent st (hp_id p), [OnDelete (hp_id p)])
      | None => throw
      end
  | LEditForm row e =>
      match posts !! row with
      | Some p => if edit_form_shown st p then edit_form_step st (hp_id p) e else throw
      | None => throw
      end
  end.

Definition view (h : Heap) (st : HListState) : option ListState :=
  cs ← deref (cells h) (eb_content (editedBlog st));
  Some (mkListState (activeBlogId st) (editMode st)
          (mkBlogData (eb_title (editedBlog st)) (eb_author (editedBlog st)) cs)).

Definition obs (r : option ((HListState * list ListEffect) * Heap))
  : option (ListState * list ListEffect) :=
  match r with
  | Some ((st', effs), h') => ls ← view h' st'; Some (ls, effs)
  | None => None
  end.

End HList.

(** ** The heap operations *)

Section heap.
Implicit Types (h : Heap) (s : Section).

Lemma alloc_fresh h : heap_wf h → cells h !! next_loc h = None.
Proof. intros Hwf. apply eq_None_not_Some. intros Hl%Hwf. lia. Qed.

Lemma alloc_wf h s :
  heap_wf h → heap_wf (mkHeap (<[next_loc h := s]> (cells h)) (S (next_loc h))).
Proof.
  intros Hwf l. simpl. rewrite lookup_insert_is_Some.
  intros [<-|[_ Hl%Hwf]]; lia.
Qed.

Lemma alloc_sub h s : heap_wf h → cells h ⊆ <[next_loc h := s]> (cells h).
Proof. intros Hwf. by apply insert_subseteq, alloc_fresh. Qed.

Lemma store_wf h l s :
  is_Some (cells h !! l) → heap_wf h → heap_wf (mkHeap (<[l := s]> (cells h)) (next_loc h)).
Proof.
  intros Hl Hwf l'. simpl. rewrite lookup_insert_is_Some.
  intros [<-|[_ ?]]; by apply Hwf.
Qed.

(** The objects an array holds all live below the allocation pointer. *)
Lemma deref_below h ls cs l :
  heap_wf h → deref (cells h) ls = Some cs → l ∈ ls → l < next_loc h.
Proof. intros Hwf Hd Hl. apply Hwf. by eapply deref_allocated. Qed.

Lemma deref_alloc h ls cs s :
  heap_wf h → deref (cells h) ls = Some cs →
  deref (<[next_loc h := s]> (cells h)) (ls ++ [next_loc h]) = Some (cs ++ [s]).
Proof.
  intros Hwf Hd. rewrite deref_app.
  rewrite (deref_weaken _ _ _ _ (alloc_sub h s Hwf) Hd). simpl.
  by rewrite lookup_insert_eq.
Qed.

End heap.

#[export] Hint Resolve alloc_wf alloc_sub store_wf : blog.

(** ** The form: the by-value model is exact for distinct objects *)

(** Run a handler: unfold the monad and the heap operations. *)
Local Ltac run_heap :=
  unfold bind, ret, load, store, alloc, throw in *; simpl in *.

Section form.
Import HForm.

Local Ltac run_form := unfold obs, view in *; run_heap.

Lemma form_step_refines h st fs ev :
  heap_wf h → NoDup (content st) → view h st = Some fs →
  obs (form_step st ev h) = Form.form_step fs ev.
Proof.
  intros Hwf Hnd Hv. unfold view in Hv.
  destruct (deref (cells h) (content st)) as [cs|] eqn:Hd; simplify_eq/=.
  destruct ev as [v|v|i f v| |]; simpl.
  - run_form. by rewrite Hd.
  - run_form. by rewrite Hd.
  - unfold handleContentChange, Form.handleContentChange. simpl.
    pose proof (deref_lookup_cases _ _ _ i Hd) as Hc.
    destruct (content st !! i) as [l|] eqn:Hi; run_form.
    + destruct Hc as (s & Hs & Hcs). rewrite Hs, Hcs. simpl. rewrite Hs. simpl.
      by rewrite (deref_insert_nodup _ _ _ _ _ _ Hnd Hi Hd).
    + by rewrite Hc.
  - run_form. by rewrite (deref_alloc h _ _ _ Hwf Hd).
  - rewrite Hd. destruct (Form.form_valid _); run_form;
      [unfold handleSubmit|]; by rewrite ?Hd.
Qed.

Lemma form_step_shape h st ev st' od h' :
  heap_wf h → NoDup (content st) → is_Some (deref (cells h) (content st)) →
  form_step st ev h = Some ((st', od), h') →
  heap_wf h' ∧ is_Some (deref (cells h') (content st')) ∧ NoDup (content st') ∧
  next_loc h ≤ next_loc h' ∧
  (∀ l, l ∈ content st' → l ∈ content st ∨ next_loc h ≤ l) ∧
  (∀ l, l ∉ content st → l < next_loc h → cells h' !! l = cells h !! l).
Proof.
  intros Hwf Hnd [cs Hd] Hs. destruct ev as [v|v|i f v| |]; simpl in Hs.
  - run_form. simplify_eq/=. split_and!; eauto.
  - run_form. simplify_eq/=. split_and!; eauto.
  - unfold handleContentChange in Hs.
    destruct (content st !! i) as [l|] eqn:Hi; run_form; [|done].
    destruct (cells h !! l) as [s|] eqn:Hl; simpl in Hs; rewrite ?Hl in Hs; simplify_eq/=.
    split_and!; eauto using deref_insert_nodup with blog.
    intros l' Hl' _. rewrite lookup_insert_ne; [done|].
    intros ->. apply Hl'. by eapply list_elem_of_lookup_2.
  - run_form. simplify_eq/=.
    pose proof (deref_below h _ _ (next_loc h) Hwf Hd) as Hbelow.
    split_and!; eauto using deref_alloc with blog.
    + apply NoDup_app. split_and!; [done| |apply NoDup_singleton].
      intros x Hx ->%list_elem_of_singleton. specialize (Hbelow Hx). lia.
    + intros l Hl. apply elem_of_app in Hl as [?|?%list_elem_of_singleton]; subst; auto.
    + intros l _ Hl. rewrite lookup_insert_ne; [done|lia].
  - rewrite Hd in Hs. destruct (Form.form_valid _); run_form;
      [unfold handleSubmit in Hs; rewrite Hd in Hs|]; simplify_eq/=;
      split_and!; eauto using NoDup_nil_2; set_solver.
Qed.

Lemma form_run_inv acts : ∀ h st fs st' others ds h',
  heap_wf h → NoDup (content st) → view h st = Some fs →
  form_run st acts h = Some ((st', others, ds), h') →
  heap_wf h' ∧
  (∃ fs', value_run fs (form_events acts) = Some (fs', ds) ∧ view h' st' = Some fs') ∧
  Forall (λ o, cells h' !! o.1 = Some o.2) others ∧
  (∀ l, l ∉ content st → l < next_loc h → cells h' !! l = cells h !! l).
Proof.
  induction acts as [|[ev|s] acts IH]; intros h st fs st' others ds h' Hwf Hnd Hv Hrun;
    simpl in Hrun.
  - run_form. simplify_eq/=. split_and!; [done|by eexists|constructor|done].
  - pose proof (form_step_refines h st fs ev Hwf Hnd Hv) as Href.
    unfold bind in Hrun.
    destruct (form_step st ev h) as [[[st1 od] h1]|] eqn:Hs; [|done].
    destruct (form_run st1 acts h1) as [[[[st2 os] ds2] h2]|] eqn:Hr; [|done].
    run_form. simplify_eq/=.
    destruct (form_step_shape h st ev st1 od h1 Hwf Hnd ltac:(unfold view in Hv; by
      destruct (deref _ _)) Hs) as (Hwf1 & [cs1 Hd1] & Hnd1 & Hnext & Hsub & Hframe).
    assert (view h1 st1 = Some (Form.mkFormState (title st1) (author st1) cs1)) as Hv1
      by (unfold view; by rewrite Hd1).
    rewrite Hd1 in Href. simpl in Href.
    destruct (IH h1 st1 _ st' others ds2 h' Hwf1 Hnd1 Hv1 Hr)
      as (Hwf' & (fs' & Hvr & Hv') & Hoth & Hframe').
    rewrite <-Href. simpl. rewrite Hvr. split_and!; eauto.
    intros l Hl Hlt. rewrite <-Hframe by done. apply Hframe'; [|lia].
    intros [?|?]%Hsub; [done|lia].
  - unfold bind in Hrun; run_form.
    destruct (form_run st acts _) as [[[[st2 os] ds2] h2]|] eqn:Hr; [|done].
    simplify_eq/=.
    assert (view (mkHeap (<[next_loc h := s]> (cells h)) (S (next_loc h))) st = Some fs)
      as Hv1.
    { unfold view in *. destruct (deref (cells h) (content st)) eqn:Hd; [|done]. simpl.
      by rewrite (deref_weaken _ _ _ _ (alloc_sub h s Hwf) Hd). }
    destruct (IH _ st fs st' os ds h' (alloc_wf h s Hwf) Hnd Hv1 Hr)
      as (Hwf' & Hvr & Hoth & Hframe').
    assert (next_loc h ∉ content st).
    { unfold view in Hv. destruct (deref (cells h) (content st)) eqn:Hd; [|done].
      intros Hin. pose proof (deref_below h _ _ _ Hwf Hd Hin). lia. }
    split_and!; [done|done| |].
    + constructor; [|done]. simpl. rewrite Hframe' by (simpl; first [done|lia]). simpl.
      by rewrite lookup_insert_eq.
    + intros l Hl Hlt. rewrite Hframe' by (simpl; first [done|lia]). simpl.
      rewrite lookup_insert_ne; [done|lia].
Qed.

(** [C25] In the mounted program the form starts from [selectedBlog =
    null], so every object it holds is one it allocated; then its
    handlers, run on the heap among any allocations by the other
    components, show exactly the states and submit exactly the bodies of
    the by-value form of [BlogForm.v]. *)
Theorem form_mounted_refines h0 acts st others ds h :
  heap_wf h0 → form_run (init None) acts h0 = Some ((st, others, ds), h) →
  ∃ fs, value_run (Form.init None) (form_events acts) = Some (fs, ds) ∧ view h st = Some fs.
Proof.
  intros Hwf Hrun.
  by destruct (form_run_inv acts h0 (init None) (Form.init None) st others ds h Hwf
                 (NoDup_nil_2) eq_refl Hrun) as (_ & ? & _).
Qed.

(** [C33] The mounted form never writes an object it does not own: the
    objects that existed at the mount and every object the other
    components create keep their values, whatever the form's users do. *)
Theorem form_mounted_isolated h0 acts st others ds h :
  heap_wf h0 → form_run (init None) acts h0 = Some ((st, others, ds), h) →
  Forall (λ o, cells h !! o.1 = Some o.2) others ∧
  ∀ l, l < next_loc h0 → cells h !! l = cells h0 !! l.
Proof.
  intros Hwf Hrun.
  destruct (form_run_inv acts h0 (init None) (Form.init None) st others ds h Hwf
              (NoDup_nil_2) eq_refl Hrun) as (_ & _ & Hoth & Hframe).
  split; [done|]. intros l Hl. apply Hframe; [apply not_elem_of_nil|done].
Qed.

(** [C26] Given a post's objects, as it would be in the edit mode the
    manager's [initialData] is meant for, the form's section edit
    writes into the post itself: the post held in the manager's [blogs]
    state shows the edited field, with no [setBlogs] and no request. *)
Theorem form_edit_writes_post h p cs i s f v :
  NoDup (hp_content p) → deref (cells h) (hp_content p) = Some cs → cs !! i = Some s →
  ∃ st' h', form_step (init (Some p)) (Form.FContentChange i f v) h = Some ((st', None), h') ∧
            deref (cells h') (hp_content p) = Some (<[i := set_field s f v]> cs).
Proof.
  intros Hnd Hd Hs. simpl. unfold handleContentChange. simpl.
  destruct (hp_content p !! i) as [l|] eqn:Hi.
  - pose proof (deref_lookup _ _ _ _ _ Hd Hi) as Hl. rewrite Hs in Hl.
    run_form. rewrite <-Hl. simpl. rewrite <-Hl. do 2 eexists; split; [done|].
    simpl. by apply (deref_insert_nodup _ _ _ _ _ _ Hnd Hi Hd).
  - apply lookup_ge_None_1 in Hi. apply lookup_lt_Some in Hs.
    rewrite (deref_length _ _ _ Hd) in Hs. lia.
Qed.

End form.

(** ** The list's editor: copy on write *)

Section list.
Import HList.

Local Ltac run_list := unfold obs, view in *; run_heap.

(** An edit-form event only adds objects: the heap before is a
    sub-heap of the heap after. *)
Lemma edit_step_grows h st id e r h' :
  heap_wf h → edit_form_step st id e h = Some (r, h') →
  heap_wf h' ∧ cells h ⊆ cells h'.
Proof.
  intros Hwf Hs. destruct e as [name v|i f v| |i| |]; simpl in Hs.
  - run_heap. by simplify_eq/=.
  - unfold handleContentChange in Hs.
    destruct (eb_content (editedBlog st) !! i) as [l|]; run_heap; [|done].
    destruct (cells h !! l); simplify_eq/=. eauto with blog.
  - run_heap. simplify_eq/=. eauto with blog.
  - case_decide; run_heap; by simplify_eq/=.
  - unfold handleUpdateBlog in Hs. case_match; by simplify_eq/=.
  - run_heap. by simplify_eq/=.
Qed.

Lemma edit_run_grows es : ∀ h st id r h',
  heap_wf h → edit_run st id es h = Some (r, h') → heap_wf h' ∧ cells h ⊆ cells h'.
Proof.
  induction es as [|e es IH]; intros h st id r h' Hwf Hrun; simpl in Hrun.
  - run_heap. by simplify_eq/=.
  - unfold bind in Hrun.
    destruct (edit_form_step st id e h) as [[[st1 effs1] h1]|] eqn:Hs; [|done].
    destruct (edit_run st1 id es h1) as [[[st2 effs2] h2]|] eqn:Hr; [|done].
    run_heap. simplify_eq/=.
    destruct (edit_step_grows h st id e _ h1 Hwf Hs) as [Hwf1 Hsub1].
    destruct (IH h1 st1 id _ h' Hwf1 Hr) as [Hwf' Hsub2].
    split; [done|]. by trans (cells h1).
Qed.

(** One edit-form event read back through the heap. *)
Lemma edit_step_refines h st ls id e :
  heap_wf h → view h st = Some ls →
  obs (edit_form_step st id e h) = BlogList.edit_form_step ls id e.
Proof.
  intros Hwf Hv. unfold view in Hv.
  destruct (deref (cells h) (eb_content (editedBlog st))) as [cs|] eqn:Hd; simplify_eq/=.
  pose proof (deref_length _ _ _ Hd) as Hlen.
  destruct e as [name v|i f v| |i| |]; simpl.
  - destruct name; run_list; by rewrite Hd.
  - unfold handleContentChange, BlogList.handleContentChange. simpl.
    pose proof (deref_lookup_cases _ _ _ i Hd) as Hc.
    destruct (eb_content (editedBlog st) !! i) as [l|] eqn:Hi; run_list; [|by rewrite Hc].
    destruct Hc as (s & Hs & Hcs). rewrite Hs, Hcs. simpl.
    erewrite deref_list_insert; [done|apply lookup_insert_eq|].
    apply (deref_weaken _ _ _ _ (alloc_sub h _ Hwf) Hd).
  - run_list. by rewrite (deref_alloc h _ _ _ Hwf Hd).
  - rewrite <-Hlen. case_decide; run_list; [|done].
    rewrite filter_ne_index_delete, (deref_delete _ _ _ i Hd). simpl.
    unfold BlogList.handleRemoveContentSection. simpl. by rewrite filter_ne_index_delete.
  - unfold handleUpdateBlog. rewrite Hd. run_list. by rewrite Hd.
  - run_list. by rewrite Hd.
Qed.

(** [C34] The list's editor, read back through the heap, is the by-value
    editor of [BlogList.v], for any objects, shared or not: every edit
    copies. *)
Theorem list_edit_refines h st ls id e :
  heap_wf h → view h st = Some ls →
  obs (edit_form_step st id e h) = BlogList.edit_form_step ls id e.
Proof. apply edit_step_refines. Qed.

(** After an edit-form event the buffer still reads back, and its
    objects were in the buffer before or are fresh. *)
Lemma edit_step_shape h st id e st' effs h' :
  heap_wf h → is_Some (deref (cells h) (eb_content (editedBlog st))) →
  edit_form_step st id e h = Some ((st', effs), h') →
  is_Some (deref (cells h') (eb_content (editedBlog st'))) ∧
  ∀ l, l ∈ eb_content (editedBlog st') →
       l ∈ eb_content (editedBlog st) ∨ next_loc h ≤ l.
Proof.
  intros Hwf [cs Hd] Hs. destruct e as [name v|i f v| |i| |]; simpl in Hs.
  - run_heap. simplify_eq/=. destruct name; simpl; eauto.
  - unfold handleContentChange in Hs.
    destruct (eb_content (editedBlog st) !! i) as [l0|]; run_heap; [|done].
    destruct (cells h !! l0); simplify_eq/=. split.
    + eexists. eapply deref_list_insert; [apply lookup_insert_eq|].
      apply (deref_weaken _ _ _ _ (alloc_sub h _ Hwf) Hd).
    + intros l Hl. apply elem_of_insert_inv in Hl as [->|]; [right; simpl; lia|by left].
  - run_heap. simplify_eq/=. split; [eexists; by apply deref_alloc|].
    intros l Hl. apply elem_of_app in Hl as [|Hl]; [by left|].
    apply list_elem_of_singleton in Hl as ->. right. lia.
  - case_decide; run_heap; simplify_eq/=. rewrite filter_ne_index_delete.
    split; [eexists; by apply deref_delete|].
    intros l Hl. left. by eapply list_elem_of_delete_inv.
  - unfold handleUpdateBlog in Hs. case_match; simplify_eq/=. eauto.
  - run_heap. simplify_eq/=. eauto.
Qed.

(** [C27] Unlike the form's, the list's section edits never reach the
    post: from the Edit click on a post, whatever edit-form events
    follow (changes, additions, removals, saves, cancels), the post's
    own objects keep their values. *)
Theorem list_edits_keep_post h st p cs es r h' :
  heap_wf h → deref (cells h) (hp_content p) = Some cs →
  edit_run (handleEditClick st p) (hp_id p) es h = Some (r, h') →
  deref (cells h') (hp_content p) = Some cs.
Proof.
  intros Hwf Hd Hrun. destruct (edit_run_grows es h _ _ r h' Hwf Hrun) as [_ Hsub].
  by apply (deref_weaken _ _ _ _ Hsub).
Qed.

End list.

(** ** Witnesses *)

(** A heap holding the given objects at locations [0], [1], ... *)
Definition heap_of (ss : list Section) : Heap :=
  foldl (λ h s, mkHeap (<[next_loc h := s]> (cells h)) (S (next_loc h))) (mkHeap ∅ 0) ss.

Lemma heap_of_wf ss : heap_wf (heap_of ss).
Proof.
  unfold heap_of. cut (∀ h, heap_wf h → heap_wf (foldl (λ h s,
    mkHeap (<[next_loc h := s]> (cells h)) (S (next_loc h))) h ss)).
  { intros Hf. apply Hf. intros l [? Hl]. simpl in Hl. by rewrite lookup_empty in Hl. }
  induction ss as [|s ss IH]; intros h Hwf; simpl; [done|]. by apply IH, alloc_wf.
Qed.

(** Two sections of a post loaded from the server, at [0] and [1]. *)
Definition demo_sections : list Section :=
  [mkSection "Intro" "Hello" ""; mkSection "More" "World" "pic.png"].

Definition demo_post : HPost := mkHPost "0" "Old" "Asha" [0; 1] "2024-01-01".

(** A post's section arrives between the user's events. *)
Definition demo_acts : list HForm.Act :=
  [HForm.AForm (Form.FTitle "New"); HForm.AForm Form.FAddSection;
   HForm.AOther (mkSection "Late" "Body" "");
   HForm.AForm (Form.FContentChange 0 FParagraph "Text");
   HForm.AForm (Form.FAuthor "Ravi"); HForm.AForm Form.FSubmit].

Lemma form_mounted_refines_witness :
  ∃ st others ds h,
    HForm.form_run (HForm.init None) demo_acts (heap_of demo_sections) =
      Some ((st, others, ds), h) ∧
    ds = [mkBlogData "New" "Ravi" [mkSection "" "Text" ""]] ∧
    ∃ fs, HForm.value_run (Form.init None) (HForm.form_events demo_acts) = Some (fs, ds) ∧
          HForm.view h st = Some fs.
Proof.
  do 4 eexists. split; [vm_compute; reflexivity|]. split; [reflexivity|].
  eapply (form_mounted_refines (heap_of demo_sections) demo_acts _
            [(3, mkSection "Late" "Body" "")]); [apply heap_of_wf|vm_compute; reflexivity].
Defined.

Lemma form_mounted_isolated_witness :
  ∃ st others ds h,
    HForm.form_run (HForm.init None) demo_acts (heap_of demo_sections) =
      Some ((st, others, ds), h) ∧
    others = [(3, mkSection "Late" "Body" "")] ∧
    Forall (λ o, cells h !! o.1 = Some o.2) others ∧
    ∀ l, l < next_loc (heap_of demo_sections) → cells h !! l = cells (heap_of demo_sections) !! l.
Proof.
  do 4 eexists. split; [vm_compute; reflexivity|]. split; [reflexivity|].
  eapply (form_mounted_isolated (heap_of demo_sections) demo_acts);
    [apply heap_of_wf|vm_compute; reflexivity].
Defined.

Lemma form_edit_writes_post_witness :
  ∃ st' h',
    HForm.form_step (HForm.init (Some demo_post)) (Form.FContentChange 0 FHeading "Edited")
      (heap_of demo_sections) = Some ((st', None), h') ∧
    deref (cells h') (hp_content demo_post) =
      Some (<[0 := set_field (mkSection "Intro" "Hello" "") FHeading "Edited"]> demo_sections).
Proof.
  apply form_edit_writes_post; [|vm_compute; reflexivity|reflexivity].
  repeat constructor; compute_done.
Defined.

Definition demo_list : HList.HListState :=
  HList.handleEditClick (HList.mkHList None false (HList.mkHBuffer "" "" [])) demo_post.

Lemma list_edit_refines_witness :
  ∃ ls, HList.view (heap_of demo_sections) demo_list = Some ls ∧
    HList.obs (HList.edit_form_step demo_list "0" (EContentChange 1 FImageUrl "")
                 (heap_of demo_sections)) =
    BlogList.edit_form_step ls "0" (EContentChange 1 FImageUrl "").
Proof.
  eexists. split; [vm_compute; reflexivity|].
  apply list_edit_refines; [apply heap_of_wf|vm_compute; reflexivity].
Defined.

Lemma list_edits_keep_post_witness :
  ∃ r h',
    HList.edit_run demo_list "0"
      [EContentChange 0 FHeading "Edited"; ERemoveSection 1; EAddSection; ESave]
      (heap_of demo_sections) = Some (r, h') ∧
    deref (cells h') (hp_content demo_post) = Some demo_sections.
Proof.
  do 2 eexists. split; [vm_compute; reflexivity|].
  eapply (list_edits_keep_post (heap_of demo_sections)
           (HList.mkHList None false (HList.mkHBuffer "" "" [])) demo_post demo_sections
           [EContentChange 0 FHeading "Edited"; ERemoveSection 1; EAddSection; ESave]);
    [apply heap_of_wf|vm_compute; reflexivity..].
Defined.
