(* ===== verification/Lifecycle.v ===== *)
(** * Lifecycle: a post's id from its assignment to its deletion

    The server assigns ids ([used_ids] grows, never shrinks); the client
    only ever holds ids it received from [GET /blogs].  So every listed
    id was assigned ([listed_assigned]), which makes the Delete of a
    listed post establish [gone] once the server has handled it: from
    then on no refresh can list it again, unless a GET answered before
    the deletion still carries it (the stale response of
    [stale_refresh_resurrects]).

    The last section follows an edit session in the whole program:
    Edit, any edits that are not saved, Cancel and Edit again leave no
    trace in the manager, the form, the server or the requests. *)

From S2P Require Import Prelude Blog BlogList BlogForm Server BlogManager App Render.
Import Manager.

(** Delete clicked on row [row], then the server handling the DELETE
    it issued (appended at the end of the queue) with outcome [o]. *)
Definition delete_handled {S} (st : AppState S) (row : nat) (o : Outcome) : list Label :=
  [UList (LClickDelete row); Serve (length (pending st)) o].

(** An edit session on row [r] ended by Cancel: Edit, the edit-form
    events [es], Cancel, and Edit again. *)
Definition edit_cancel_session (r : nat) (es : list EditFormEvent) : list Label :=
  [UList (LClickEdit r)] ++ ((λ e, UList (LEditForm r e)) <$> es) ++
  [UList (LEditForm r ECancel); UList (LClickEdit r)].

Section lifecycle.
Context {Srv : Type} `{Backend Srv} `{!BackendLaws Srv}.

(** An id the server has not assigned is neither listed nor in any
    answered GET. *)
Definition unassigned_absent (i : string) (st : AppState Srv) : Prop :=
  (i ∉ used_ids (server st)) →
  (i ∉ ids (blogs (mgr st))) ∧ Forall (answer_excludes i) (pending st).

Lemma app_exec_used st l st' i :
  app_exec st l = Some st' → i ∈ used_ids (server st) → i ∈ used_ids (server st').
Proof.
  intros Hexec Hu.
  destruct (app_exec_server st l st' Hexec) as [->|(o & req & ->)]; auto using serve_used.
Qed.

Lemma unassigned_absent_step st l st' i :
  app_inv st → unassigned_absent i st → app_exec st l = Some st' → unassigned_absent i st'.
Proof.
  intros Hinv Hua Hexec Hu'.
  assert (Hu : i ∉ used_ids (server st)).
  { intros Hu. apply Hu'. by eapply app_exec_used. }
  destruct (Hua Hu) as [Hb Hp].
  assert (Hg : i ∉ ids (get_blogs (server st))).
  { intros Hg. apply Hu, wf_used; [apply Hinv|done]. }
  split.
  - by apply (cache_step (λ bs, i ∉ ids bs) st l st').
  - by apply (answers_core (λ bs, i ∉ ids bs) st l st').
Qed.

Lemma unassigned_absent_reach st i : app_reach st → unassigned_absent i st.
Proof.
  induction 1 as [s0 Hwf|st l st' Hr IH Hexec].
  - intros _. split; [apply not_elem_of_nil|apply issue_excludes].
  - eapply unassigned_absent_step; eauto using app_reach_inv.
Qed.

(** Every listed post carries an id the server assigned. *)
Lemma listed_assigned st b :
  app_reach st → b ∈ blogs (mgr st) → _id b ∈ used_ids (server st).
Proof.
  intros Hr Hb. destruct (decide (_id b ∈ used_ids (server st))) as [|Hu]; [done|].
  destruct (unassigned_absent_reach st (_id b) Hr Hu) as [Hn _].
  exfalso. apply Hn. by apply list_elem_of_fmap_2.
Qed.

(** A refresh delivered while the id is gone does not list it. *)
Lemma gone_refresh st i j p body st' :
  app_inv st → gone i st →
  pending st !! j = Some p → c_cont (p_call p) = KFetch →
  p_resp p = Some (ROk body) → app_exec st (Deliver j) = Some st' →
  i ∉ ids (blogs (mgr st')).
Proof.
  intros (_ & Hpair & _) (_ & _ & Hex) Hj Hk Hresp Hexec.
  simpl in Hexec. rewrite Hj in Hexec; simpl in Hexec.
  rewrite Hresp in Hexec; simpl in Hexec. rewrite Hk in Hexec; simpl in Hexec.
  simplify_eq; simpl.
  apply (Forall_lookup_1 _ _ _ _ Hex Hj body Hresp).
  apply (Forall_lookup_1 _ _ _ _ Hpair Hj Hk).
Qed.

Lemma app_run_two st l1 l2 :
  app_run st [l1; l2] = st1 ← app_exec st l1; app_exec st1 l2.
Proof.
  cbn -[app_exec]. destruct (app_exec st l1) as [s1|]; cbn -[app_exec]; [|done].
  by destruct (app_exec s1 l2).
Qed.

(** The Delete click on a rendered row, as [app_exec] runs it. *)
Lemma click_delete_exec st row b :
  blogs (mgr st) !! row = Some b → edit_form_shown (lst st) b = false →
  app_exec st (UList (LClickDelete row)) =
  Some (mkApp (mgr st) (form st) (handleToggleContent (lst st) (_id b))
          (pending st ++ [mkPending (mkCall (RDelete (_id b)) KDelete) None])
          (server st)).
Proof. intros Hb Hshown. simpl. rewrite Hb. simpl. by rewrite Hshown. Qed.

(** [C36] Deleting a listed post is final once the server has handled
    the DELETE (whether or not its response arrives): whatever events
    follow, in any order, every refresh that completes leaves the post
    out of the list, provided no GET already answered when Delete was
    clicked still carries it.  No hypothesis on the id: the invariant
    [listed_assigned] shows the server assigned it. *)
Theorem deleted_post_never_returns st row b o st1 :
  app_reach st → blogs (mgr st) !! row = Some b → edit_form_shown (lst st) b = false →
  Forall (answer_excludes (_id b)) (pending st) → o ≠ Lost →
  app_run st (delete_handled st row o) = Some st1 →
  ∀ ls st2 j p body st3,
    app_run st1 ls = Some st2 → pending st2 !! j = Some p →
    c_cont (p_call p) = KFetch → p_resp p = Some (ROk body) →
    app_exec st2 (Deliver j) = Some st3 →
    _id b ∉ ids (blogs (mgr st3)).
Proof.
  intros Hr Hb Hshown Hex Ho Hrun ls st2 j p body st3 Hrun2 Hj Hk Hresp Hexec.
  unfold delete_handled in Hrun.
  pose proof (click_delete_exec st row b Hb Hshown) as HA.
  rewrite app_run_two, HA in Hrun. cbn -[app_exec] in Hrun. rename Hrun into HB.
  pose proof (reach_step _ _ _ Hr HA) as HrA.
  assert (Hg : gone (_id b) st1).
  { eapply delete_makes_gone; [exact HrA| |simpl| |exact Ho|exact HB].
    - simpl. by rewrite lookup_snoc_length.
    - apply (listed_assigned st b Hr). by eapply list_elem_of_lookup_2.
    - simpl. apply Forall_app_2; [done|]. repeat constructor. by intros ? ? ?. }
  pose proof (reach_step _ _ _ HrA HB) as Hr1.
  apply (gone_refresh st2 (_id b) j p body st3); try done.
  - apply app_reach_inv. by eapply app_run_reach.
  - by eapply gone_run.
Qed.

(** ** An edit session that is cancelled *)

Lemma app_run_app st ls1 ls2 :
  app_run st (ls1 ++ ls2) = st1 ← app_run st ls1; app_run st1 ls2.
Proof.
  revert st. induction ls1 as [|l ls1 IH]; intros st; cbn -[app_exec]; [done|].
  destruct (app_exec st l); cbn -[app_exec]; [apply IH|done].
Qed.

(** The edit form's events other than Save and Cancel fire nothing and
    keep the row open in edit mode. *)
Lemma edit_step_keeps st id e st' effs :
  e ≠ ESave → e ≠ ECancel → edit_form_step st id e = Some (st', effs) →
  effs = [] ∧ activeBlogId st' = activeBlogId st ∧ editMode st' = editMode st.
Proof.
  intros Hs Hc. destruct e; simpl; try congruence;
    unfold handleContentChange; intros; repeat (case_match || simplify_option_eq); done.
Qed.

Lemma edit_events_run es : ∀ st r b st',
  blogs (mgr st) !! r = Some b → activeBlogId (lst st) = Some (_id b) →
  editMode (lst st) = true → Forall (λ e, e ≠ ESave ∧ e ≠ ECancel) es →
  app_run st ((λ e, UList (LEditForm r e)) <$> es) = Some st' →
  mgr st' = mgr st ∧ form st' = form st ∧ pending st' = pending st ∧
  server st' = server st ∧ activeBlogId (lst st') = Some (_id b) ∧ editMode (lst st') = true.
Proof.
  induction es as [|e es IH]; intros st r b st' Hb Ha Hm Hes Hrun;
    cbn -[app_exec] in Hrun; [by simplify_eq|].
  apply Forall_cons in Hes as [[Hs Hc] Hes].
  destruct (app_exec st _) as [st1|] eqn:E; cbn -[app_exec] in Hrun; [|done].
  simpl in E. rewrite Hb in E. simpl in E.
  assert (edit_form_shown (lst st) b = true) as Hsh.
  { unfold edit_form_shown. rewrite Hm, Ha. simpl. by apply opt_eqb_true. }
  rewrite Hsh in E.
  destruct (edit_form_step _ _ e) as [[l1 effs]|] eqn:Es; simplify_eq/=.
  destruct (edit_step_keeps _ _ _ _ _ Hs Hc Es) as (-> & Ha1 & Hm1).
  match type of Hrun with app_run ?s _ = _ =>
    destruct (IH s r b st' Hb ltac:(simpl; congruence) ltac:(simpl; congruence) Hes Hrun)
      as (-> & -> & -> & -> & ? & ?) end.
  simpl. by rewrite app_nil_r.
Qed.

(** [C28] Cancel discards every unsaved edit: Edit on a listed post,
    any edits in the edit form (fields, section changes, additions,
    removals), Cancel, and Edit again issue no request, leave the
    manager, the form and the server as they were, and show the buffer
    seeded again from the post's stored values. *)
Theorem cancel_discards_edits st r b es st' :
  blogs (mgr st) !! r = Some b → editMode (lst st) = false →
  Forall (λ e, e ≠ ESave ∧ e ≠ ECancel) es →
  app_run st (edit_cancel_session r es) = Some st' →
  pending st' = pending st ∧ server st' = server st ∧ mgr st' = mgr st ∧
  form st' = form st ∧ lst st' = mkListState (Some (_id b)) true (blog_data b).
Proof.
  intros Hb Hm Hes Hrun. unfold edit_cancel_session in Hrun. rewrite app_run_app in Hrun.
  assert (app_run st [UList (LClickEdit r)] =
          Some (mkApp (mgr st) (form st) (handleEditClick (lst st) b)
                  (pending st ++ []) (server st))) as HA.
  { simpl. rewrite Hb. simpl. by rewrite Hm. }
  rewrite HA in Hrun. cbn -[app_exec app_run] in Hrun. rewrite app_run_app in Hrun.
  destruct (app_run _ ((λ e, UList (LEditForm r e)) <$> es)) as [st1|] eqn:E;
    cbn -[app_exec app_run] in Hrun; [|done].
  match type of E with app_run ?s _ = _ =>
    destruct (edit_events_run es s r b st1 Hb eq_refl eq_refl Hes E)
      as (Hmg & Hf & Hp & Hs & Ha & Hm1) end; simpl in Hmg, Hf, Hp, Hs, Ha, Hm1.
  rewrite app_run_two in Hrun. simpl in Hrun. rewrite Hmg, Hb in Hrun. simpl in Hrun.
  assert (edit_form_shown (lst st1) b = true) as Hsh.
  { unfold edit_form_shown. rewrite Hm1, Ha. simpl. by apply opt_eqb_true. }
  rewrite Hsh in Hrun. simpl in Hrun. rewrite Hb in Hrun. simpl in Hrun.
  simplify_eq/=. rewrite !app_nil_r, Hp, Hs, Hf, ?app_nil_r. by split_and!.
Qed.

End lifecycle.

(** ** Witnesses *)

(** After the mount's GET, the user deletes post ["0"] and the DELETE is
    served; the user then types in the form, the DELETE's response and
    its refresh arrive. *)
Lemma deleted_post_never_returns_witness :
  ∃ st, app_run (app_init demo_server) demo_loaded = Some st ∧
  ∃ st1, app_run st (delete_handled st 0 Delivered) = Some st1 ∧
  ∃ st2, app_run st1 [UForm (Form.FTitle "x"); Deliver 0; Serve 0 Delivered] = Some st2 ∧
  ∃ p body st3, pending st2 !! 0 = Some p ∧ p_resp p = Some (ROk body) ∧
    app_exec st2 (Deliver 0) = Some st3 ∧ "0" ∉ ids (blogs (mgr st3)).
Proof.
  eexists; split; [vm_compute; reflexivity|].
  match goal with |- ∃ _, app_run ?s _ = _ ∧ _ => set (st := s) end.
  eexists; split; [vm_compute; reflexivity|].
  match goal with |- ∃ _, app_run ?s _ = _ ∧ _ => set (st1 := s) end.
  eexists; split; [vm_compute; reflexivity|].
  match goal with |- ∃ _ _ _, pending ?s !! _ = _ ∧ _ => set (st2 := s) end.
  do 3 eexists. split; [vm_compute; reflexivity|]. split; [vm_compute; reflexivity|].
  split; [vm_compute; reflexivity|].
  match goal with |- _ ∉ ids (blogs (mgr ?s)) => set (st3 := s) end.
  refine (deleted_post_never_returns st 0 (mkBlog "0" "Old" "Asha" [] "0") Delivered st1
            _ _ _ _ _ _ [UForm (Form.FTitle "x"); Deliver 0; Serve 0 Delivered] st2 0
            _ _ st3 _ _ _ _ _).
  - apply (demo_reach demo_loaded). vm_compute. reflexivity.
  - vm_compute. reflexivity.
  - vm_compute. reflexivity.
  - constructor.
  - discriminate.
  - vm_compute. reflexivity.
  - vm_compute. reflexivity.
  - vm_compute. reflexivity.
  - vm_compute. reflexivity.
  - vm_compute. reflexivity.
  - vm_compute. reflexivity.
Defined.

(** Edit post ["0"], change its title, add a section and fill its
    paragraph, then Cancel and Edit again. *)
Definition demo_edits : list EditFormEvent :=
  [EChange NTitle "New title"; EAddSection; EContentChange 0 FParagraph "Text"].

Lemma cancel_discards_edits_witness :
  ∃ st, app_run (app_init demo_server) demo_loaded = Some st ∧
  ∃ st', app_run st (edit_cancel_session 0 demo_edits) = Some st' ∧
    pending st' = pending st ∧ server st' = server st ∧ mgr st' = mgr st ∧
    form st' = form st ∧
    lst st' = mkListState (Some "0") true (mkBlogData "Old" "Asha" []).
Proof.
  eexists; split; [vm_compute; reflexivity|].
  match goal with |- ∃ _, app_run ?s _ = _ ∧ _ =>
    eexists; split; [vm_compute; reflexivity|];
    eapply (cancel_discards_edits s 0 (mkBlog "0" "Old" "Asha" [] "0") demo_edits)
  end.
  - vm_compute. reflexivity.
  - vm_compute. reflexivity.
  - repeat constructor; discriminate.
  - vm_compute. reflexivity.
Defined.
