(* ===== verification/SharedHeap.v ===== *)
(** * SharedHeap: the form, the list's editor and the manager's posts on one heap

    In the running page all section objects live in one JavaScript heap:
    [setBlogs(response.data)] installs posts whose sections are the
    objects axios parsed from the response; the list's Edit click puts a
    post's own [content] array into [editedBlog]; the form holds the
    objects it allocated.  [World] is the three holders together and
    [world_step] runs one of their operations on the shared [Heap] of
    [FormStore]: a form event, an Edit click on a listed post, an event
    of the edit form, or a refresh that installs freshly parsed posts.

    An edit-form event acts on the active post whether or not its row
    is still listed: more runs than the page has, which only
    strengthens the safety theorem.

    [posts_show_last_response]: whatever the users of the form and of
    the list's editor do, the manager's posts show exactly the values of
    the last response; the in-place assignment of the form never reaches
    them, because the mounted form owns its objects, and the list's
    editor copies on write. *)

From stdpp Require Import gmap.
From S2P Require Import Prelude Blog BlogList BlogForm FormStore.
Open Scope heap_scope.

(** [response.data]: each section of each post becomes a new object. *)
Fixpoint alloc_all (ss : list Section) : M (list loc) :=
  match ss with
  | [] => ret []
  | s :: ss' => l ←ₕ alloc s; ls ←ₕ alloc_all ss'; ret (l :: ls)
  end.

Definition parse_post (b : Blog) : M HPost :=
  ls ←ₕ alloc_all (content b);
  ret (mkHPost (_id b) (title b) (author b) ls (createdAt b)).

Fixpoint parse_posts (bs : list Blog) : M (list HPost) :=
  match bs with
  | [] => ret []
  | b :: bs' => p ←ₕ parse_post b; ps ←ₕ parse_posts bs'; ret (p :: ps)
  end.

(** The holders of section objects: the form, the list's editor, and
    the manager's [blogs] with the response they were parsed from. *)
Record World := mkWorld {
  w_form : HForm.HFormState;
  w_list : HList.HListState;
  w_posts : list HPost;
  w_data : list Blog
}.

Inductive WAct :=
  | WForm (ev : Form.FormEvent)          (* an event of the form *)
  | WEditClick (row : nat)               (* Edit on a listed post *)
  | WEdit (e : EditFormEvent)            (* an event of the edit form *)
  | WFetch (bs : list Blog).             (* a refresh: setBlogs(response.data) *)

Definition world_step (w : World) (a : WAct) : M World :=
  match a with
  | WForm ev =>
      r ←ₕ HForm.form_step (w_form w) ev;
      ret (mkWorld r.1 (w_list w) (w_posts w) (w_data w))
  | WEditClick row =>
      match w_posts w !! row with
      | Some p =>
          if HList.editMode (w_list w) then throw
          else ret (mkWorld (w_form w) (HList.handleEditClick (w_list w) p)
                      (w_posts w) (w_data w))
      | None => throw
      end
  | WEdit e =>
      match HList.activeBlogId (w_list w) with
      | Some id =>
          if HList.editMode (w_list w) then
            r ←ₕ HList.edit_form_step (w_list w) id e;
            ret (mkWorld (w_form w) r.1 (w_posts w) (w_data w))
          else throw
      | None => throw
      end
  | WFetch bs =>
      ps ←ₕ parse_posts bs; ret (mkWorld (w_form w) (w_list w) ps bs)
  end.

Fixpoint world_run (w : World) (acts : list WAct) : M World :=
  match acts with
  | [] => ret w
  | a :: acts' => w1 ←ₕ world_step w a; world_run w1 acts'
  end.

(** The mount: the form from [initialData = {}], the list's initial
    state, no posts yet. *)
Definition world_init : World :=
  mkWorld (HForm.init None) (HList.mkHList None false (HList.mkHBuffer "" "" [])) [] [].

(** ** The allocations of a refresh *)

Local Ltac run_heap :=
  unfold bind, ret, load, store, alloc, throw in *; simpl in *.

Lemma deref_frame c c' ls :
  (∀ l, l ∈ ls → c' !! l = c !! l) → deref c' ls = deref c ls.
Proof.
  induction ls as [|l ls IH]; intros Hfr; simpl; [done|].
  rewrite Hfr by set_solver. rewrite IH by set_solver. done.
Qed.

Lemma alloc_all_spec ss : ∀ h ls h',
  heap_wf h → alloc_all ss h = Some (ls, h') →
  heap_wf h' ∧ cells h ⊆ cells h' ∧ next_loc h ≤ next_loc h' ∧
  deref (cells h') ls = Some ss ∧ ∀ l, l ∈ ls → next_loc h ≤ l.
Proof.
  induction ss as [|s ss IH]; intros h ls h' Hwf Ha; simpl in Ha; run_heap.
  - simplify_eq/=. split_and!; [done|done|done|done|set_solver].
  - destruct (alloc_all ss _) as [[ls1 h1]|] eqn:E; simplify_eq/=.
    destruct (IH _ _ _ (alloc_wf h s Hwf) E) as (Hwf1 & Hsub1 & Hn1 & Hd1 & Hge1).
    simpl in *. split_and!; [done| |lia| |].
    + by trans (<[next_loc h := s]> (cells h)); [apply alloc_sub|].
    + rewrite Hd1. erewrite lookup_weaken; [done| |exact Hsub1]. apply lookup_insert_eq.
    + intros l [->|Hl]%elem_of_cons; [done|]. specialize (Hge1 l Hl). lia.
Qed.

Lemma parse_posts_spec bs : ∀ h ps h',
  heap_wf h → parse_posts bs h = Some (ps, h') →
  heap_wf h' ∧ cells h ⊆ cells h' ∧ next_loc h ≤ next_loc h' ∧
  Forall2 (λ p b, deref (cells h') (hp_content p) = Some (content b)) ps bs ∧
  ∀ p l, p ∈ ps → l ∈ hp_content p → next_loc h ≤ l.
Proof.
  induction bs as [|b bs IH]; intros h ps h' Hwf Hp; simpl in Hp; unfold parse_post in Hp;
    run_heap.
  - simplify_eq/=. split_and!; [done|done|done|constructor|set_solver].
  - destruct (alloc_all (content b) h) as [[ls h1]|] eqn:E1; [|done].
    destruct (parse_posts bs h1) as [[ps1 h2]|] eqn:E2; simplify_eq/=.
    destruct (alloc_all_spec _ _ _ _ Hwf E1) as (Hwf1 & Hsub1 & Hn1 & Hd1 & Hge1).
    destruct (IH _ _ _ Hwf1 E2) as (Hwf2 & Hsub2 & Hn2 & Hps & Hge2).
    split_and!; [done|by trans (cells h1)|lia| |].
    + constructor; [|done]. simpl. by apply (deref_weaken _ _ _ _ Hsub2).
    + intros p l [->|Hp]%elem_of_cons Hl; simpl in *; [by apply Hge1|].
      specialize (Hge2 p l Hp Hl). lia.
Qed.

(** ** The invariant of the shared heap *)

Lemma Forall2_impl_elem_of {A B} (P Q : A → B → Prop) l k :
  Forall2 P l k → (∀ x y, x ∈ l → P x y → Q x y) → Forall2 Q l k.
Proof.
  induction 1 as [|x y l k Hxy _ IH]; intros HPQ; constructor.
  - apply HPQ; [by left|done].
  - apply IH. intros x' y' Hx'. apply HPQ. by right.
Qed.

(** A post shows its response's values, and none of its objects is
    one the form holds. *)
Definition post_ok (h : Heap) (fc : list loc) (p : HPost) (b : Blog) : Prop :=
  deref (cells h) (hp_content p) = Some (content b) ∧ ∀ l, l ∈ hp_content p → l ∉ fc.

Definition world_inv (w : World) (h : Heap) : Prop :=
  heap_wf h ∧ NoDup (HForm.content (w_form w)) ∧
  is_Some (deref (cells h) (HForm.content (w_form w))) ∧
  Forall2 (post_ok h (HForm.content (w_form w))) (w_posts w) (w_data w).

Lemma post_ok_weaken h h' fc p b :
  cells h ⊆ cells h' → post_ok h fc p b → post_ok h' fc p b.
Proof. intros Hsub [Hd Hdis]. split; [by eapply deref_weaken|done]. Qed.

(** A form event keeps the posts: it writes only the form's objects and
    allocates above every existing one. *)
Lemma post_ok_form h fc h' fc' p b :
  heap_wf h → next_loc h ≤ next_loc h' →
  (∀ l, l ∈ fc' → l ∈ fc ∨ next_loc h ≤ l) →
  (∀ l, l ∉ fc → l < next_loc h → cells h' !! l = cells h !! l) →
  post_ok h fc p b → post_ok h' fc' p b.
Proof.
  intros Hwf Hn Hsub Hfr [Hd Hdis].
  assert (Hlt : ∀ l, l ∈ hp_content p → l < next_loc h) by eauto using deref_below.
  split.
  - rewrite <-Hd. apply deref_frame. intros l Hl. apply Hfr; auto.
  - intros l Hl Hl'. destruct (Hsub l Hl') as [?|?]; [by eapply Hdis|].
    specialize (Hlt l Hl). lia.
Qed.

Lemma world_step_inv w a w' h h' :
  world_inv w h → world_step w a h = Some (w', h') → world_inv w' h'.
Proof.
  intros (Hwf & Hnd & [cs Hd] & Hposts) Hs.
  destruct a as [ev|row|e|bs]; simpl in Hs; run_heap.
  - destruct (HForm.form_step _ ev h) as [[[st' od] h1]|] eqn:E; simplify_eq/=.
    destruct (form_step_shape h _ ev st' od h' Hwf Hnd ltac:(by eexists) E)
      as (Hwf1 & Hd1 & Hnd1 & Hn & Hsub & Hfr).
    split_and!; [done..|]. eapply Forall2_impl; [done|]. intros p b.
    by apply post_ok_form.
  - destruct (w_posts w !! row); [|done].
    destruct (HList.editMode _); simplify_eq/=. split_and!; [done|done|by eexists|done].
  - destruct (HList.activeBlogId _) as [id|]; [|done].
    destruct (HList.editMode _); [|done].
    destruct (HList.edit_form_step _ id e h) as [[r h1]|] eqn:E; simplify_eq/=.
    destruct (edit_step_grows h _ id e r h' Hwf E) as [Hwf1 Hsub].
    split_and!; [done|done|eexists; by eapply deref_weaken|].
    eapply Forall2_impl; [done|]. intros p b. by apply post_ok_weaken.
  - destruct (parse_posts bs h) as [[ps h1]|] eqn:E; simplify_eq/=.
    destruct (parse_posts_spec bs h ps h' Hwf E) as (Hwf1 & Hsub & Hn & Hps & Hge).
    split_and!; [done|done|eexists; by eapply deref_weaken|].
    apply (Forall2_impl_elem_of _ _ _ _ Hps). intros p b Hp Hdp. split; [done|].
    intros l Hl Hl'. specialize (Hge p l Hp Hl).
    pose proof (deref_below h _ _ l Hwf Hd Hl'). lia.
Qed.

Lemma world_run_inv acts : ∀ w h w' h',
  world_inv w h → world_run w acts h = Some (w', h') → world_inv w' h'.
Proof.
  induction acts as [|a acts IH]; intros w h w' h' Hinv Hrun; simpl in Hrun; run_heap.
  - by simplify_eq.
  - destruct (world_step w a h) as [[w1 h1]|] eqn:E; [|done].
    eapply IH; [|done]. by eapply world_step_inv.
Qed.

(** [C39] On the page's one heap, whatever the users of the form and of
    the list's inline editor do, interleaved with refreshes, the posts
    the manager holds show exactly the values of the response they were
    parsed from: the form's in-place assignment only reaches objects the
    form allocated, the Edit click shares the post's array but every
    edit copies it, and a refresh allocates new objects. *)
Theorem posts_show_last_response h0 acts w h :
  heap_wf h0 → world_run world_init acts h0 = Some (w, h) →
  Forall2 (λ p b, deref (cells h) (hp_content p) = Some (content b)) (w_posts w) (w_data w).
Proof.
  intros Hwf Hrun.
  destruct (world_run_inv acts world_init h0 w h
              ltac:(split_and!; [done|apply NoDup_nil_2|by eexists|constructor]) Hrun)
    as (_ & _ & _ & Hposts).
  eapply Forall2_impl; [exact Hposts|]. by intros p b [? _].
Qed.

(** ** Witness *)

Definition demo_blog : Blog := mkBlog "0" "Old" "Asha" demo_sections "2024-01-01".

(** A refresh lists the post; the user edits its first heading in the
    list and adds and fills a section in the form, saves, and the next
    refresh arrives. *)
Definition demo_world_acts : list WAct :=
  [WFetch [demo_blog]; WEditClick 0; WEdit (EContentChange 0 FHeading "Edited");
   WForm Form.FAddSection; WForm (Form.FContentChange 0 FParagraph "Text");
   WEdit ESave; WFetch [demo_blog]].

Lemma posts_show_last_response_witness :
  ∃ w h, world_run world_init demo_world_acts (heap_of []) = Some (w, h) ∧
    w_data w = [demo_blog] ∧
    Forall2 (λ p b, deref (cells h) (hp_content p) = Some (content b)) (w_posts w) (w_data w).
Proof.
  do 2 eexists. split; [vm_compute; reflexivity|]. split; [reflexivity|].
  eapply (posts_show_last_response (heap_of []) demo_world_acts);
    [apply heap_of_wf|vm_compute; reflexivity].
Defined.
