(* ===== verification/HeapApp.v ===== *)
(** * HeapApp: the whole page on one heap, refining [app_exec]

    [App.v] runs the page with the sections of every post, of the form
    and of the list's editor as values.  In the browser they are objects
    of one heap: the manager's [blogs] are the objects axios parsed from
    the last [GET /blogs] response ([setBlogs(response.data)]), the form
    assigns into the objects it allocated
    ([updatedContent[index][field] = value] in [BlogForm.js]), and the
    list's Edit click puts a post's own [content] array into
    [editedBlog] ([BlogList.js]).  [happ_exec] is [app_exec] over the
    [Heap] of [FormStore.v]: the same labels, the same request queue and
    server, with the form of [HForm], the list of [HList.list_step], and
    a manager whose posts ([HManager]) hold locations.

    [happ_refines_app]: on any server, from the mount, every run of
    labels of the heap page, read back through the heap, is the run of
    [app_run] on the same labels, and the heap page is stuck exactly
    when [app_run] is.  The by-value model of [App.v] (and so every
    theorem proved of it) is therefore exact for the page with shared
    objects.  The simulation relation [happ_rel] says that the posts, the
    selection, the form and the list's buffer read back to the values of
    [App.v], and that the objects of the form are held by nobody else;
    [happ_run_reach] gives every state of the heap page the invariants
    of [App.v] through its read-back. *)

From stdpp Require Import gmap.
From S2P Require Import Prelude Blog BlogList BlogForm Server BlogManager App FormStore SharedHeap.

Import Manager.
Open Scope heap_scope.

(** A post read back through the heap: its sections are the objects its
    array holds. *)
Definition post_view (c : gmap loc Section) (p : HPost) : option Blog :=
  cs ← deref c (hp_content p);
  Some (mkBlog (hp_id p) (hp_title p) (hp_author p) cs (hp_createdAt p)).

Fixpoint posts_view (c : gmap loc Section) (ps : list HPost) : option (list Blog) :=
  match ps with
  | [] => Some []
  | p :: ps' => b ← post_view c p; bs ← posts_view c ps'; Some (b :: bs)
  end.

(** ** BlogManager with posts held by reference *)

Module HManager.

(** [const [blogs, setBlogs] = useState([])],
    [const [selectedBlog, setSelectedBlog] = useState(null)] *)
Record ManagerState := mkManagerState {
  blogs : list HPost;
  selectedBlog : option HPost
}.

Definition initial_manager : ManagerState := mkManagerState [] None.

(** [handleCreateOrUpdateBlog(blogData)], up to its [await]:
    [selectedBlog._id] of the selected post object. *)
Definition handleCreateOrUpdateBlog (m : ManagerState) (blogData : BlogData)
  : list Call :=
  match selectedBlog m with
  | Some p => [mkCall (RPut (hp_id p) blogData) KSave]
  | None => [mkCall (RPost blogData) KSave]
  end.

(** The rest of each handler after its [await]; a successful GET
    installs the objects parsed from [response.data]. *)
Definition resume (m : ManagerState) (k : Cont) (r : Response)
  : M (ManagerState * list Call) :=
  match k, r with
  | KFetch, ROk data =>
      ps ←ₕ parse_posts data; ret (mkManagerState ps (selectedBlog m), [])
  | KSave, ROk _ => ret (mkManagerState (blogs m) None, fetchBlogs)
  | KUpdate, ROk _ => ret (m, fetchBlogs)
  | KDelete, ROk _ => ret (m, fetchBlogs)
  | _, RFail => ret (m, [])
  end.

End HManager.

(** ** The page *)

Record HAppState (S : Type) := mkHApp {
  hmgr : HManager.ManagerState;
  hform : HForm.HFormState;
  hlst : HList.HListState;
  hpending : list Pending;
  hserver : S
}.
Arguments mkHApp {S}.
Arguments hmgr {S}.
Arguments hform {S}.
Arguments hlst {S}.
Arguments hpending {S}.
Arguments hserver {S}.

(** The initial [editedBlog] holds a fresh empty array. *)
Definition initial_hlist : HList.HListState :=
  HList.mkHList None false (HList.mkHBuffer "" "" []).

Section HeapApp.
Context {S : Type} `{Backend S}.

(** The mount: the form is given [selectedBlog || {}], then
    [fetchBlogs()]. *)
Definition happ_init (s0 : S) : HAppState S :=
  mkHApp HManager.initial_manager
    (HForm.init (HManager.selectedBlog HManager.initial_manager))
    initial_hlist (issue fetchBlogs) s0.

Definition hform_callback (m : HManager.ManagerState) (od : option BlogData)
  : list Call :=
  match od with
  | Some d => HManager.handleCreateOrUpdateBlog m d
  | None => []
  end.

(** [app_exec] with the components on the heap. *)
Definition happ_exec (st : HAppState S) (l : Label) : M (HAppState S) :=
  match l with
  | UForm ev =>
      r ←ₕ HForm.form_step (hform st) ev;
      ret (mkHApp (hmgr st) r.1 (hlst st)
             (hpending st ++ issue (hform_callback (hmgr st) r.2)) (hserver st))
  | UList ev =>
      r ←ₕ HList.list_step (HManager.blogs (hmgr st)) (hlst st) ev;
      ret (mkHApp (hmgr st) (hform st) r.1
             (hpending st ++ issue (list_callbacks r.2)) (hserver st))
  | Serve i o =>
      match hpending st !! i with
      | Some p =>
          match p_resp p with
          | Some _ => throw
          | None =>
              let '(s', r) := serve_outcome o (hserver st) (c_req (p_call p)) in
              ret (mkHApp (hmgr st) (hform st) (hlst st)
                     (<[i := mkPending (p_call p) (Some r)]> (hpending st)) s')
          end
      | None => throw
      end
  | Deliver i =>
      match hpending st !! i with
      | Some p =>
          match p_resp p with
          | Some r =>
              x ←ₕ HManager.resume (hmgr st) (c_cont (p_call p)) r;
              ret (mkHApp x.1 (hform st) (hlst st)
                     (delete i (hpending st) ++ issue x.2) (hserver st))
          | None => throw
          end
      | None => throw
      end
  end.

Fixpoint happ_run (st : HAppState S) (ls : list Label) : M (HAppState S) :=
  match ls with
  | [] => ret st
  | l :: ls' => st' ←ₕ happ_exec st l; happ_run st' ls'
  end.

(** The page read back through the heap. *)
Definition happ_view (h : Heap) (st : HAppState S) : option (AppState S) :=
  bs ← posts_view (cells h) (HManager.blogs (hmgr st));
  sel ← match HManager.selectedBlog (hmgr st) with
        | Some p => Some <$> post_view (cells h) p
        | None => Some None
        end;
  fs ← HForm.view h (hform st);
  ls ← HList.view h (hlst st);
  Some (mkApp (mkManagerState bs sel) fs ls (hpending st) (hserver st)).

(** The objects the manager and the list hold. *)
Definition held (st : HAppState S) : list loc :=
  (HManager.blogs (hmgr st) ≫= hp_content) ++
  from_option hp_content [] (HManager.selectedBlog (hmgr st)) ++
  HList.eb_content (HList.editedBlog (hlst st)).

(** The read-back of the manager and the list. *)
Definition shared_rel (h : Heap) (st : HAppState S) (ast : AppState S) : Prop :=
  Forall2 (λ p b, post_view (cells h) p = Some b)
    (HManager.blogs (hmgr st)) (blogs (mgr ast)) ∧
  option_Forall2 (λ p b, post_view (cells h) p = Some b)
    (HManager.selectedBlog (hmgr st)) (selectedBlog (mgr ast)) ∧
  HList.view h (hlst st) = Some (lst ast).

(** The simulation relation. *)
Definition happ_rel (h : Heap) (st : HAppState S) (ast : AppState S) : Prop :=
  heap_wf h ∧ shared_rel h st ast ∧
  NoDup (HForm.content (hform st)) ∧ HForm.view h (hform st) = Some (form ast) ∧
  (∀ l, l ∈ HForm.content (hform st) → l ∉ held st) ∧
  hpending st = pending ast ∧ hserver st = server ast.

(** What one step of the heap page promises of the by-value step: both
    are enabled and related, or neither is. *)
Definition sim_outcome (r : option (HAppState S * Heap)) (o : option (AppState S))
  : Prop :=
  match r, o with
  | Some (st', h'), Some ast' => happ_rel h' st' ast'
  | None, None => True
  | _, _ => False
  end.

End HeapApp.

(** ** Reading back *)

Local Ltac run_heap :=
  unfold bind, ret, load, store, alloc, throw in *; simpl in *.

Lemma post_view_Some c p b :
  post_view c p = Some b ↔
  ∃ cs, deref c (hp_content p) = Some cs ∧
        b = mkBlog (hp_id p) (hp_title p) (hp_author p) cs (hp_createdAt p).
Proof.
  unfold post_view. destruct (deref c (hp_content p)); simpl; naive_solver.
Qed.

Lemma post_view_frame c c' p :
  (∀ l, l ∈ hp_content p → c' !! l = c !! l) → post_view c' p = post_view c p.
Proof. intros Hfr. unfold post_view. by rewrite (deref_frame c c'). Qed.

Lemma posts_view_Forall2 c ps bs :
  Forall2 (λ p b, post_view c p = Some b) ps bs → posts_view c ps = Some bs.
Proof. induction 1 as [|p b ps bs Hp _ IH]; simpl; [done|]. by rewrite Hp, IH. Qed.

Section read_back.
Context {S : Type} `{Backend S}.
Implicit Types (st : HAppState S) (ast : AppState S).

Lemma happ_rel_view h st ast : happ_rel h st ast → happ_view h st = Some ast.
Proof.
  intros (_ & (Hps & Hsel & Hlv) & _ & Hfv & _ & Hp & Hs).
  unfold happ_view. rewrite (posts_view_Forall2 _ _ _ Hps), Hfv, Hlv, Hp, Hs.
  destruct ast as [[bs sel] fs ls pend s]; simpl in *.
  destruct Hsel as [p b Hpb|]; simpl; [by rewrite Hpb|done].
Qed.

(** Every object the manager and the list hold is allocated. *)
Lemma held_allocated h st ast l :
  shared_rel h st ast → l ∈ held st → is_Some (cells h !! l).
Proof.
  intros (Hps & Hsel & Hlv). unfold held.
  rewrite !elem_of_app, list_elem_of_bind. intros [(p & Hl & Hp)|[Hl|Hl]].
  - apply list_elem_of_lookup in Hp as [i Hi].
    destruct (Forall2_lookup_l _ _ _ _ _ Hps Hi) as (b & _ & (cs & Hd & _)%post_view_Some).
    by eapply deref_allocated.
  - destruct Hsel as [p b (cs & Hd & _)%post_view_Some|]; simpl in Hl;
      [by eapply deref_allocated|set_solver].
  - unfold HList.view in Hlv.
    destruct (deref _ _) as [cs|] eqn:Hd; [by eapply deref_allocated|done].
Qed.

(** The read-back of the manager and the list depends only on the
    objects they hold. *)
Lemma shared_rel_frame h h' st ast :
  shared_rel h st ast → (∀ l, l ∈ held st → cells h' !! l = cells h !! l) →
  shared_rel h' st ast.
Proof.
  intros (Hps & Hsel & Hlv) Hfr. unfold held in Hfr. split_and!.
  - eapply Forall2_impl_elem_of; [done|]. intros p b Hp Hpb.
    rewrite <-Hpb. apply post_view_frame. intros l Hl. apply Hfr.
    apply elem_of_app. left. apply list_elem_of_bind. eauto.
  - destruct Hsel as [p b Hpb|]; constructor.
    rewrite <-Hpb. apply post_view_frame. intros l Hl. apply Hfr. simpl. set_solver.
  - unfold HList.view in *. rewrite (deref_frame (cells h)); [done|].
    intros l Hl. apply Hfr. set_solver.
Qed.

Lemma shared_rel_weaken h h' st ast :
  cells h ⊆ cells h' → shared_rel h st ast → shared_rel h' st ast.
Proof.
  intros Hsub Hsh. apply (shared_rel_frame h); [done|]. intros l Hl.
  destruct (held_allocated h st ast l Hsh Hl) as [s Hs].
  rewrite Hs. by eapply lookup_weaken.
Qed.

End read_back.

(** A response is always installed: parsing allocates, and allocation
    cannot fail. *)
Lemma alloc_all_Some ss h : is_Some (alloc_all ss h).
Proof.
  revert h. induction ss as [|s ss IH]; intros h; simpl; run_heap; [by eexists|].
  match goal with |- context [alloc_all ss ?h1] =>
    by destruct (IH h1) as [[ls h'] ->] end.
Qed.

Lemma parse_posts_Some bs h : is_Some (parse_posts bs h).
Proof.
  revert h. induction bs as [|b bs IH]; intros h; simpl; unfold parse_post; run_heap;
    [by eexists|].
  destruct (alloc_all_Some (content b) h) as [[ls h1] ->].
  by destruct (IH h1) as [[ps h'] ->].
Qed.

(** The posts parsed from a response read back as the response. *)
Lemma parse_posts_view bs h ps h' :
  heap_wf h → parse_posts bs h = Some (ps, h') →
  Forall2 (λ p b, post_view (cells h') p = Some b) ps bs.
Proof.
  revert h ps. induction bs as [|b bs IH]; intros h ps Hwf Hp; simpl in Hp;
    unfold parse_post in Hp; run_heap; [by simplify_eq/=|].
  destruct (alloc_all (content b) h) as [[ls h1]|] eqn:E1; [|done].
  destruct (parse_posts bs h1) as [[ps1 h2]|] eqn:E2; simplify_eq/=.
  destruct (alloc_all_spec _ _ _ _ Hwf E1) as (Hwf1 & _ & _ & Hd1 & _).
  destruct (parse_posts_spec _ _ _ _ Hwf1 E2) as (_ & Hsub2 & _).
  constructor; [|by eapply IH].
  apply post_view_Some. eexists. split; [by eapply deref_weaken|by destruct b].
Qed.

(** ** One step of each kind *)

Section step.
Context {S : Type} `{Backend S}.
Implicit Types (st : HAppState S) (ast : AppState S).

(** The selected post object's [_id] is the selected post's. *)
Lemma hform_callback_rel c m m' od :
  option_Forall2 (λ p b, post_view c p = Some b)
    (HManager.selectedBlog m) (selectedBlog m') →
  hform_callback m od = form_callback m' od.
Proof.
  intros Hsel. destruct od as [d|]; [|done]. simpl.
  unfold HManager.handleCreateOrUpdateBlog, handleCreateOrUpdateBlog.
  destruct Hsel as [p b (cs & _ & ->)%post_view_Some|]; done.
Qed.

Lemma toggle_view h lst ls id :
  HList.view h lst = Some ls →
  HList.view h (HList.handleToggleContent lst id) = Some (handleToggleContent ls id).
Proof.
  unfold HList.view, HList.handleToggleContent, handleToggleContent.
  destruct (deref _ _) eqn:Hd; intros; simplify_eq/=.
  by destruct (_ && _); simpl; rewrite Hd.
Qed.

Lemma toggle_buffer lst id :
  HList.editedBlog (HList.handleToggleContent lst id) = HList.editedBlog lst.
Proof. unfold HList.handleToggleContent. by destruct (_ && _). Qed.

(** The list's dispatch on the heap, read back, is [BlogList.list_step];
    the buffer after it holds the objects it held, those of a listed
    post, or fresh ones. *)
Lemma hlist_step_sim h lst ls posts bs ev :
  heap_wf h → Forall2 (λ p b, post_view (cells h) p = Some b) posts bs →
  HList.view h lst = Some ls →
  match HList.list_step posts lst ev h, list_step bs ls ev with
  | Some ((lst', effs), h'), Some (ls', effs') =>
      effs = effs' ∧ HList.view h' lst' = Some ls' ∧ heap_wf h' ∧ cells h ⊆ cells h' ∧
      ∀ l, l ∈ HList.eb_content (HList.editedBlog lst') →
        l ∈ HList.eb_content (HList.editedBlog lst) ∨
        (∃ p, p ∈ posts ∧ l ∈ hp_content p) ∨ next_loc h ≤ l
  | None, None => True
  | _, _ => False
  end.
Proof.
  intros Hwf Hps Hv. pose proof Hv as Hv0. unfold HList.view in Hv.
  destruct (deref _ (HList.eb_content _)) as [cs|] eqn:Hd; simplify_eq/=.
  assert (Hrow : ∀ row, option_Forall2 (λ p b, post_view (cells h) p = Some b)
                          (posts !! row) (bs !! row)) by (by apply Forall2_lookup).
  destruct ev as [row|row|row|row e]; simpl; specialize (Hrow row);
    destruct (posts !! row) as [p|] eqn:Hp, (bs !! row) as [b|];
    inversion_clear Hrow as [? ? Hpb|]; run_heap; try done;
    pose proof Hpb as (cs' & Hd' & ->)%post_view_Some.
  - split_and!; eauto using toggle_view. rewrite toggle_buffer. auto.
  - destruct (HList.editMode lst); simpl; [done|].
    split_and!; eauto.
    + unfold HList.view. simpl. by rewrite Hd'.
    + intros l Hl. right. left. exists p. split; [by eapply list_elem_of_lookup_2|done].
  - unfold HList.edit_form_shown, edit_form_shown. simpl.
    destruct (_ && _); simpl; [done|].
    split_and!; eauto using toggle_view. rewrite toggle_buffer. auto.
  - unfold HList.edit_form_shown, edit_form_shown. simpl.
    destruct (_ && _); simpl; [|done].
    pose proof (edit_step_refines h lst _ (hp_id p) e Hwf Hv0) as Href.
    destruct (HList.edit_form_step lst (hp_id p) e h) as [[[lst' effs] h']|] eqn:E;
      [|by rewrite <-Href].
    destruct (edit_step_shape h lst (hp_id p) e lst' effs h' Hwf ltac:(by eexists) E)
      as ([cs'' Hd''] & Hcont).
    destruct (edit_step_grows h lst (hp_id p) e _ h' Hwf E) as [Hwf' Hsub].
    unfold HList.obs in Href. unfold HList.view in Href at 1. rewrite Hd'' in Href.
    rewrite <-Href. split_and!; try done.
    + unfold HList.view. by rewrite Hd''.
    + intros l Hl. destruct (Hcont l Hl); auto.
Qed.

(** A form event writes only the form's objects and allocates above the
    held ones: the manager and the list read back as before. *)
Lemma happ_form_sim h st ast ev :
  happ_rel h st ast → sim_outcome (happ_exec st (UForm ev) h) (app_exec ast (UForm ev)).
Proof.
  intros (Hwf & Hsh & Hnd & Hfv & Hdis & Hp & Hs).
  pose proof (form_step_refines h _ _ ev Hwf Hnd Hfv) as Href.
  simpl. run_heap.
  destruct (HForm.form_step (hform st) ev h) as [[[f' od] h']|] eqn:E;
    [|by rewrite <-Href].
  assert (Hd : is_Some (deref (cells h) (HForm.content (hform st)))).
  { unfold HForm.view in Hfv. by destruct (deref _ _). }
  destruct (form_step_shape h _ ev f' od h' Hwf Hnd Hd E)
    as (Hwf' & [cs' Hd'] & Hnd' & Hn & Hsub & Hfr).
  unfold HForm.obs in Href. unfold HForm.view in Href at 1. rewrite Hd' in Href.
  rewrite <-Href. simpl.
  assert (Hheld : ∀ l, l ∈ held st → l < next_loc h).
  { intros l Hl. apply Hwf. by eapply held_allocated. }
  split_and!; try done.
  - apply (shared_rel_frame h); [done|]. intros l Hl.
    apply Hfr; [intros ?; by eapply Hdis|auto].
  - simpl. unfold HForm.view. by rewrite Hd'.
  - intros l Hl Hl'. destruct (Hsub l Hl) as [?|?]; [by eapply Hdis|].
    specialize (Hheld l Hl'). lia.
  - simpl. rewrite Hp. do 2 f_equal. apply (hform_callback_rel (cells h)), Hsh.
Qed.

Lemma hform_view_weaken h h' f fs :
  cells h ⊆ cells h' → HForm.view h f = Some fs → HForm.view h' f = Some fs.
Proof.
  intros Hsub. unfold HForm.view. destruct (deref (cells h) _) eqn:Hd; [|done].
  by rewrite (deref_weaken _ _ _ _ Hsub Hd).
Qed.

Lemma hform_below h f fs l :
  heap_wf h → HForm.view h f = Some fs → l ∈ HForm.content f → l < next_loc h.
Proof.
  unfold HForm.view. destruct (deref (cells h) _) eqn:Hd; [|done].
  intros Hwf _. by eapply deref_below.
Qed.

(** A list event only allocates; the buffer it leaves holds objects of
    the posts, of the old buffer or fresh ones, none of the form's. *)
Lemma happ_list_sim h st ast ev :
  happ_rel h st ast → sim_outcome (happ_exec st (UList ev) h) (app_exec ast (UList ev)).
Proof.
  intros (Hwf & Hsh & Hnd & Hfv & Hdis & Hp & Hs). pose proof Hsh as (Hps & Hsel & Hlv).
  pose proof (hlist_step_sim h _ _ _ _ ev Hwf Hps Hlv) as Hl.
  simpl. run_heap.
  destruct (HList.list_step _ _ ev h) as [[[lst' effs] h']|],
    (list_step _ _ ev) as [[ls' effs']|]; try done.
  destruct Hl as (<- & Hlv' & Hwf' & Hsub & Hcont).
  destruct (shared_rel_weaken h h' st ast Hsub Hsh) as (Hps' & Hsel' & _).
  split_and!; simpl; try done.
  - by apply (hform_view_weaken h).
  - intros l Hl Hh. apply (Hdis l Hl). unfold held in *; simpl in *.
    rewrite !elem_of_app in Hh |- *. destruct Hh as [?|[?|Hh]]; [auto|auto|].
    destruct (Hcont l Hh) as [?|[(p & Hp' & Hlp)|Hge]]; [auto| |].
    + left. apply list_elem_of_bind. eauto.
    + pose proof (hform_below h _ _ l Hwf Hfv Hl). lia.
  - by rewrite Hp.
Qed.

(** Serving a request leaves the heap and every component alone. *)
Lemma happ_serve_sim h st ast i o :
  happ_rel h st ast → sim_outcome (happ_exec st (Serve i o) h) (app_exec ast (Serve i o)).
Proof.
  intros (Hwf & Hsh & Hnd & Hfv & Hdis & Hp & Hs). simpl. rewrite Hp, Hs.
  destruct (pending ast !! i) as [pd|]; simpl; run_heap; [|done].
  destruct (p_resp pd); [done|].
  destruct (serve_outcome o (server ast) (c_req (p_call pd))). by split_and!.
Qed.

(** The manager's continuation on the heap: the same requests, and
    posts that read back as those of [resume], holding objects that were
    held or are fresh. *)
Lemma hresume_sim h st ast k r :
  happ_rel h st ast →
  ∃ m' h', HManager.resume (hmgr st) k r h = Some ((m', (resume (mgr ast) k r).2), h') ∧
    heap_wf h' ∧ cells h ⊆ cells h' ∧
    Forall2 (λ p b, post_view (cells h') p = Some b)
      (HManager.blogs m') (blogs (resume (mgr ast) k r).1) ∧
    option_Forall2 (λ p b, post_view (cells h') p = Some b)
      (HManager.selectedBlog m') (selectedBlog (resume (mgr ast) k r).1) ∧
    ∀ l, l ∈ (HManager.blogs m' ≫= hp_content) ++
             from_option hp_content [] (HManager.selectedBlog m') →
         l ∈ held st ∨ next_loc h ≤ l.
Proof.
  intros (Hwf & Hsh & _). pose proof Hsh as (Hps & Hsel & _).
  assert (Hold : ∀ l, l ∈ (HManager.blogs (hmgr st) ≫= hp_content) ++
             from_option hp_content [] (HManager.selectedBlog (hmgr st)) → l ∈ held st).
  { unfold held. set_solver. }
  destruct k, r as [data|]; simpl; run_heap.
  1: destruct (parse_posts_Some data h) as [[ps h'] Hpp]; rewrite Hpp; simpl;
     destruct (parse_posts_spec data h ps h' Hwf Hpp) as (Hwf' & Hsub & _ & _ & Hge);
     destruct (shared_rel_weaken h h' st ast Hsub Hsh) as (_ & Hsel' & _).
  all: eexists _, _; split_and!; try done; eauto using parse_posts_view.
  - intros l. rewrite elem_of_app, list_elem_of_bind.
    intros [(p & Hl & Hp)|Hl]; [right; by eapply Hge|left; apply Hold; set_solver].
  - constructor.
  - intros l Hl. left. apply Hold. set_solver.
Qed.

(** Delivering a response runs the manager's continuation on the heap. *)
Lemma happ_deliver_sim h st ast i :
  happ_rel h st ast → sim_outcome (happ_exec st (Deliver i) h) (app_exec ast (Deliver i)).
Proof.
  intros Hrel. pose proof Hrel as (Hwf & Hsh & Hnd & Hfv & Hdis & Hp & Hs).
  simpl. rewrite Hp. destruct (pending ast !! i) as [pd|]; simpl; run_heap; [|done].
  destruct (p_resp pd) as [r|]; simpl; [|done].
  destruct (hresume_sim h st ast (c_cont (p_call pd)) r Hrel)
    as (m' & h' & Hres & Hwf' & Hsub & Hps' & Hsel' & Hheld).
  rewrite Hres. destruct (resume (mgr ast) _ r) as [mg calls]. simpl in *.
  destruct (shared_rel_weaken h h' st ast Hsub Hsh) as (_ & _ & Hlv').
  split_and!; simpl; try done.
  - by apply (hform_view_weaken h).
  - intros l Hl Hh. unfold held in Hh. simpl in Hh. rewrite app_assoc, elem_of_app in Hh.
    destruct Hh as [Hh|Hh].
    + destruct (Hheld l Hh) as [?|?]; [by eapply Hdis|].
      pose proof (hform_below h _ _ l Hwf Hfv Hl). lia.
    + apply (Hdis l Hl). unfold held. set_solver.
Qed.

End step.

(** ** The refinement *)

Section refinement.
Context {S : Type} `{Backend S}.
Implicit Types (st : HAppState S) (ast : AppState S).

Lemma happ_exec_sim h st ast l :
  happ_rel h st ast → sim_outcome (happ_exec st l h) (app_exec ast l).
Proof.
  destruct l; eauto using happ_form_sim, happ_list_sim, happ_serve_sim, happ_deliver_sim.
Qed.

Lemma happ_run_sim ls : ∀ h st ast,
  happ_rel h st ast → sim_outcome (happ_run st ls h) (app_run ast ls).
Proof.
  induction ls as [|l ls IH]; intros h st ast Hrel; simpl; run_heap; [done|].
  pose proof (happ_exec_sim h st ast l Hrel) as Hs.
  destruct (happ_exec st l h) as [[st1 h1]|], (app_exec ast l) as [ast1|]; try done.
  by apply IH.
Qed.

Lemma happ_init_rel (s0 : S) h0 : heap_wf h0 → happ_rel h0 (happ_init s0) (app_init s0).
Proof.
  intros Hwf. split_and!; simpl; try done.
  - split_and!; by constructor.
  - apply NoDup_nil_2.
  - set_solver.
Qed.

(** Every state the heap page reaches from the mount reads back to a
    reachable state of [App]: the invariants proved there hold of it. *)
Lemma happ_run_reach (s0 : S) h0 ls st h :
  server_wf s0 → heap_wf h0 → happ_run (happ_init s0) ls h0 = Some (st, h) →
  ∃ ast, happ_view h st = Some ast ∧ app_reach ast.
Proof.
  intros Hs0 Hwf Hrun. pose proof (happ_run_sim ls h0 _ _ (happ_init_rel s0 h0 Hwf)) as Hs.
  rewrite Hrun in Hs. destruct (app_run (app_init s0) ls) as [ast|] eqn:E; [|done].
  exists ast. split; [by apply happ_rel_view|].
  eapply app_run_reach; [by constructor|exact E].
Qed.

End refinement.

Section claim.
Context {S : Type} `{Backend S}.

(** [C37] On any server and from any well-formed heap, every run of the
    page with its sections as objects of one heap (the posts parsed from
    each response, the form assigning into its own objects, the list's
    editor sharing a post's array and copying on write), read back
    through the heap, is the run of [app_run] on the same labels; the
    heap page is stuck exactly when [app_run] is. *)
Theorem happ_refines_app (s0 : S) h0 ls :
  heap_wf h0 →
  (r ← happ_run (happ_init s0) ls h0; happ_view r.2 r.1) = app_run (app_init s0) ls.
Proof.
  intros Hwf. pose proof (happ_run_sim ls h0 _ _ (happ_init_rel s0 h0 Hwf)) as Hs.
  destruct (happ_run _ ls h0) as [[st h]|], (app_run _ ls) as [ast|]; try done.
  simpl. by apply happ_rel_view.
Qed.

End claim.

(** ** A run on the reference backend *)

(** The mount's GET; a post with one section is written in the form and
    submitted; its refresh installs the parsed posts; the new post's
    section is edited in the list and saved. *)
Definition demo_page : list Label :=
  [Serve 0 Delivered; Deliver 0;
   UForm (Form.FTitle "New"); UForm (Form.FAuthor "Ravi"); UForm Form.FAddSection;
   UForm (Form.FContentChange 0 FParagraph "Intro"); UForm Form.FSubmit;
   Serve 0 Delivered; Deliver 0; Serve 0 Delivered; Deliver 0;
   UList (LClickEdit 1); UList (LEditForm 1 (EContentChange 0 FParagraph "Preface"));
   UList (LEditForm 1 ESave); Serve 0 Delivered; Deliver 0; Serve 0 Delivered; Deliver 0].

Lemma happ_refines_app_witness :
  heap_wf (heap_of []) ∧
  (r ← happ_run (happ_init demo_server) demo_page (heap_of []); happ_view r.2 r.1)
    = app_run (app_init demo_server) demo_page ∧
  is_Some (app_run (app_init demo_server) demo_page).
Proof.
  split; [apply heap_of_wf|]. split.
  - apply (happ_refines_app demo_server (heap_of []) demo_page). apply heap_of_wf.
  - vm_compute. eexists. reflexivity.
Defined.
